(** * Ahjo: action registry and retrying SQL file loop

    A shallow embedding of [src/ahjo/action.py] and
    [src/ahjo/operations/general/sqlfiles.py], and the properties of the
    specification that concern them.

    Python values are modelled as follows: [str] as [string], [int] as [Z],
    [set] as [gset], the process-wide [registered_actions] dict as a
    [gmap string _] passed explicitly, list objects as entries of a store
    indexed by locations (so that [list.copy] and [list.remove] keep their
    aliasing behaviour), and a returned [dict] as an association list in
    insertion order.  Code that may raise returns a [result]; code with
    effects is a function from a state to a [result] and a new state. *)

From Stdlib Require Import ZArith Ascii String.
From stdpp Require Import base option list gmap sets strings sorting.

Local Open Scope Z_scope.
Local Open Scope nat_scope.

(** ** Python strings and [os.path] (POSIX flavour) *)

Module PyStr.

Definition nl : string := String "010"%char EmptyString.
Definition dquote : string := String "034"%char EmptyString.

(** [s.split(sep)] for a one-character separator: always at least one
    segment. *)
Fixpoint split (sep : ascii) (s : string) : list string :=
  match s with
  | EmptyString => [EmptyString]
  | String c s' =>
      if decide (c = sep) then EmptyString :: split sep s'
      else match split sep s' with
           | p :: ps => String c p :: ps
           | [] => [String c EmptyString]
           end
  end.

(** [sep.join(l)] *)
Fixpoint join (sep : string) (l : list string) : string :=
  match l with
  | [] => EmptyString
  | x :: l' =>
      match l' with
      | [] => x
      | _ :: _ => x +:+ sep +:+ join sep l'
      end
  end.

(** [''.join(l)] *)
Definition concat (l : list string) : string :=
  foldr String.append EmptyString l.

Definition startswith (s pre : string) : bool := String.prefix pre s.

Definition endswith (s suf : string) : bool :=
  String.prefix (String.rev suf) (String.rev s).

(** [sub in s] on two strings: substring test. *)
Fixpoint contains (s sub : string) : bool :=
  String.prefix sub s ||
  match s with
  | EmptyString => false
  | String _ s' => contains s' sub
  end.

(** [s.replace(a, b)] for two characters. *)
Fixpoint replace (a b : ascii) (s : string) : string :=
  match s with
  | EmptyString => EmptyString
  | String c s' => String (if decide (c = a) then b else c) (replace a b s')
  end.

(** The characters of a string, as Python iterates them. *)
Fixpoint chars (s : string) : list string :=
  match s with
  | EmptyString => []
  | String c s' => String c EmptyString :: chars s'
  end.

(** [posixpath.basename]: what follows the last slash. *)
Definition basename (p : string) : string :=
  List.last (split "/"%char p) EmptyString.

(** [posixpath.join] of two components. *)
Definition path_join (a b : string) : string :=
  if startswith b "/" then b
  else if decide (a = EmptyString) then a +:+ b
  else if endswith a "/" then a +:+ b
  else a +:+ "/" +:+ b.

(** [x] occurs in [y] as a contiguous piece. *)
Definition occurs_in (x y : string) : Prop :=
  ∃ pre post, y = pre +:+ x +:+ post.

End PyStr.

(** ** Exceptions and the state-and-error monad *)

(** The exception classes the code raises or that reach it.  Every class
    but [NonException] derives from [Exception]; [NonException] stands for
    [KeyboardInterrupt], [SystemExit] and the like, which
    [except Exception] lets through. *)
Inductive exn_class :=
  | RuntimeError | KeyError | ValueError | IndexError | AttributeError
  | OtherException | NonException.

Record exn := Exn { exn_cls : exn_class; exn_str : string }.

Definition is_Exception (e : exn) : bool :=
  match exn_cls e with
  | NonException => false
  | _ => true
  end.

Inductive result (A : Type) :=
  | Ok (a : A)
  | Raise (e : exn).
Arguments Ok {A} a.
Arguments Raise {A} e.

Definition M (S A : Type) : Type := S → result A * S.

Definition ret {S A} (a : A) : M S A := λ s, (Ok a, s).

Definition raise {S A} (e : exn) : M S A := λ s, (Raise e, s).

Definition bind {S A B} (m : M S A) (k : A → M S B) : M S B :=
  λ s, match m s with
       | (Ok a, s') => k a s'
       | (Raise e, s') => (Raise e, s')
       end.

Declare Scope py_scope.
Delimit Scope py_scope with py.
Notation "'let*' x ':=' m 'in' k" := (bind m (λ x, k))
  (at level 10, x pattern, m at level 100, k at level 200) : py_scope.
Local Open Scope py_scope.

(** [try: body  except Exception as error: handler(error)] *)
Definition try_except_Exception {S A} (body : M S A) (handler : exn → M S A)
  : M S A :=
  λ s, match body s with
       | (Ok a, s') => (Ok a, s')
       | (Raise e, s') =>
           if is_Exception e then handler e s' else (Raise e, s')
       end.

(** [for x in l: acc = body(x, acc)] over the elements of a list value. *)
Fixpoint for_each {S A B} (l : list A) (body : A → B → M S B) (acc : B)
  : M S B :=
  match l with
  | [] => ret acc
  | x :: l' => let* acc' := body x acc in for_each l' body acc'
  end.

(** ** The store of list objects *)

Definition loc := positive.

(** The program state: the list objects that are alive, and the world the
    collaborators act on (database, terminal, log, file system). *)
Record state (W : Type) := State {
  heap : gmap loc (list string);
  world : W
}.
Arguments State {W} heap world.
Arguments heap {W} s.
Arguments world {W} s.

Section Store.
Context {W : Type}.

(** The value of the list object at [p]. *)
Definition read (p : loc) : M (state W) (list string) :=
  λ s, (Ok (default [] (heap s !! p)), s).

Definition write (p : loc) (l : list string) : M (state W) unit :=
  λ s, (Ok tt, State (<[p := l]> (heap s)) (world s)).

(** A new list object. *)
Definition alloc (l : list string) : M (state W) loc :=
  λ s, let p := fresh (dom (heap s)) in
       (Ok p, State (<[p := l]> (heap s)) (world s)).

(** [p.copy()] *)
Definition list_copy (p : loc) : M (state W) loc :=
  let* l := read p in alloc l.

(** [len(p)] *)
Definition list_len (p : loc) : M (state W) nat :=
  let* l := read p in ret (length l).

(** The list without the first occurrence of [x], if there is one. *)
Fixpoint remove_first (x : string) (l : list string) : option (list string) :=
  match l with
  | [] => None
  | y :: l' =>
      if decide (x = y) then Some l'
      else cons y <$> remove_first x l'
  end.

(** [p.remove(x)] *)
Definition list_remove (p : loc) (x : string) : M (state W) unit :=
  let* l := read p in
  match remove_first x l with
  | Some l' => write p l'
  | None => raise (Exn ValueError "list.remove(x): x not in list")
  end.

(** A computation on the world alone, run in the program state. *)
Definition liftW {A} (m : M W A) : M (state W) A :=
  λ s, match m (world s) with
       | (r, w) => (r, State (heap s) w)
       end.

End Store.

(** ** Dicts in insertion order *)

Definition pydict (V : Type) : Type := list (string * V).

(** [d[k] = v]: a present key keeps its place, a new key goes last. *)
Fixpoint dict_set {V} (k : string) (v : V) (d : pydict V) : pydict V :=
  match d with
  | [] => [(k, v)]
  | (k', v') :: d' =>
      if decide (k = k') then (k, v) :: d'
      else (k', v') :: dict_set k v d'
  end.

Definition dict_keys {V} (d : pydict V) : list string := d.*1.
Definition dict_values {V} (d : pydict V) : list V := d.*2.

(** ** sqlfiles.py: the retry loop *)

Section SqlFileLoop.
Context {W : Type}.

(** The command with its [*args] applied: called on a file, it acts on
    the world and returns or raises. *)
Variable command : string → M W unit.

Definition separator : string := PyStr.nl +:+ "------" +:+ PyStr.nl.

(** [errors[file]] on a [defaultdict(set)]: the empty set for a new key. *)
Definition errors_get (errors : gmap string (gset string)) (file : string)
  : gset string :=
  default ∅ (errors !! file).

(** [errors[file].add(error_str)] *)
Definition errors_add (file error_str : string)
    (errors : gmap string (gset string)) : gmap string (gset string) :=
  <[file := errors_get errors file ∪ {[error_str]}]> errors.

(** The body of the inner loop, for one file. *)
Definition loop_body (copy_list : loc) (file : string)
    (errors : gmap string (gset string))
  : M (state W) (gmap string (gset string)) :=
  try_except_Exception
    (let* _ := liftW (command file) in
     let* _ := list_remove copy_list file in
     ret errors)
    (λ error,
       let error_str := separator +:+ exn_str error in
       ret (errors_add file error_str errors)).

(** [n] rounds of the outer loop.  The inner loop runs over the list
    object [copy_list_loop], which its body never writes: the body
    removes from [copy_list], another object. *)
Fixpoint rounds (n : nat) (copy_list copy_list_loop : loc)
    (errors : gmap string (gset string))
  : M (state W) (gmap string (gset string)) :=
  match n with
  | O => ret errors
  | S n' =>
      let* files := read copy_list_loop in
      let* errors' := for_each files (loop_body copy_list) errors in
      let* copy_list_loop' := list_copy copy_list in
      rounds n' copy_list copy_list_loop' errors'
  end.

(** [{f: list(errors[f]) for f in copy_list}].  The order in which
    [list] enumerates a set is not specified by Python; [elements] is one
    enumeration without repetition. *)
Definition failed_dict (errors : gmap string (gset string))
    (remaining : list string) : pydict (list string) :=
  foldl (λ d f, dict_set f (elements (errors_get errors f)) d)
        [] remaining.

(** [sql_file_loop(command, *args, file_list=..., max_loop=...)];
    [max_loop] is [None] when the caller leaves it out. *)
Definition sql_file_loop (file_list : loc) (max_loop : option Z)
  : M (state W) (pydict (list string)) :=
  let* copy_list := list_copy file_list in
  let* copy_list_loop := list_copy copy_list in
  let* errors := rounds (Z.to_nat (default 10%Z max_loop))
                        copy_list copy_list_loop ∅ in
  let* remaining := read copy_list in
  if decide (0 < length remaining)
  then ret (failed_dict errors remaining)
  else ret [].

End SqlFileLoop.

(** ** Collaborators

    The modules [ahjo.operation_manager], [ahjo.interface_methods],
    [ahjo.context] and the functions [execute_from_file] and
    [execute_try_catch] of [ahjo.database_utilities] are not part of the
    sources at hand, and the logger, the file system and the terminal are
    outside the program.  They are taken as parameters acting on the
    world [W]. *)

(** [allowed_actions: Union[str, list]] *)
Inductive allowed :=
  | AllowedStr (s : string)
  | AllowedList (l : list string).

Record collaborators (W Engine Ctx : Type) := Collaborators {
  (** [logger.info], [logger.warning], [logger.error] *)
  logger_info : string → W → W;
  logger_warning : string → W → W;
  logger_error : string → W → W;
  (** [OperationManager(message)]: what entering and leaving the [with]
      block do.  Leaving never swallows an exception: [deploy_sqlfiles]
      and [drop_sqlfile_objects] document that the [RuntimeError] they
      raise inside the block reaches their caller. *)
  om_enter : string → W → W;
  om_exit : string → W → W;
  (** [Path(directory).is_dir()] and [listdir(directory)] *)
  is_dir : string → W → bool;
  listdir : string → M W (list string);
  (** [execute_from_file(engine, file_path=..., variables=...)], with its
      output as the logger prints it *)
  execute_from_file : Engine → string → option string → M W string;
  (** [execute_try_catch(engine, query=...)] *)
  execute_try_catch : Engine → string → M W unit;
  (** [are_you_sure(message)] *)
  are_you_sure : string → M W bool;
  (** [Context(config_filename)] *)
  Context_init : string → M W Ctx;
  (** [context.get_conn_info()]: the connection settings, each value as
      an f-string prints it *)
  get_conn_info : Ctx → M W (gmap string string);
  (** [context.configuration.get('allowed_actions', ...)]: [None] when
      the key is absent *)
  configuration_allowed_actions : Ctx → option allowed
}.
Arguments Collaborators {W Engine Ctx}.
Arguments logger_info {W Engine Ctx} c msg w.
Arguments logger_warning {W Engine Ctx} c msg w.
Arguments logger_error {W Engine Ctx} c msg w.
Arguments om_enter {W Engine Ctx} c message w.
Arguments om_exit {W Engine Ctx} c message w.
Arguments is_dir {W Engine Ctx} c directory w.
Arguments listdir {W Engine Ctx} c directory.
Arguments execute_from_file {W Engine Ctx} c engine file_path variables.
Arguments execute_try_catch {W Engine Ctx} c engine query.
Arguments are_you_sure {W Engine Ctx} c message.
Arguments Context_init {W Engine Ctx} c config_filename.
Arguments get_conn_info {W Engine Ctx} c context.
Arguments configuration_allowed_actions {W Engine Ctx} c context.

(** The same collaborators with another [are_you_sure]. *)
Definition with_are_you_sure {W Engine Ctx} (ask : string → M W bool)
    (B : collaborators W Engine Ctx) : collaborators W Engine Ctx :=
  {| logger_info := logger_info B;
     logger_warning := logger_warning B;
     logger_error := logger_error B;
     om_enter := om_enter B;
     om_exit := om_exit B;
     is_dir := is_dir B;
     listdir := listdir B;
     execute_from_file := execute_from_file B;
     execute_try_catch := execute_try_catch B;
     are_you_sure := ask;
     Context_init := Context_init B;
     get_conn_info := get_conn_info B;
     configuration_allowed_actions := configuration_allowed_actions B |}.

Section Effects.
Context {W Engine Ctx : Type}.
Variable B : collaborators W Engine Ctx.

(** A logger call as a computation. *)
Definition log (logger : string → W → W) (msg : string) : M (state W) unit :=
  λ s, (Ok tt, State (heap s) (logger msg (world s))).

(** [with OperationManager(message): body] *)
Definition with_OperationManager {A} (message : string)
    (body : M (state W) A) : M (state W) A :=
  λ s, let s1 := State (heap s) (om_enter B message (world s)) in
       match body s1 with
       | (r, s2) => (r, State (heap s2) (om_exit B message (world s2)))
       end.

End Effects.

(** ** sqlfiles.py: deploying and dropping the files of a directory *)

Section SqlFiles.
Context {W Engine Ctx : Type}.
Variable B : collaborators W Engine Ctx.

(** [deploy_sql_from_file(file, engine, display_output, variable)] *)
Definition deploy_sql_from_file (file : string) (engine : Engine)
    (display_output : bool) (variable : option string) : M W unit :=
  let* output := execute_from_file B engine file variable in
  let* _ := (λ w, (Ok tt, logger_info B (PyStr.basename file) w)) in
  if display_output
  then (λ w, (Ok tt, logger_info B output w))
  else ret tt.

(** [parts[i]] *)
Definition index (parts : list string) (i : nat) : result string :=
  match parts !! i with
  | Some x => Ok x
  | None => Raise (Exn IndexError "list index out of range")
  end.

(** The name of the object that [drop_sql_from_file] drops: its lines
    from the split of the base name to the choice of [object_name]. *)
Definition drop_object_name (file object_type : string) : result string :=
  let parts := PyStr.split "."%char (PyStr.basename file) in
  if decide (object_type = "ASSEMBLY") then index parts 0
  else
    if decide (length parts ≠ 3)
    then Raise (Exn RuntimeError
                  ("File " +:+ file +:+ " not in <schema.object.sql> format."))
    else match index parts 0, index parts 1 with
         | Ok p0, Ok p1 => Ok (p0 +:+ "." +:+ p1)
         | Raise e, _ => Raise e
         | _, Raise e => Raise e
         end.

(** [drop_sql_from_file(file, engine, object_type)] *)
Definition drop_sql_from_file (file : string) (engine : Engine)
    (object_type : string) : M W unit :=
  match drop_object_name file object_type with
  | Raise e => raise e
  | Ok object_name =>
      let query := "DROP " +:+ object_type +:+ " " +:+ object_name in
      execute_try_catch B engine query
  end.

(** The [.sql] files of a directory, with the directory joined on. *)
Definition sql_files_of (directory : string) (names : list string)
  : list string :=
  PyStr.path_join directory <$>
    filter (λ f, PyStr.endswith f ".sql" = true) names.

(** The message of the [RuntimeError]: the header with the keys joined
    by newlines, then every error string of every value. *)
Definition error_msg (header : string) (failed : pydict (list string))
  : string :=
  foldl (λ msg fail_messages, msg +:+ PyStr.concat fail_messages)
        (header +:+ PyStr.join PyStr.nl (dict_keys failed))
        (dict_values failed).

(** [deploy_sqlfiles(engine, directory, message, display_output, variables)] *)
Definition deploy_sqlfiles (engine : Engine) (directory message : string)
    (display_output : bool) (variables : option string)
  : M (state W) bool :=
  with_OperationManager B message
    (λ s,
       if negb (is_dir B directory (world s))
       then (let* _ := log (logger_warning B)
                           ("Directory not found: " +:+ directory) in
             ret false) s
       else
         (let* names := liftW (listdir B directory) in
          let* files := alloc (sql_files_of directory names) in
          let* n := list_len files in
          let* failed :=
            sql_file_loop
              (λ file, deploy_sql_from_file file engine display_output variables)
              files (Some (Z.of_nat n)) in
          if decide (0 < length failed)
          then raise (Exn RuntimeError
                        (error_msg ("Failed to deploy the following files:"
                                      +:+ PyStr.nl) failed))
          else ret true) s).

(** [drop_sqlfile_objects(engine, object_type, directory, message)] *)
Definition drop_sqlfile_objects (engine : Engine)
    (object_type directory message : string) : M (state W) unit :=
  with_OperationManager B message
    (λ s,
       if negb (is_dir B directory (world s))
       then log (logger_warning B) ("Directory not found: " +:+ directory) s
       else
         (let* names := liftW (listdir B directory) in
          let* files := alloc (sql_files_of directory names) in
          let* n := list_len files in
          let* failed :=
            sql_file_loop
              (λ file, drop_sql_from_file file engine object_type)
              files (Some (Z.of_nat n)) in
          if decide (0 < length failed)
          then raise (Exn RuntimeError
                        (error_msg ("Failed to drop the following files:"
                                      +:+ PyStr.nl) failed))
          else ret tt) s).

End SqlFiles.

(** ** action.py: registering, composing, checking and executing actions *)

(** What an action function returns ([Any]): enough of Python's values to
    hold [None] and the list a multiaction returns. *)
#[warnings="-register-all"]
Inductive value :=
  | VNone
  | VBool (b : bool)
  | VInt (z : Z)
  | VStr (s : string)
  | VList (vs : list value).

(** How a block of statements ends: by [return v], or by reaching its end
    with its local variables [locals]. *)
Inductive completion (A L : Type) :=
  | Return (v : A)
  | Next (locals : L).
Arguments Return {A L} v.
Arguments Next {A L} locals.

Section Actions.
Context {W Engine Ctx Args : Type}.

(** A Python function object: its [__name__], its [__doc__], and what
    calling it with the context and the remaining arguments does.  An
    action function acts on the program state, not on the registry. *)
Record pyfunc := PyFunc {
  f_name : string;
  f_doc : option string;
  f_call : Ctx → Args → M (state W) value
}.

(** [class ActionRegisteration] *)
Record ActionRegisteration := {
  function : pyfunc;
  name : string;
  affects_database : bool;
  dependencies : gset string;
  baseactions : gset string
}.

(** [registered_actions] *)
Abbreviation registry := (gmap string ActionRegisteration).

(** [ActionRegisteration.register] *)
Definition register (self : ActionRegisteration) (registered_actions : registry)
  : registry :=
  <[name self := self]> registered_actions.

(** [ActionRegisteration.__init__]: builds the object and registers it. *)
Definition ActionRegisteration_init (function : pyfunc) (name : string)
    (affects_database : bool) (dependencies : gset string)
    (baseactions : option (gset string)) (registered_actions : registry)
  : ActionRegisteration * registry :=
  let self := {| function := function;
                 name := name;
                 affects_database := affects_database;
                 dependencies := dependencies;
                 baseactions := default {[name]} baseactions |} in
  (self, register self registered_actions).

(** [action(name, affects_database, dependencies)(func)]: the decorator
    registers [func], under its own name with dashes for underscores when
    no name is given, and returns it. *)
Definition action (name : option string) (affects_database : bool)
    (dependencies : list string) (func : pyfunc)
    (registered_actions : registry) : pyfunc * registry :=
  let action_name :=
    match name with
    | Some n => n
    | None => PyStr.replace "_"%char "-"%char (f_name func)
    end in
  (func,
   (ActionRegisteration_init func action_name affects_database
      (list_to_set dependencies) None registered_actions).2).

(** [[registered_actions[sa] for sa in subactions]] *)
Fixpoint lookup_all (registered_actions : registry) (subactions : list string)
  : result (list ActionRegisteration) :=
  match subactions with
  | [] => Ok []
  | sa :: subactions' =>
      match registered_actions !! sa with
      | None => Raise (Exn KeyError ("'" +:+ sa +:+ "'"))
      | Some r =>
          match lookup_all registered_actions subactions' with
          | Ok rs => Ok (r :: rs)
          | Raise e => Raise e
          end
      end
  end.

(** [[r.function( *args, **kwargs) for r in registerations]]: the calls
    are made in order, and the first one that raises ends the walk. *)
Fixpoint call_all (registerations : list ActionRegisteration)
    (context : Ctx) (args : Args) : M (state W) (list value) :=
  match registerations with
  | [] => ret []
  | r :: registerations' =>
      let* v := f_call (function r) context args in
      let* vs := call_all registerations' context args in
      ret (v :: vs)
  end.

(** [create_multiaction(action_name, subactions, description)] *)
Definition create_multiaction (action_name : string)
    (subactions : list string) (description : string)
    (registered_actions : registry) : result (pyfunc * registry) :=
  match lookup_all registered_actions subactions with
  | Raise e => Raise e
  | Ok registerations =>
      let affects_database :=
        existsb affects_database registerations in
      let baseactions : gset string :=
        ⋃ (baseactions <$> registerations) in
      let dependencies : gset string :=
        ⋃ (dependencies <$> registerations) ∖ baseactions in
      let func :=
        {| f_name := "func";
           f_doc := Some description;
           f_call := λ context args,
             let* returns := call_all registerations context args in
             ret (VList returns) |} in
      let '(_, registered_actions') :=
        ActionRegisteration_init func action_name affects_database
          dependencies (Some baseactions) registered_actions in
      Ok (func, registered_actions')
  end.

Variable B : collaborators W Engine Ctx.

(** [x in allowed_actions] *)
Definition py_in (x : string) (allowed_actions : allowed) : bool :=
  match allowed_actions with
  | AllowedStr s => PyStr.contains s x
  | AllowedList l => bool_decide (x ∈ l)
  end.

(** [', '.join(allowed_actions)] *)
Definition join_allowed (allowed_actions : allowed) : string :=
  match allowed_actions with
  | AllowedStr s => PyStr.join ", " (PyStr.chars s)
  | AllowedList l => PyStr.join ", " l
  end.

(** [check_action_validity(action_name, allowed_actions)].  The last
    diagnostic lists the registry's keys, here in the map's order. *)
Definition check_action_validity (action_name : string)
    (allowed_actions : allowed) (registered_actions : registry)
  : M (state W) bool :=
  if negb (py_in action_name allowed_actions)
     && negb (py_in "ALL" allowed_actions)
  then
    let* _ := log (logger_error B)
                  ("Action " +:+ action_name
                   +:+ " is not permitted, allowed actions: "
                   +:+ join_allowed allowed_actions) in
    ret false
  else if decide (size registered_actions = 0)
  then
    let* _ := log (logger_error B) "No actions defined" in
    ret false
  else
    match registered_actions !! action_name with
    | None =>
        let* _ := log (logger_error B)
                      ("No action " +:+ action_name +:+ " found.") in
        let* _ := log (logger_error B)
                      ("Available actions: "
                       +:+ PyStr.join ", " (map_to_list registered_actions).*1) in
        ret false
    | Some _ => ret true
    end.

(** [ActionRegisteration.notify_dependencies]; the set is walked in the
    order of [elements]. *)
Definition notify_dependencies (self : ActionRegisteration)
  : M (state W) unit :=
  if decide (name self = "complete-build") then ret tt
  else
    for_each (elements (dependencies self))
      (λ dep _,
         log (logger_info B)
             ("Note ! this command (" +:+ name self
              +:+ ") assumes that the " +:+ dep
              +:+ " action has been successfully completed already"))
      tt.

(** [conn_info.get(key)] inside an f-string *)
Definition fmt_get (conn_info : gmap string string) (key : string) : string :=
  default "None" (conn_info !! key).

(** The warning that [pre_exec_check] shows. *)
Definition warning_message (conn_info : gmap string string) : string :=
  "Warning! You are about to commit changes to server "
  +:+ fmt_get conn_info "server"
  +:+ " database " +:+ fmt_get conn_info "database".

(** [ActionRegisteration.pre_exec_check] *)
Definition pre_exec_check (self : ActionRegisteration) (context : Ctx)
  : M (state W) bool :=
  let* _ := notify_dependencies self in
  if affects_database self
  then
    let* conn_info := liftW (get_conn_info B context) in
    let* sure := liftW (are_you_sure B (warning_message conn_info)) in
    if negb sure then ret false else ret true
  else ret true.

(** ['Starting to execute "' + action_name + '"'] *)
Definition starting_message (action_name : string) : string :=
  "Starting to execute " +:+ PyStr.dquote +:+ action_name +:+ PyStr.dquote.

(** [execute_action(action_name, config_filename, *args, **kwargs)] *)
Definition execute_action (action_name config_filename : string)
    (args : Args) (registered_actions : registry) : M (state W) value :=
  let* _ := log (logger_info B) "------" in
  let* block :=
    with_OperationManager B (starting_message action_name)
      (let* context := liftW (Context_init B config_filename) in
       let* valid :=
         check_action_validity action_name
           (default (AllowedList []) (configuration_allowed_actions B context))
           registered_actions in
       if negb valid then ret (Return VNone)
       else
         match registered_actions !! action_name with
         | None =>
             raise (Exn AttributeError
                      "'NoneType' object has no attribute 'pre_exec_check'")
         | Some action =>
             let* go := pre_exec_check action context in
             if negb go then ret (Return VNone)
             else ret (Next (context, action))
         end) in
  match block with
  | Return v => ret v
  | Next (context, action) => f_call (function action) context args
  end.

End Actions.
Arguments pyfunc : clear implicits.
Arguments ActionRegisteration : clear implicits.

(** [registered_actions] *)
Abbreviation registry W Ctx Args := (gmap string (ActionRegisteration W Ctx Args)).

(** ** Vocabulary of the properties *)

Section Vocabulary.
Context {W Ctx Args : Type}.
Implicit Types (s : state W) (p q : loc) (l : list string).

(** What a computation leaves alone: every list object that is alive
    when it starts, except the one at [q]. *)
Definition preserves (q : loc) (s s' : state W) : Prop :=
  ∀ p l, p ≠ q → heap s !! p = Some l → heap s' !! p = Some l.

Definition Preserving {A} (q : loc) (m : M (state W) A) : Prop :=
  ∀ s, preserves q s (m s).2.

(** The number of times [f] occurs in [l]. *)
Definition occurrences (f : string) (l : list string) : nat :=
  length (filter (λ g, g = f) l).

(** The command fails on the items of [files] that are in [F], each time
    it is called on them and by an exception that [except Exception]
    catches, and returns on the other items of [files]. *)
Definition fails_exactly_on (command : string → M W unit) (F : gset string)
    (files : list string) : Prop :=
  ∀ f, f ∈ files → ∀ w,
    if decide (f ∈ F)
    then ∃ e w', command f w = (Raise e, w') ∧ is_Exception e = true
    else ∃ w', command f w = (Ok tt, w').

(** [x] is what the loop records for a failure of the command on [f]: the
    separator, then the text of the exception raised. *)
Definition error_string_of (command : string → M W unit) (f x : string)
  : Prop :=
  ∃ w e w', command f w = (Raise e, w') ∧ x = separator +:+ exn_str e.

(** Calling the functions of [rs] one after the other from state [s]:
    either all return, with values [vs] in the order of [rs], or one
    raises after those before it have returned, and no later one is
    called. *)
Inductive calls_in_order (context : Ctx) (args : Args)
  : list (ActionRegisteration W Ctx Args) → state W
    → result (list value) → state W → Prop :=
  | calls_nil s :
      calls_in_order context args [] s (Ok []) s
  | calls_cons r rs s v s1 vs s2 :
      f_call (function r) context args s = (Ok v, s1) →
      calls_in_order context args rs s1 (Ok vs) s2 →
      calls_in_order context args (r :: rs) s (Ok (v :: vs)) s2
  | calls_raise_first r rs s e s1 :
      f_call (function r) context args s = (Raise e, s1) →
      calls_in_order context args (r :: rs) s (Raise e) s1
  | calls_raise_later r rs s v s1 e s2 :
      f_call (function r) context args s = (Ok v, s1) →
      calls_in_order context args rs s1 (Raise e) s2 →
      calls_in_order context args (r :: rs) s (Raise e) s2.

End Vocabulary.

(** ** The calls of a run *)

Section Trace.
Context {W : Type}.

(** Calling the command on the items one after the other, each call from
    the world that the call before it left: what each call did, in the
    order of the calls, and the world left by the last one. *)
Fixpoint call_each (command : string → M W unit) (items : list string)
    (w : W) : list (string * result unit) * W :=
  match items with
  | [] => ([], w)
  | f :: items' =>
      let r := command f w in
      let t := call_each command items' r.2 in
      ((f, r.1) :: t.1, t.2)
  end.

(** The items tried by [n] rounds, in the order they are tried, when the
    items that fail are those of [F]: every item in the first round, the
    failing items again in each later round. *)
Definition attempts (F : gset string) (files : list string) (n : nat)
  : list string :=
  match n with
  | O => []
  | S m => files ++ mjoin (replicate m (filter (.∈ F) files))
  end.

(** The error strings of the failures on [f] in a history of calls, in
    the order of the calls: the separator, then the text of the
    exception. *)
Definition failure_texts (f : string) (history : list (string * result unit))
  : list string :=
  omap (λ call : string * result unit,
          match call.2 with
          | Raise e =>
              if decide (call.1 = f) then Some (separator +:+ exn_str e)
              else None
          | Ok _ => None
          end) history.

(** The items of the calls that failed, in the order of the calls. *)
Definition failed_items (history : list (string * result unit))
  : list string :=
  omap (λ call : string * result unit,
          match call.2 with
          | Raise _ => Some call.1
          | Ok _ => None
          end) history.

(** Retrying, as a specification: in each of [n] rounds the command is
    called on every outstanding item, and the items on which it failed
    are the outstanding items of the next round.  The result is the
    history of all the calls, the items outstanding after the last round,
    and the world the last call left. *)
Fixpoint retry_rounds (command : string → M W unit) (n : nat)
    (outstanding : list string) (w : W)
  : list (string * result unit) * list string * W :=
  match n with
  | O => ([], outstanding, w)
  | S n' =>
      let round := call_each command outstanding w in
      let later := retry_rounds command n' (failed_items round.1) round.2 in
      (round.1 ++ later.1.1, later.1.2, later.2)
  end.

End Trace.

(** ** The claims that the code does not meet, as they are stated *)

(** On a command that fails on the items of [F] every time, the loop run
    with the bound [max_loop] returns a dict with the failing items as
    keys, each with exactly [max_loop] recorded errors. *)
Definition full_history_claim : Prop :=
  ∀ (W : Type) (command : string → M W unit) (F : gset string)
    (file_list : loc) (files : list string) (max_loop : Z) (s : state W),
    heap s !! file_list = Some files →
    fails_exactly_on command F files →
    ∃ failed s',
      sql_file_loop command file_list (Some max_loop) s = (Ok failed, s')
      ∧ (∀ f, f ∈ dict_keys failed ↔ f ∈ files ∧ f ∈ F)
      ∧ ∀ f errs, (f, errs) ∈ failed → length errs = Z.to_nat max_loop.

(** Called without a bound, the loop runs as with the number of items as
    its bound. *)
Definition default_bound_claim : Prop :=
  ∀ (W : Type) (command : string → M W unit) (file_list : loc)
    (files : list string) (s : state W),
    heap s !! file_list = Some files →
    sql_file_loop command file_list None s
    = sql_file_loop command file_list (Some (Z.of_nat (length files))) s.

(** ** A small session *)

Module Sample.

(** The world: the lines written so far (log, statements, questions). *)
Definition world : Type := list string.

Definition say (line : string) : M world unit := λ w, (Ok tt, w ++ [line]).

(** A directory [sql] with two scripts and a text file; the script
    [sql/b.sql] cannot be run; the user answers no. *)
Definition B : collaborators world unit unit :=
  {| logger_info := λ msg w, w ++ ["INFO " +:+ msg];
     logger_warning := λ msg w, w ++ ["WARNING " +:+ msg];
     logger_error := λ msg w, w ++ ["ERROR " +:+ msg];
     om_enter := λ message w, w ++ [message];
     om_exit := λ message w, w ++ ["------"];
     is_dir := λ directory w, bool_decide (directory = "sql");
     listdir := λ directory, ret ["a.sql"; "b.sql"; "notes.txt"];
     execute_from_file := λ engine file_path variables,
       if decide (file_path = "sql/b.sql")
       then raise (Exn OtherException "Invalid object name")
       else (let* _ := say file_path in ret "done");
     execute_try_catch := λ engine query, say query;
     are_you_sure := λ message, (let* _ := say message in ret false);
     Context_init := λ config_filename, ret tt;
     get_conn_info := λ context,
       ret {[ "server" := "localhost"; "database" := "store" ]};
     configuration_allowed_actions := λ context, Some (AllowedList ["ALL"]) |}.

(** A command that fails on [b.sql], with the same text every time. *)
Definition fails_on_b (file : string) : M world unit :=
  if decide (file = "b.sql")
  then raise (Exn OtherException "Invalid object name")
  else say file.

(** A command that fails when nothing has been written yet, and returns
    afterwards. *)
Definition fails_once (file : string) : M world unit :=
  λ w, match w with
       | [] => (Raise (Exn OtherException "locked"), ["retry"])
       | _ :: _ => (Ok tt, w)
       end.

(** A state with one list object. *)
Definition two_files : state world :=
  State {[ 1%positive := ["a.sql"; "b.sql"] ]} [].

Definition one_file : state world :=
  State {[ 1%positive := ["a.sql"] ]} [].

Definition nothing_yet : state world := State ∅ [].

(** Two actions, the second one changing the database. *)
Definition init : pyfunc world unit unit :=
  {| f_name := "init"; f_doc := None;
     f_call := λ context args, liftW (let* _ := say "init" in ret VNone) |}.

Definition deploy : pyfunc world unit unit :=
  {| f_name := "deploy"; f_doc := None;
     f_call := λ context args, liftW (let* _ := say "deploy" in ret (VInt 1)) |}.

Definition registered : registry world unit unit :=
  (ActionRegisteration_init deploy "deploy" true {["init"]} None
     (ActionRegisteration_init init "init" false ∅ None ∅).2).2.

Definition deploy_action : ActionRegisteration world unit unit :=
  {| function := deploy; name := "deploy"; affects_database := true;
     dependencies := {["init"]}; baseactions := {["deploy"]} |}.

Definition init_action : ActionRegisteration world unit unit :=
  {| function := init; name := "init"; affects_database := false;
     dependencies := ∅; baseactions := {["init"]} |}.

End Sample.

(** ** action.py: listing the actions *)

Section Listing.
Context {W Engine Ctx Args : Type}.
Variable B : collaborators W Engine Ctx.

(** [registeration.function.__doc__ or 'No description available.'] *)
Definition description (f : pyfunc W Ctx Args) : string :=
  match f_doc f with
  | Some doc =>
      if decide (doc = EmptyString) then "No description available." else doc
  | None => "No description available."
  end.

(** The order in which [sorted] puts two items of the dict: the keys of a
    dict are distinct, so the order of the keys decides.  Python orders
    strings by code points, [String.le] by bytes, which is the same order
    on strings in UTF-8. *)
Definition key_le (x y : string * ActionRegisteration W Ctx Args) : Prop :=
  String.le x.1 y.1.

#[global] Instance key_le_dec : RelDecision key_le.
Proof. intros x y. unfold key_le. apply _. Defined.

(** [sorted(registered_actions.items())] *)
Definition sorted_items (registered_actions : registry W Ctx Args)
  : list (string * ActionRegisteration W Ctx Args) :=
  merge_sort key_le (map_to_list registered_actions).

(** The line logged for one action. *)
Definition listing_line (item : string * ActionRegisteration W Ctx Args)
  : string :=
  "'" +:+ item.1 +:+ "': " +:+ description (function item.2).

(** [list_actions()] *)
Definition list_actions (registered_actions : registry W Ctx Args)
  : M (state W) unit :=
  let* _ := log (logger_info B) "-------------------------------" in
  let* _ := log (logger_info B) "List of available actions" in
  let* _ := log (logger_info B) "-------------------------------" in
  for_each (sorted_items registered_actions)
    (λ item _, log (logger_info B) (listing_line item)) tt.

End Listing.

(** Every action of the registry is stored under its own name. *)
Definition keyed_by_name {W Ctx Args} (registered_actions : registry W Ctx Args)
  : Prop :=
  ∀ k r, registered_actions !! k = Some r → name r = k.

(** The small session on a server where every script runs. *)
Definition every_script_runs : collaborators Sample.world unit unit :=
  {| logger_info := logger_info Sample.B;
     logger_warning := logger_warning Sample.B;
     logger_error := logger_error Sample.B;
     om_enter := om_enter Sample.B;
     om_exit := om_exit Sample.B;
     is_dir := is_dir Sample.B;
     listdir := listdir Sample.B;
     execute_from_file := λ engine file_path variables,
       (let* _ := Sample.say file_path in ret "done");
     execute_try_catch := execute_try_catch Sample.B;
     are_you_sure := are_you_sure Sample.B;
     Context_init := Context_init Sample.B;
     get_conn_info := get_conn_info Sample.B;
     configuration_allowed_actions := configuration_allowed_actions Sample.B |}.

(** ** credential_handler.py: looking a key up in a file *)

(** [line.split('=', 1)]: one split at most, at the first separator. *)
Fixpoint split_once (sep : ascii) (line : string) : list string :=
  match line with
  | EmptyString => [EmptyString]
  | String c line' =>
      if decide (c = sep) then [EmptyString; line']
      else match split_once sep line' with
           | p :: ps => String c p :: ps
           | [] => [String c EmptyString]
           end
  end.

(** [linekey, val = parts] *)
Definition unpack_pair (parts : list string) : result (string * string) :=
  match parts with
  | [linekey; val] => Ok (linekey, val)
  | [] => Raise (Exn ValueError "not enough values to unpack (expected 2, got 0)")
  | [_] => Raise (Exn ValueError "not enough values to unpack (expected 2, got 1)")
  | _ => Raise (Exn ValueError "too many values to unpack (expected 2)")
  end.

(** The body of the loop of [lookup_from_file] on one line: [Return v]
    when it returns [v], [Next tt] when the loop goes on.  The bare
    [except] catches whatever the [try] block raises. *)
Definition lookup_line (key line : string) : completion (option string) unit :=
  match unpack_pair (split_once "="%char line) with
  | Ok (linekey, val) =>
      if decide (linekey = key) then Return (Some val) else Next tt
  | Raise _ => Return (Some EmptyString)
  end.

(** The loop over the lines that iterating the file gives, each with the
    newline that ends it; [None] when the loop runs out of lines. *)
Fixpoint lookup_lines (key : string) (lines : list string) : option string :=
  match lines with
  | [] => None
  | line :: lines' =>
      match lookup_line key line with
      | Return v => v
      | Next _ => lookup_lines key lines'
      end
  end.

(** The file system as [lookup_from_file] uses it:
    [Path(filename).is_file()], and opening the file for reading and
    iterating its lines. *)
Record files (W : Type) := Files {
  is_file : string → W → bool;
  open_lines : string → M W (list string)
}.
Arguments Files {W}.
Arguments is_file {W} f filename w.
Arguments open_lines {W} f filename.

(** [lookup_from_file(key, filename)] *)
Definition lookup_from_file {W} (F : files W) (key filename : string)
  : M W (option string) :=
  λ w, if negb (is_file F filename w) then (Ok None, w)
       else (let* lines := open_lines F filename in
             ret (lookup_lines key lines)) w.

(** A file [usr.txt] with a line for another key, then the line for
    [cred]. *)
Definition one_credential : files Sample.world :=
  {| is_file := λ filename w, bool_decide (filename = "usr.txt");
     open_lines := λ filename,
       ret ["other=x" +:+ PyStr.nl; "cred=amFuZQ=="] |}.

(** * Properties *)

(** ** The monad *)

Section MonadLaws.
Context {S A B : Type}.
Implicit Types (m : M S A) (k : A → M S B).

Lemma bind_Ok m k s a s' : m s = (Ok a, s') → bind m k s = k a s'.
Proof. unfold bind. by intros ->. Qed.

Lemma bind_Raise m k s e s' :
  m s = (Raise e, s') → bind m k s = (Raise e, s').
Proof. unfold bind. by intros ->. Qed.

Lemma bind_ret a k s : bind (ret a) k s = k a s.
Proof. done. Qed.

Lemma bind_ext m k1 k2 s :
  (∀ a s', k1 a s' = k2 a s') → bind m k1 s = bind m k2 s.
Proof. intros Hk. unfold bind. destruct (m s) as [[a|e] s']; auto. Qed.

Lemma bind_cong m1 m2 k s : m1 s = m2 s → bind m1 k s = bind m2 k s.
Proof. unfold bind. by intros ->. Qed.

Lemma bind_Raise_inv m k s e s' :
  bind m k s = (Raise e, s') →
  m s = (Raise e, s') ∨ ∃ a s1, m s = (Ok a, s1) ∧ k a s1 = (Raise e, s').
Proof.
  unfold bind. destruct (m s) as [[a|e0] s1]; intros Hk.
  - right. by exists a, s1.
  - left. by injection Hk as -> ->.
Qed.

End MonadLaws.

(** ** The registry *)

Section RegistryProperties.
Context {W Engine Ctx Args : Type}.
Implicit Types (reg : registry W Ctx Args) (f : pyfunc W Ctx Args).

Lemma register_lookup (self : ActionRegisteration W Ctx Args) reg :
  register self reg !! name self = Some self.
Proof. unfold register. apply lookup_insert_eq. Qed.

Lemma register_lookup_other (self : ActionRegisteration W Ctx Args) reg n :
  n ≠ name self → register self reg !! n = reg !! n.
Proof. intros Hn. unfold register. by rewrite lookup_insert_ne. Qed.

(** C8: registering a second action under a name that is already taken
    is not refused: the constructor returns the new object with the
    given fields, the lookup of the name then gives the new object, the
    earlier one is gone, and every other name is as it was. *)
Theorem register_last_write_wins f1 f2 (n : string) a1 a2
    (d1 d2 : gset string) (b1 b2 : option (gset string)) reg :
  let reg1 := (ActionRegisteration_init f1 n a1 d1 b1 reg).2 in
  let self2 := (ActionRegisteration_init f2 n a2 d2 b2 reg1).1 in
  let reg2 := (ActionRegisteration_init f2 n a2 d2 b2 reg1).2 in
  is_Some (reg1 !! n)
  ∧ reg2 !! n = Some self2
  ∧ function self2 = f2 ∧ name self2 = n ∧ affects_database self2 = a2
  ∧ dependencies self2 = d2 ∧ baseactions self2 = default {[n]} b2
  ∧ reg2 = <[n := self2]> reg
  ∧ ∀ m, m ≠ n → reg2 !! m = reg !! m.
Proof.
  cbn. unfold register; cbn. repeat split.
  - rewrite lookup_insert_eq. by eexists.
  - by rewrite lookup_insert_eq.
  - by rewrite insert_insert_eq.
  - intros m Hm. by rewrite !lookup_insert_ne.
Qed.

End RegistryProperties.

(** ** Validity of an action name *)

Section ValidityProperties.
Context {W Engine Ctx Args : Type}.
Variable B : collaborators W Engine Ctx.
Implicit Types (reg : registry W Ctx Args).

Lemma size_registry_zero reg : size reg = 0 ↔ reg = ∅.
Proof. apply map_size_empty_iff. Qed.

(** The returned boolean, whatever the form of [allowed_actions]. *)
Lemma check_action_validity_result action_name allowed_actions reg
    (s : state W) :
  (check_action_validity B action_name allowed_actions reg s).1 =
    Ok ((py_in action_name allowed_actions || py_in "ALL" allowed_actions)
        && bool_decide (size reg ≠ 0)
        && bool_decide (is_Some (reg !! action_name))).
Proof.
  unfold check_action_validity.
  destruct (py_in action_name allowed_actions),
           (py_in "ALL" allowed_actions); cbn [negb andb orb]; try done.
  all: case_decide as Hsz.
  all: try (rewrite bool_decide_eq_false_2 by (intros Hne; by apply Hne);
            done).
  all: rewrite (bool_decide_eq_true_2 _ Hsz).
  all: destruct (reg !! action_name) eqn:Hlk.
  all: try (rewrite bool_decide_eq_true_2 by (by eexists); done).
  all: rewrite bool_decide_eq_false_2 by (by intros [? ?]); done.
Qed.

(** C5: with a list of allowed actions, [check_action_validity] returns
    false exactly when the name is neither in the list nor covered by
    the wildcard ["ALL"], or the registry is empty, or the name is not
    registered, and true in every other case; an empty list is refused
    whatever the registry holds, and an empty registry is refused
    whatever is allowed. *)
Theorem check_action_validity_cases action_name (l : list string)
    allowed_actions reg (s : state W) :
  let r := (check_action_validity B action_name (AllowedList l) reg s).1 in
  (r = Ok false ↔
     ((action_name ∉ l) ∧ ("ALL" ∉ l)) ∨ reg = ∅ ∨ reg !! action_name = None)
  ∧ (r = Ok true ↔
     ¬ (((action_name ∉ l) ∧ ("ALL" ∉ l)) ∨ reg = ∅ ∨ reg !! action_name = None))
  ∧ (check_action_validity B action_name (AllowedList []) reg s).1 = Ok false
  ∧ (check_action_validity B action_name allowed_actions
       (∅ : registry W Ctx Args) s).1 = Ok false.
Proof.
  cbn zeta. rewrite !check_action_validity_result. cbn [py_in].
  assert (Hdec :
    (bool_decide (action_name ∈ l) || bool_decide ("ALL" ∈ l))
    && bool_decide (size reg ≠ 0)
    && bool_decide (is_Some (reg !! action_name)) = false
    ↔ ((action_name ∉ l) ∧ ("ALL" ∉ l)) ∨ reg = ∅ ∨ reg !! action_name = None).
  { rewrite !andb_false_iff, orb_false_iff, !bool_decide_eq_false.
    rewrite <- size_registry_zero, <- eq_None_not_Some.
    split.
    - intros [[[??]|Hz]|?];
        [ by left
        | right; left; by destruct (decide (size reg = 0))
        | by right; right ].
    - intros [[??]|[Hz|?]];
        [ by left; left
        | left; right; intros Hne; by apply Hne
        | by right ]. }
  split; [|split; [|split]].
  - split; [intros [= Hr]; by apply Hdec | intros Hc; f_equal; by apply Hdec].
  - split.
    + intros [= Hr] Hc. apply Hdec in Hc. congruence.
    + intros Hc. f_equal. apply not_false_iff_true.
      intros Hr. by apply Hc, Hdec.
  - done.
  - rewrite map_size_empty. f_equal. by rewrite andb_false_r.
Qed.

End ValidityProperties.

(** ** Composing actions *)

Section ComposeProperties.
Context {W Engine Ctx Args : Type}.
Implicit Types (reg : registry W Ctx Args) (f : pyfunc W Ctx Args)
               (r : ActionRegisteration W Ctx Args)
               (rs : list (ActionRegisteration W Ctx Args)).

Lemma call_all_in_order context args rs s :
  calls_in_order context args rs s
    (call_all rs context args s).1 (call_all rs context args s).2.
Proof.
  revert s. induction rs as [|r rs IH]; intros s; cbn [call_all].
  - constructor.
  - destruct (f_call (function r) context args s) as [[v|e] s1] eqn:Hr.
    + rewrite (bind_Ok _ _ _ _ _ Hr). specialize (IH s1).
      destruct (call_all rs context args s1) as [[vs|e] s2] eqn:Hrs.
      * rewrite (bind_Ok _ _ _ _ _ Hrs). by eapply calls_cons.
      * rewrite (bind_Raise _ _ _ _ _ Hrs). by eapply calls_raise_later.
    + rewrite (bind_Raise _ _ _ _ _ Hr). by apply calls_raise_first.
Qed.

Lemma calls_in_order_call_all context args rs s res s' :
  calls_in_order context args rs s res s' →
  call_all rs context args s = (res, s').
Proof.
  induction 1 as [s|r rs s v s1 vs s2 Hr _ IH|r rs s e s1 Hr
                 |r rs s v s1 e s2 Hr _ IH]; cbn [call_all].
  - done.
  - rewrite (bind_Ok _ _ _ _ _ Hr). by rewrite (bind_Ok _ _ _ _ _ IH).
  - by rewrite (bind_Raise _ _ _ _ _ Hr).
  - rewrite (bind_Ok _ _ _ _ _ Hr). by rewrite (bind_Raise _ _ _ _ _ IH).
Qed.

Lemma lookup_all_registered reg subactions :
  Forall (λ sa, is_Some (reg !! sa)) subactions →
  ∃ rs, lookup_all reg subactions = Ok rs
        ∧ Forall2 (λ sa r, reg !! sa = Some r) subactions rs.
Proof.
  induction 1 as [|sa subactions [r Hr] _ (rs & Hrs & Hall)]; cbn.
  - by exists [].
  - exists (r :: rs). rewrite Hr, Hrs. split; [done|]. by constructor.
Qed.

Lemma existsb_affects rs :
  existsb affects_database rs = true
  ↔ ∃ r, r ∈ rs ∧ affects_database r = true.
Proof.
  rewrite existsb_exists. by setoid_rewrite list_elem_of_In.
Qed.

Lemma elem_of_union_field (field : ActionRegisteration W Ctx Args → gset string)
    rs (x : string) :
  x ∈ ⋃ (field <$> rs) ↔ ∃ r, r ∈ rs ∧ x ∈ field r.
Proof.
  rewrite elem_of_union_list. split.
  - intros (X & HX & Hx). apply list_elem_of_fmap in HX as (r & -> & Hr).
    by exists r.
  - intros (r & Hr & Hx). exists (field r). split; [|done].
    apply list_elem_of_fmap. by exists r.
Qed.

(** C4: composing subactions that are all registered succeeds and
    registers, under the new name, an action such that: calling its
    function calls the constituents' functions in the given order and
    returns the list of their return values (or raises what the first
    failing constituent raises); its [affects_database] flag is true
    exactly when some constituent's is; its [baseactions] are the union
    of the constituents' [baseactions]; its [dependencies] are the
    union of the constituents' [dependencies] without its own
    [baseactions]. *)
Theorem create_multiaction_composite action_name subactions description reg :
  Forall (λ sa, is_Some (reg !! sa)) subactions →
  ∃ func reg' rs self,
    create_multiaction action_name subactions description reg
      = Ok (func, reg')
    ∧ Forall2 (λ sa r, reg !! sa = Some r) subactions rs
    ∧ reg' = <[action_name := self]> reg
    ∧ function self = func ∧ name self = action_name
    ∧ (∀ context args s,
         ∃ res s',
           calls_in_order context args rs s res s'
           ∧ f_call func context args s =
               (match res with Ok vs => Ok (VList vs) | Raise e => Raise e end,
                s'))
    ∧ (affects_database self = true
       ↔ ∃ r, r ∈ rs ∧ affects_database r = true)
    ∧ (∀ x, x ∈ baseactions self ↔ ∃ r, r ∈ rs ∧ x ∈ baseactions r)
    ∧ (∀ x, x ∈ dependencies self
            ↔ (∃ r, r ∈ rs ∧ x ∈ dependencies r) ∧ x ∉ baseactions self).
Proof.
  intros Hreg.
  destruct (lookup_all_registered reg subactions Hreg) as (rs & Hrs & Hall).
  unfold create_multiaction. rewrite Hrs. cbn.
  eexists _, _, rs, _. split; [reflexivity|].
  split; [done|]. split; [reflexivity|]. cbn.
  split; [done|]. split; [done|]. split; [|split; [|split]].
  - intros context args s.
    exists (call_all rs context args s).1, (call_all rs context args s).2.
    split; [apply call_all_in_order|].
    unfold bind. by destruct (call_all rs context args s) as [[vs|e] s'].
  - apply existsb_affects.
  - intros x. apply elem_of_union_field.
  - intros x. rewrite elem_of_difference. by rewrite elem_of_union_field.
Qed.

End ComposeProperties.

(** ** Executing an action *)

Section ExecuteProperties.
Context {W Engine Ctx Args : Type}.
Variable B : collaborators W Engine Ctx.
Implicit Types (reg : registry W Ctx Args)
               (action : ActionRegisteration W Ctx Args).

Lemma with_OperationManager_ext {A} message (body1 body2 : M (state W) A)
    (s : state W) :
  (∀ s', body1 s' = body2 s') →
  with_OperationManager B message body1 s
  = with_OperationManager B message body2 s.
Proof. intros Hb. unfold with_OperationManager. by rewrite Hb. Qed.

Lemma log_run (logger : string → W → W) msg (s : state W) :
  log logger msg s = (Ok tt, State (heap s) (logger msg (world s))).
Proof. done. Qed.

(** A check that passes leaves no diagnostic. *)
Lemma check_action_validity_true action_name allowed_actions reg (s : state W) :
  (check_action_validity B action_name allowed_actions reg s).1 = Ok true →
  check_action_validity B action_name allowed_actions reg s = (Ok true, s).
Proof.
  unfold check_action_validity.
  destruct (negb _ && negb _); [done|].
  case_decide; [done|].
  by destruct (reg !! action_name).
Qed.

(** Notifying returns, and writes to the log only. *)
Lemma notify_dependencies_run action (s : state W) :
  ∃ w, notify_dependencies B action s = (Ok tt, State (heap s) w).
Proof.
  unfold notify_dependencies. case_decide.
  - destruct s. by eexists.
  - generalize (elements (dependencies action)). intros deps.
    generalize tt at 1. revert s.
    induction deps as [|dep deps IH]; intros s u; cbn [for_each].
    + destruct s, u. by eexists.
    + erewrite bind_Ok by apply log_run.
      destruct (IH (State (heap s) (logger_info B
        ("Note ! this command (" +:+ name action
         +:+ ") assumes that the " +:+ dep
         +:+ " action has been successfully completed already")
        (world s))) tt) as [w Hw].
      exists w. by rewrite Hw.
Qed.

Lemma notify_dependencies_with_are_you_sure ask action (s : state W) :
  notify_dependencies (with_are_you_sure ask B) action s
  = notify_dependencies B action s.
Proof. done. Qed.

Lemma check_action_validity_with_are_you_sure ask action_name allowed_actions
    reg (s : state W) :
  check_action_validity (with_are_you_sure ask B) action_name allowed_actions reg s
  = check_action_validity B action_name allowed_actions reg s.
Proof. done. Qed.

(** Without [affects_database], the check is the notification alone. *)
Lemma pre_exec_check_harmless action context (s : state W) :
  affects_database action = false →
  pre_exec_check B action context s
  = (Ok true, (notify_dependencies B action s).2).
Proof.
  intros Ha. unfold pre_exec_check.
  destruct (notify_dependencies_run action s) as [w Hw].
  rewrite (bind_Ok _ _ _ _ _ Hw), Ha, Hw. done.
Qed.

Lemma pre_exec_check_with_are_you_sure ask action context (s : state W) :
  affects_database action = false →
  pre_exec_check (with_are_you_sure ask B) action context s
  = pre_exec_check B action context s.
Proof. intros Haff. unfold pre_exec_check. by rewrite Haff. Qed.

(** With [affects_database], a refused question makes the check fail. *)
Lemma pre_exec_check_declined action context conn_info (s : state W) w4 w5 :
  affects_database action = true →
  get_conn_info B context (world (notify_dependencies B action s).2)
    = (Ok conn_info, w4) →
  are_you_sure B (warning_message conn_info) w4 = (Ok false, w5) →
  pre_exec_check B action context s = (Ok false, State (heap s) w5).
Proof.
  intros Haff Hconn Hno. unfold pre_exec_check.
  destruct (notify_dependencies_run action s) as [w3 Hw3].
  rewrite Hw3 in Hconn. cbn [snd world] in Hconn.
  rewrite (bind_Ok _ _ _ _ _ Hw3), Haff.
  erewrite bind_Ok; [|unfold liftW; cbn [heap world]; by rewrite Hconn].
  erewrite bind_Ok; [|unfold liftW; cbn [heap world]; by rewrite Hno].
  done.
Qed.

(** C6: when the action to execute has [affects_database] set and the
    user answers no to [are_you_sure], [execute_action] returns [None]
    and the final state is the one the refused question left, closed by
    the operation manager: the action's function has not run.  When
    [affects_database] is not set, [pre_exec_check] passes and neither
    it nor [execute_action] depends on what [are_you_sure] would do:
    the question is not asked. *)
Theorem declined_confirmation_skips action_name config_filename
    (args : Args) reg action context conn_info (s : state W) w2 w4 w5 :
  let w1 := om_enter B (starting_message action_name)
              (logger_info B "------" (world s)) in
  let allowed_actions :=
    default (AllowedList []) (configuration_allowed_actions B context) in
  let s3 := (notify_dependencies B action (State (heap s) w2)).2 in
  reg !! action_name = Some action →
  (affects_database action = true →
   Context_init B config_filename w1 = (Ok context, w2) →
   (check_action_validity B action_name allowed_actions reg
      (State (heap s) w2)).1 = Ok true →
   get_conn_info B context (world s3) = (Ok conn_info, w4) →
   are_you_sure B (warning_message conn_info) w4 = (Ok false, w5) →
   execute_action B action_name config_filename args reg s
   = (Ok VNone,
      State (heap s) (om_exit B (starting_message action_name) w5)))
  ∧ (affects_database action = false →
     ∀ ask context' s',
       (pre_exec_check B action context' s').1 = Ok true
       ∧ pre_exec_check (with_are_you_sure ask B) action context' s'
         = pre_exec_check B action context' s'
       ∧ execute_action (with_are_you_sure ask B)
           action_name config_filename args reg s'
         = execute_action B action_name config_filename args reg s').
Proof.
  intros w1 allowed_actions s3 Hreg. split.
  - intros Haff Hctx Hvalid Hconn Hno.
    unfold execute_action.
    rewrite (bind_Ok _ _ _ _ _ (log_run _ _ _)).
    match goal with
    | |- context [with_OperationManager _ _ ?b] => set (body := b)
    end.
    assert (Hbody : body (State (heap s) w1)
                    = (Ok (Return VNone), State (heap s) w5)).
    { subst body.
      erewrite bind_Ok; [|unfold liftW; cbn [heap world]; by rewrite Hctx].
      fold allowed_actions.
      rewrite (bind_Ok _ _ _ _ _
                 (check_action_validity_true _ _ _ _ Hvalid)).
      cbn [negb]. rewrite Hreg.
      by rewrite (bind_Ok _ _ _ _ _
                    (pre_exec_check_declined _ _ _ _ _ _ Haff Hconn Hno)). }
    erewrite bind_Ok;
      [|unfold with_OperationManager; cbn [heap world]; fold w1;
        by rewrite Hbody].
    done.
  - intros Haff ask context' s'. split; [|split].
    + by rewrite pre_exec_check_harmless.
    + by apply pre_exec_check_with_are_you_sure.
    + unfold execute_action.
      apply bind_ext; intros _ s1. apply bind_cong.
      change (with_OperationManager (with_are_you_sure ask B))
        with (with_OperationManager B (A:=completion value (Ctx * ActionRegisteration W Ctx Args))).
      apply with_OperationManager_ext; intros s2.
      apply bind_ext; intros ctx s5.
      rewrite (bind_cong _ _ _ _
                 (check_action_validity_with_are_you_sure ask _ _ _ _)).
      apply bind_ext; intros valid s4.
      destruct valid; cbn [negb]; [|done].
      rewrite Hreg. apply bind_cong.
      by apply pre_exec_check_with_are_you_sure.
Qed.

End ExecuteProperties.

(** ** Strings *)

Section StringProperties.

Lemma str_app_String c (a b : string) : String c a +:+ b = String c (a +:+ b).
Proof. done. Qed.

Lemma str_app_empty_l (a : string) : EmptyString +:+ a = a.
Proof. done. Qed.

Lemma str_app_empty_r (a : string) : a +:+ EmptyString = a.
Proof. induction a as [|c a IH]; [done|]. by rewrite str_app_String, IH. Qed.

Lemma str_app_assoc (a b c : string) : (a +:+ b) +:+ c = a +:+ (b +:+ c).
Proof. induction a as [|x a IH]; [done|]. by rewrite !str_app_String, IH. Qed.

Lemma split_cons sep s : ∃ p ps, PyStr.split sep s = p :: ps.
Proof.
  induction s as [|c s (p & ps & IH)]; cbn.
  - by eexists _, _.
  - case_decide; [by eexists _, _|]. rewrite IH. by eexists _, _.
Qed.

Lemma occurs_in_refl x : PyStr.occurs_in x x.
Proof. exists EmptyString, EmptyString. by rewrite str_app_empty_r. Qed.

Lemma occurs_in_app_l x a b :
  PyStr.occurs_in x a → PyStr.occurs_in x (a +:+ b).
Proof.
  intros (pre & post & ->). exists pre, (post +:+ b).
  by rewrite !str_app_assoc.
Qed.

Lemma occurs_in_app_r x a b :
  PyStr.occurs_in x b → PyStr.occurs_in x (a +:+ b).
Proof.
  intros (pre & post & ->). exists (a +:+ pre), post.
  by rewrite !str_app_assoc.
Qed.

Lemma occurs_in_join sep (l : list string) x :
  x ∈ l → PyStr.occurs_in x (PyStr.join sep l).
Proof.
  induction l as [|y l IH]; [by intros ?%elem_of_nil|].
  intros [->|Hx]%elem_of_cons; cbn [PyStr.join]; destruct l as [|z l].
  - apply occurs_in_refl.
  - apply occurs_in_app_l, occurs_in_refl.
  - by apply elem_of_nil in Hx.
  - by apply occurs_in_app_r, occurs_in_app_r, IH.
Qed.

Lemma occurs_in_concat (l : list string) x :
  x ∈ l → PyStr.occurs_in x (PyStr.concat l).
Proof.
  induction l as [|y l IH]; [by intros ?%elem_of_nil|].
  intros [->|Hx]%elem_of_cons; cbn [PyStr.concat foldr].
  - apply occurs_in_app_l, occurs_in_refl.
  - by apply occurs_in_app_r, IH.
Qed.

End StringProperties.

(** ** The store *)

Section StoreProperties.
Context {W : Type}.
Implicit Types (s : state W) (p q : loc) (l : list string).

Lemma fresh_lookup s : heap s !! fresh (dom (heap s)) = None.
Proof. apply not_elem_of_dom, is_fresh. Qed.

Lemma fresh_ne s p l : heap s !! p = Some l → p ≠ fresh (dom (heap s)).
Proof. intros Hp ->. by rewrite fresh_lookup in Hp. Qed.

Lemma list_copy_run p s :
  list_copy p s =
    (Ok (fresh (dom (heap s))),
     State (<[fresh (dom (heap s)) := default [] (heap s !! p)]> (heap s))
           (world s)).
Proof. done. Qed.

Local Abbreviation Preserving := (@Preserving W _).

Lemma preserves_refl q s : preserves q s s.
Proof. by intros p l. Qed.

Lemma preserves_trans q s1 s2 s3 :
  preserves q s1 s2 → preserves q s2 s3 → preserves q s1 s3.
Proof. intros H12 H23 p l Hp Hl. by apply H23, H12. Qed.

Lemma Preserving_ret {A} q (a : A) : Preserving q (ret a).
Proof. intros s. apply preserves_refl. Qed.

Lemma Preserving_raise {A} q e : Preserving q (raise e : M (state W) A).
Proof. intros s. apply preserves_refl. Qed.

Lemma Preserving_bind {A B} q (m : M (state W) A) (k : A → M (state W) B) :
  Preserving q m → (∀ a, Preserving q (k a)) → Preserving q (bind m k).
Proof.
  intros Hm Hk s. unfold bind. specialize (Hm s).
  destruct (m s) as [[a|e] s1]; [|done].
  eapply preserves_trans; [done|apply Hk].
Qed.

Lemma Preserving_read q p : Preserving q (read p).
Proof. intros s. apply preserves_refl. Qed.

Lemma Preserving_write q l : Preserving q (write q l).
Proof. intros s p l' Hp Hl. cbn. by rewrite lookup_insert_ne. Qed.

Lemma Preserving_alloc q l : Preserving q (alloc l).
Proof.
  intros s p l' Hp Hl. cbn.
  rewrite lookup_insert_ne; [done|]. intros Heq. by eapply fresh_ne.
Qed.

Lemma Preserving_list_copy q p : Preserving q (list_copy p).
Proof.
  apply Preserving_bind; [apply Preserving_read|].
  intros l. apply Preserving_alloc.
Qed.

Lemma Preserving_list_remove q x : Preserving q (list_remove q x).
Proof.
  apply Preserving_bind; [apply Preserving_read|]. intros l.
  destruct (remove_first x l);
    [apply Preserving_write|apply Preserving_raise].
Qed.

Lemma Preserving_liftW {A} q (m : M W A) : Preserving q (liftW m).
Proof.
  intros s p l _ Hl. unfold liftW. by destruct (m (world s)).
Qed.

Lemma Preserving_try_except {A} q (body : M (state W) A) handler :
  Preserving q body → (∀ e, Preserving q (handler e)) →
  Preserving q (try_except_Exception body handler).
Proof.
  intros Hb Hh s. unfold try_except_Exception. specialize (Hb s).
  destruct (body s) as [[a|e] s1]; [done|].
  destruct (is_Exception e); [|done].
  eapply preserves_trans; [done|apply Hh].
Qed.

Lemma Preserving_for_each {A B} q (l : list A) (body : A → B → M (state W) B)
    (acc : B) :
  (∀ x acc', Preserving q (body x acc')) →
  Preserving q (for_each l body acc).
Proof.
  intros Hb. revert acc. induction l as [|x l IH]; intros acc.
  - apply Preserving_ret.
  - apply Preserving_bind; [apply Hb|]. intros acc'. apply IH.
Qed.

End StoreProperties.

(** ** The retry loop: what it leaves alone, and what it lets through *)

Section LoopFrame.
Context {W : Type}.
Variable command : string → M W unit.
Implicit Types (s : state W) (errors : gmap string (gset string)).

Local Abbreviation Preserving := (@Preserving W _).

Lemma Preserving_loop_body copy_list file errors :
  Preserving copy_list (loop_body command copy_list file errors).
Proof.
  apply Preserving_try_except; [|intros e; apply Preserving_ret].
  apply Preserving_bind; [apply Preserving_liftW|]. intros _.
  apply Preserving_bind; [apply Preserving_list_remove|]. intros _.
  apply Preserving_ret.
Qed.

Lemma Preserving_rounds n copy_list copy_list_loop errors :
  Preserving copy_list (rounds command n copy_list copy_list_loop errors).
Proof.
  revert copy_list_loop errors.
  induction n as [|n IH]; intros copy_list_loop errors; cbn [rounds].
  - apply Preserving_ret.
  - apply Preserving_bind; [apply Preserving_read|]. intros files.
    apply Preserving_bind.
    { apply Preserving_for_each. intros. apply Preserving_loop_body. }
    intros errors'.
    apply Preserving_bind; [apply Preserving_list_copy|]. intros q.
    apply IH.
Qed.

(** C9: whatever the command does and however the call ends, the list
    object passed as [file_list] holds after the call the elements it
    held before, in the same order: the loop writes to its copies only. *)
Theorem sql_file_loop_keeps_file_list file_list max_loop s files :
  heap s !! file_list = Some files →
  heap (sql_file_loop command file_list max_loop s).2 !! file_list
    = Some files.
Proof.
  intros Hfiles. unfold sql_file_loop.
  rewrite (bind_Ok _ _ _ _ _ (list_copy_run file_list s)).
  set (copy_list := fresh (dom (heap s))).
  match goal with |- heap (?m ?s1).2 !! _ = _ =>
    assert (Hrest : Preserving copy_list m)
  end.
  { apply Preserving_bind; [apply Preserving_list_copy|]. intros q.
    apply Preserving_bind; [apply Preserving_rounds|]. intros errors.
    apply Preserving_bind; [apply Preserving_read|]. intros remaining.
    case_decide; apply Preserving_ret. }
  apply Hrest.
  - by apply fresh_ne with files.
  - cbn. rewrite lookup_insert_ne; [done|].
    intros Heq. by eapply fresh_ne.
Qed.

End LoopFrame.


(** ** Dicts *)

Section DictProperties.
Context {V : Type}.
Implicit Types (d : pydict V) (k f : string) (v x : V).

Lemma dict_set_keys k v d f :
  f ∈ dict_keys (dict_set k v d) ↔ f = k ∨ f ∈ dict_keys d.
Proof.
  unfold dict_keys. induction d as [|[k' v'] d IH]; cbn.
  - rewrite list_elem_of_singleton, elem_of_nil. tauto.
  - case_decide as Hk; cbn; rewrite !elem_of_cons.
    + subst k'. tauto.
    + rewrite IH. tauto.
Qed.

Lemma dict_set_NoDup k v d :
  NoDup (dict_keys d) → NoDup (dict_keys (dict_set k v d)).
Proof.
  unfold dict_keys. induction d as [|[k' v'] d IH]; cbn.
  - intros _. apply NoDup_singleton.
  - intros [Hk' Hd]%NoDup_cons. case_decide as Hk; cbn.
    + subst k'. by apply NoDup_cons.
    + apply NoDup_cons. split; [|by apply IH].
      intros [->|Hin]%dict_set_keys; [done|by apply Hk'].
Qed.

Lemma dict_set_elem k v d f x :
  (f, x) ∈ dict_set k v d → (f = k ∧ x = v) ∨ (f, x) ∈ d.
Proof.
  induction d as [|[k' v'] d IH]; cbn.
  - intros [= -> ->]%list_elem_of_singleton. by left.
  - case_decide as Hk.
    + intros [[= -> ->]|Hin]%elem_of_cons; [by left|].
      right. by apply elem_of_cons; right.
    + intros [Heq|Hin]%elem_of_cons.
      * right. rewrite Heq. by apply elem_of_cons; left.
      * destruct (IH Hin) as [?|?]; [by left|].
        right. by apply elem_of_cons; right.
Qed.

End DictProperties.

(** ** The retry loop on a command that fails on given items *)

Section LoopFailing.
Context {W : Type}.
Variable command : string → M W unit.
Variable F : gset string.
Implicit Types (s : state W) (errors : gmap string (gset string))
               (f g x : string) (L P T : list string).

Lemma errors_get_add f x errors g :
  errors_get (errors_add f x errors) g
  = if decide (g = f) then errors_get errors f ∪ {[x]} else errors_get errors g.
Proof.
  unfold errors_add, errors_get at 1. case_decide as Hg.
  - subst g. by rewrite lookup_insert_eq.
  - by rewrite lookup_insert_ne.
Qed.

Lemma failed_dict_spec errors L :
  NoDup (dict_keys (failed_dict errors L))
  ∧ (∀ f, f ∈ dict_keys (failed_dict errors L) ↔ f ∈ L)
  ∧ (∀ f errs, (f, errs) ∈ failed_dict errors L →
               errs = elements (errors_get errors f)).
Proof.
  unfold failed_dict.
  cut (∀ d0 : pydict (list string),
         NoDup (dict_keys d0) →
         (∀ f errs, (f, errs) ∈ d0 → errs = elements (errors_get errors f)) →
         let d := foldl (λ d f, dict_set f (elements (errors_get errors f)) d)
                        d0 L in
         NoDup (dict_keys d)
         ∧ (∀ f, f ∈ dict_keys d ↔ f ∈ dict_keys d0 ∨ f ∈ L)
         ∧ (∀ f errs, (f, errs) ∈ d → errs = elements (errors_get errors f))).
  { intros Hgen.
    destruct (Hgen [] (NoDup_nil_2 : NoDup (dict_keys []))) as (Hnd & Hk & He).
    - by intros f errs ?%elem_of_nil.
    - split; [done|]. split; [|done].
      intros f. rewrite Hk. unfold dict_keys; cbn. rewrite elem_of_nil. tauto. }
  induction L as [|g L IH]; intros d0 Hnd He; cbn.
  - split; [done|]. split; [|done]. intros f. rewrite elem_of_nil. tauto.
  - destruct (IH (dict_set g (elements (errors_get errors g)) d0))
      as (Hnd' & Hk' & He').
    + by apply dict_set_NoDup.
    + intros f errs [[-> ->]|Hin]%dict_set_elem; [done|by apply He].
    + split; [done|]. split; [|done].
      intros f. rewrite Hk', dict_set_keys, elem_of_cons. tauto.
Qed.

Lemma remove_first_middle x L1 L2 :
  x ∉ L1 → remove_first x (L1 ++ x :: L2) = Some (L1 ++ L2).
Proof.
  induction L1 as [|y L1 IH]; cbn; intros Hx.
  - by rewrite decide_True.
  - apply not_elem_of_cons in Hx as [Hxy Hx].
    rewrite decide_False by done. by rewrite IH.
Qed.

Lemma filter_failing_idemp L : filter (.∈ F) (filter (.∈ F) L) = filter (.∈ F) L.
Proof.
  induction L as [|f L IH]; [done|].
  rewrite filter_cons. case_decide as Hf; [|done].
  rewrite filter_cons, decide_True by done. by rewrite IH.
Qed.

Lemma occurrences_cons f g L :
  occurrences f (g :: L) = (if decide (g = f) then 1 else 0) + occurrences f L.
Proof.
  unfold occurrences. rewrite filter_cons. by case_decide.
Qed.

Lemma occurrences_filter_le f L :
  occurrences f (filter (.∈ F) L) ≤ occurrences f L.
Proof.
  induction L as [|g L IH]; [done|].
  rewrite filter_cons, (occurrences_cons f g L).
  case_decide; [rewrite occurrences_cons|]; lia.
Qed.

Lemma fails_exactly_on_sub L L' :
  fails_exactly_on command F L → (∀ f, f ∈ L' → f ∈ L) →
  fails_exactly_on command F L'.
Proof. intros HL Hsub f Hf. by apply HL, Hsub. Qed.

Lemma loop_body_raises copy_list f errors s e w' :
  command f (world s) = (Raise e, w') → is_Exception e = true →
  loop_body command copy_list f errors s
  = (Ok (errors_add f (separator +:+ exn_str e) errors), State (heap s) w').
Proof.
  intros Hc He. unfold loop_body, try_except_Exception.
  erewrite bind_Raise; [|unfold liftW; by rewrite Hc].
  by rewrite He.
Qed.

Lemma loop_body_returns copy_list f errors s w' cur cur' :
  command f (world s) = (Ok tt, w') →
  heap s !! copy_list = Some cur → remove_first f cur = Some cur' →
  loop_body command copy_list f errors s
  = (Ok errors, State (<[copy_list := cur']> (heap s)) w').
Proof.
  intros Hc Hcur Hrm. unfold loop_body, try_except_Exception.
  erewrite bind_Ok; [|unfold liftW; by rewrite Hc].
  unfold list_remove, read, bind; cbn [heap world].
  by rewrite Hcur; cbn; rewrite Hrm.
Qed.

(** One round: the items that fail stay, each with one more recorded
    error string at most per occurrence; the others leave [copy_list]. *)
Lemma inner_loop_failing copy_list T : ∀ P errors s,
  fails_exactly_on command F T →
  heap s !! copy_list = Some (filter (.∈ F) P ++ T) →
  ∃ errors' s',
    for_each T (loop_body command copy_list) errors s = (Ok errors', s')
    ∧ heap s' = <[copy_list := filter (.∈ F) (P ++ T)]> (heap s)
    ∧ ∀ f,
        errors_get errors f ⊆ errors_get errors' f
        ∧ size (errors_get errors' f)
          ≤ size (errors_get errors f) + occurrences f T
        ∧ (f ∈ T → f ∈ F → ∃ x, x ∈ errors_get errors' f)
        ∧ (∀ x, x ∈ errors_get errors' f →
                x ∈ errors_get errors f ∨ error_string_of command f x).
Proof.
  induction T as [|g T IH]; intros P errors s Hcmd Hcur; cbn [for_each].
  - exists errors, s. split; [done|]. split.
    + rewrite app_nil_r in *. by rewrite insert_id.
    + intros f. split; [done|]. split; [lia|]. split; [|by left].
      by intros ?%elem_of_nil.
  - assert (HcmdT : fails_exactly_on command F T).
    { apply (fails_exactly_on_sub (g :: T)); [done|].
      intros f Hf. by apply elem_of_cons; right. }
    pose proof (Hcmd g (list_elem_of_here _ _) (world s)) as Hg.
    destruct (decide (g ∈ F)) as [HgF|HgF].
    + destruct Hg as (e & w' & Hc & He).
      rewrite (bind_Ok _ _ _ _ _ (loop_body_raises _ _ _ _ _ _ Hc He)).
      set (x0 := separator +:+ exn_str e).
      destruct (IH (P ++ [g]) (errors_add g x0 errors) (State (heap s) w') HcmdT)
        as (errors' & s' & Hrun & Hheap & Herr).
      { cbn [heap]. rewrite Hcur, filter_app, filter_cons_True by done.
        by rewrite <- app_assoc. }
      exists errors', s'. split; [done|]. split.
      { rewrite Hheap. cbn [heap]. by rewrite <- app_assoc. }
      intros f. destruct (Herr f) as (Hsub & Hsize & Hne & Horig).
      rewrite errors_get_add in Hsub, Hsize, Horig.
      rewrite occurrences_cons.
      destruct (decide (f = g)) as [->|Hfg].
      * rewrite decide_True by done.
        split; [by etrans; [apply union_subseteq_l|]|]. split.
        { assert (size (errors_get errors g ∪ {[x0]})
                  ≤ size (errors_get errors g) + 1) as Hone; [|lia].
          rewrite size_union_alt.
          assert (size ({[x0]} ∖ errors_get errors g) ≤ 1); [|lia].
          etrans; [by apply (subseteq_size _ {[x0]}), subseteq_difference_l|].
          by rewrite size_singleton. }
        split.
        { intros _ _. exists x0. apply Hsub, elem_of_union. right.
          by apply elem_of_singleton. }
        intros x [[Hx|Hx]%elem_of_union|Hx]%Horig; [by left| |by right].
        right. apply elem_of_singleton in Hx as ->.
        by exists (world s), e, w'.
      * rewrite decide_False by done.
        split; [done|]. split; [lia|]. split; [|done].
        intros [?|Hf]%elem_of_cons; [done|]. by apply Hne.
    + destruct Hg as (w' & Hc).
      assert (Hrm : remove_first g (filter (.∈ F) P ++ g :: T)
                    = Some (filter (.∈ F) P ++ T)).
      { apply remove_first_middle. by intros [? _]%list_elem_of_filter. }
      rewrite (bind_Ok _ _ _ _ _ (loop_body_returns _ _ _ _ _ _ _ Hc Hcur Hrm)).
      destruct (IH (P ++ [g]) errors
                  (State (<[copy_list := filter (.∈ F) P ++ T]> (heap s)) w')
                  HcmdT)
        as (errors' & s' & Hrun & Hheap & Herr).
      { cbn [heap]. rewrite lookup_insert_eq, filter_app.
        rewrite (filter_cons_False _ g) by done.
        by rewrite filter_nil, app_nil_r. }
      exists errors', s'. split; [done|]. split.
      { rewrite Hheap. cbn [heap]. by rewrite insert_insert_eq, <- app_assoc. }
      intros f. destruct (Herr f) as (Hsub & Hsize & Hne & Horig).
      rewrite occurrences_cons.
      split; [done|]. split; [lia|]. split; [|done].
      intros [->|Hf]%elem_of_cons; [done|]. by apply Hne.
Qed.

(** [n] rounds, started with [copy_list] and [copy_list_loop] holding
    the same items [L]. *)
Lemma rounds_failing n : ∀ copy_list copy_list_loop errors s L,
  fails_exactly_on command F L →
  copy_list ≠ copy_list_loop →
  heap s !! copy_list = Some L →
  heap s !! copy_list_loop = Some L →
  ∃ errors' s',
    rounds command n copy_list copy_list_loop errors s = (Ok errors', s')
    ∧ heap s' !! copy_list
      = Some (match n with O => L | S _ => filter (.∈ F) L end)
    ∧ ∀ f,
        errors_get errors f ⊆ errors_get errors' f
        ∧ size (errors_get errors' f)
          ≤ size (errors_get errors f) + n * occurrences f L
        ∧ (0 < n → f ∈ L → f ∈ F → ∃ x, x ∈ errors_get errors' f)
        ∧ (∀ x, x ∈ errors_get errors' f →
                x ∈ errors_get errors f ∨ error_string_of command f x).
Proof.
  induction n as [|n IH];
    intros copy_list copy_list_loop errors s L Hcmd Hne Hcl Hcll;
    cbn [rounds].
  - exists errors, s. split; [done|]. split; [done|].
    intros f. split; [done|]. split; [lia|]. split; [lia|by left].
  - unfold read at 1. unfold bind at 1. rewrite Hcll. cbn [default].
    destruct (inner_loop_failing copy_list L [] errors s Hcmd Hcl)
      as (errors1 & s1 & Hrun1 & Hheap1 & Herr1).
    rewrite (bind_Ok _ _ _ _ _ Hrun1).
    rewrite (bind_Ok _ _ _ _ _ (list_copy_run copy_list s1)).
    cbn [app] in Hheap1.
    assert (Hcl1 : heap s1 !! copy_list = Some (filter (.∈ F) L)).
    { by rewrite Hheap1, lookup_insert_eq. }
    rewrite Hcl1. cbn [default].
    set (q := fresh (dom (heap s1))).
    destruct (IH copy_list q errors1
                (State (<[q := filter (.∈ F) L]> (heap s1)) (world s1))
                (filter (.∈ F) L))
      as (errors' & s' & Hrun & Hheap & Herr).
    { apply (fails_exactly_on_sub L); [done|].
      by intros f [_ ?]%list_elem_of_filter. }
    { by apply fresh_ne with (filter (.∈ F) L). }
    { cbn [heap]. rewrite lookup_insert_ne; [done|].
      intros Heq. by eapply (fresh_ne s1). }
    { cbn [heap]. by rewrite lookup_insert_eq. }
    exists errors', s'. split; [done|]. split.
    { rewrite Hheap. destruct n; [done|]. by rewrite filter_failing_idemp. }
    intros f.
    destruct (Herr1 f) as (Hsub1 & Hsize1 & Hne1 & Horig1).
    destruct (Herr f) as (Hsub & Hsize & _ & Horig).
    pose proof (occurrences_filter_le f L) as Hocc.
    split; [by etrans|]. split; [nia|]. split.
    + intros _ HfL HfF. destruct (Hne1 HfL HfF) as [x Hx].
      exists x. by apply Hsub.
    + intros x [Hx|Hx]%Horig; [by apply Horig1|by right].
Qed.

Lemma return_failed errors L s :
  (if decide (0 < length L)
   then ret (failed_dict errors L)
   else ret []) s = (Ok (failed_dict errors L), s).
Proof. destruct L; [done|]. by rewrite decide_True by (cbn; lia). Qed.

(** *** The calls of the run *)

Lemma call_each_app (A B : list string) (w : W) :
  call_each command (A ++ B) w
  = ((call_each command A w).1
       ++ (call_each command B (call_each command A w).2).1,
     (call_each command B (call_each command A w).2).2).
Proof.
  revert w. induction A as [|f A IH]; intros w;
    cbn [app call_each fst snd].
  - by destruct (call_each command B w).
  - by rewrite IH.
Qed.

Lemma failure_texts_app f (h1 h2 : list (string * result unit)) :
  failure_texts f (h1 ++ h2) = failure_texts f h1 ++ failure_texts f h2.
Proof. apply omap_app. Qed.

Lemma attempts_S L n :
  attempts F L (S n) = L ++ attempts F (filter (.∈ F) L) n.
Proof.
  destruct n as [|n]; [done|].
  cbn [attempts replicate mjoin list_join]. by rewrite filter_failing_idemp.
Qed.

Lemma occurrences_app f L1 L2 :
  occurrences f (L1 ++ L2) = occurrences f L1 + occurrences f L2.
Proof. unfold occurrences. by rewrite filter_app, length_app. Qed.

Lemma occurrences_filter_failing f L :
  f ∈ F → occurrences f (filter (.∈ F) L) = occurrences f L.
Proof.
  intros Hf. induction L as [|g L IH]; [done|].
  rewrite filter_cons, (occurrences_cons f g L).
  destruct (decide (g = f)) as [->|Hg].
  - rewrite decide_True by done. rewrite occurrences_cons, decide_True by done.
    by rewrite IH.
  - case_decide; [rewrite occurrences_cons, decide_False by done|]; by rewrite IH.
Qed.

Lemma occurrences_mjoin_replicate f L m :
  occurrences f (mjoin (replicate m L)) = m * occurrences f L.
Proof.
  induction m as [|m IH]; [done|].
  change (mjoin (replicate (S m) L)) with (L ++ mjoin (replicate m L)).
  rewrite occurrences_app, IH. lia.
Qed.

(** A failing item is tried once in each round for each of its
    occurrences. *)
Lemma occurrences_attempts f L n :
  f ∈ F → occurrences f (attempts F L n) = n * occurrences f L.
Proof.
  intros Hf. destruct n as [|m]; [done|]. cbn [attempts].
  rewrite occurrences_app, occurrences_mjoin_replicate.
  rewrite occurrences_filter_failing by done. lia.
Qed.

Lemma elem_of_attempts f L n : f ∈ attempts F L n → f ∈ L.
Proof.
  destruct n as [|m]; [by intros ?%elem_of_nil|]. cbn [attempts].
  intros [?|Hin]%elem_of_app; [done|].
  induction m as [|m IH]; [by apply elem_of_nil in Hin|].
  change (mjoin (replicate (S m) (filter (.∈ F) L)))
    with (filter (.∈ F) L ++ mjoin (replicate m (filter (.∈ F) L))) in Hin.
  apply elem_of_app in Hin as [Hin|Hin]; [|by apply IH].
  by apply list_elem_of_filter in Hin as [_ ?].
Qed.

(** Every call on a failing item adds an entry to the history. *)
Lemma failure_texts_length f T : ∀ w,
  fails_exactly_on command F T → f ∈ F →
  length (failure_texts f (call_each command T w).1) = occurrences f T.
Proof.
  induction T as [|g T IH]; intros w Hcmd Hf; [done|].
  assert (HcmdT : fails_exactly_on command F T).
  { apply (fails_exactly_on_sub (g :: T)); [done|].
    intros h Hh. by apply elem_of_cons; right. }
  cbn [call_each fst]. unfold failure_texts. cbn [omap list_omap].
  fold (failure_texts f (call_each command T (command g w).2).1).
  rewrite occurrences_cons. cbn [fst snd].
  pose proof (Hcmd g (list_elem_of_here _ _) w) as Hg.
  destruct (decide (g = f)) as [->|Hgf].
  - rewrite decide_True in Hg by done. destruct Hg as (e & w' & -> & _).
    cbn [fst snd length]. by rewrite IH.
  - destruct (command g w) as [[[]|e] w']; cbn [fst snd]; by rewrite IH.
Qed.

(** In [n] rounds a failing item fails [n] times for each of its
    occurrences. *)
Lemma failure_texts_attempts f L n w :
  fails_exactly_on command F L → f ∈ F →
  length (failure_texts f (call_each command (attempts F L n) w).1)
  = n * occurrences f L.
Proof.
  intros Hcmd Hf.
  assert (Hsub : fails_exactly_on command F (attempts F L n)).
  { intros g Hg. apply Hcmd. by eapply elem_of_attempts. }
  rewrite (failure_texts_length f _ _ Hsub Hf).
  by apply occurrences_attempts.
Qed.

(** One round, with the calls it makes. *)
Lemma inner_loop_trace copy_list T : ∀ P errors s,
  fails_exactly_on command F T →
  heap s !! copy_list = Some (filter (.∈ F) P ++ T) →
  ∃ errors' s',
    for_each T (loop_body command copy_list) errors s = (Ok errors', s')
    ∧ heap s' = <[copy_list := filter (.∈ F) (P ++ T)]> (heap s)
    ∧ world s' = (call_each command T (world s)).2
    ∧ ∀ f, errors_get errors' f
           = errors_get errors f
             ∪ list_to_set (failure_texts f (call_each command T (world s)).1).
Proof.
  induction T as [|g T IH]; intros P errors s Hcmd Hcur; cbn [for_each].
  - exists errors, s. split; [done|]. split.
    + rewrite app_nil_r in *. by rewrite insert_id.
    + split; [done|]. intros f. cbn. by rewrite (right_id_L ∅ (∪)).
  - assert (HcmdT : fails_exactly_on command F T).
    { apply (fails_exactly_on_sub (g :: T)); [done|].
      intros f Hf. by apply elem_of_cons; right. }
    pose proof (Hcmd g (list_elem_of_here _ _) (world s)) as Hg.
    cbn [call_each fst snd].
    destruct (decide (g ∈ F)) as [HgF|HgF].
    + destruct Hg as (e & w' & Hc & He).
      rewrite (bind_Ok _ _ _ _ _ (loop_body_raises _ _ _ _ _ _ Hc He)).
      set (x0 := separator +:+ exn_str e).
      destruct (IH (P ++ [g]) (errors_add g x0 errors) (State (heap s) w') HcmdT)
        as (errors' & s' & Hrun & Hheap & Hworld & Herr).
      { cbn [heap]. rewrite Hcur, filter_app, filter_cons_True by done.
        by rewrite <- app_assoc. }
      exists errors', s'. split; [done|]. split.
      { rewrite Hheap. cbn [heap]. by rewrite <- app_assoc. }
      rewrite Hc. cbn [fst snd world] in *. split; [done|].
      intros f. rewrite Herr, errors_get_add.
      unfold failure_texts at 2. cbn [omap list_omap fst snd].
      fold (failure_texts f (call_each command T w').1).
      destruct (decide (f = g)) as [->|Hfg].
      * rewrite decide_True by done. fold x0.
        by rewrite list_to_set_cons, (assoc_L (∪)).
      * rewrite decide_False by done. done.
    + destruct Hg as (w' & Hc).
      assert (Hrm : remove_first g (filter (.∈ F) P ++ g :: T)
                    = Some (filter (.∈ F) P ++ T)).
      { apply remove_first_middle. by intros [? _]%list_elem_of_filter. }
      rewrite (bind_Ok _ _ _ _ _ (loop_body_returns _ _ _ _ _ _ _ Hc Hcur Hrm)).
      destruct (IH (P ++ [g]) errors
                  (State (<[copy_list := filter (.∈ F) P ++ T]> (heap s)) w')
                  HcmdT)
        as (errors' & s' & Hrun & Hheap & Hworld & Herr).
      { cbn [heap]. rewrite lookup_insert_eq, filter_app.
        rewrite (filter_cons_False _ g) by done.
        by rewrite filter_nil, app_nil_r. }
      exists errors', s'. split; [done|]. split.
      { rewrite Hheap. cbn [heap]. by rewrite insert_insert_eq, <- app_assoc. }
      rewrite Hc. cbn [fst snd world] in *. split; [done|].
      intros f. rewrite Herr.
      unfold failure_texts at 2. cbn [omap list_omap fst snd]. done.
Qed.

(** [n] rounds, with the calls they make. *)
Lemma rounds_trace n : ∀ copy_list copy_list_loop errors s L,
  fails_exactly_on command F L →
  copy_list ≠ copy_list_loop →
  heap s !! copy_list = Some L →
  heap s !! copy_list_loop = Some L →
  ∃ errors' s',
    rounds command n copy_list copy_list_loop errors s = (Ok errors', s')
    ∧ heap s' !! copy_list
      = Some (match n with O => L | S _ => filter (.∈ F) L end)
    ∧ world s' = (call_each command (attempts F L n) (world s)).2
    ∧ ∀ f, errors_get errors' f
           = errors_get errors f
             ∪ list_to_set
                 (failure_texts f
                    (call_each command (attempts F L n) (world s)).1).
Proof.
  induction n as [|n IH];
    intros copy_list copy_list_loop errors s L Hcmd Hne Hcl Hcll;
    cbn [rounds].
  - exists errors, s. split; [done|]. split; [done|]. split; [done|].
    intros f. cbn. by rewrite (right_id_L ∅ (∪)).
  - unfold read at 1. unfold bind at 1. rewrite Hcll. cbn [default].
    destruct (inner_loop_trace copy_list L [] errors s Hcmd Hcl)
      as (errors1 & s1 & Hrun1 & Hheap1 & Hworld1 & Herr1).
    rewrite (bind_Ok _ _ _ _ _ Hrun1).
    rewrite (bind_Ok _ _ _ _ _ (list_copy_run copy_list s1)).
    cbn [app] in Hheap1.
    assert (Hcl1 : heap s1 !! copy_list = Some (filter (.∈ F) L)).
    { by rewrite Hheap1, lookup_insert_eq. }
    rewrite Hcl1. cbn [default].
    set (q := fresh (dom (heap s1))).
    destruct (IH copy_list q errors1
                (State (<[q := filter (.∈ F) L]> (heap s1)) (world s1))
                (filter (.∈ F) L))
      as (errors' & s' & Hrun & Hheap & Hworld & Herr).
    { apply (fails_exactly_on_sub L); [done|].
      by intros f [_ ?]%list_elem_of_filter. }
    { by apply fresh_ne with (filter (.∈ F) L). }
    { cbn [heap]. rewrite lookup_insert_ne; [done|].
      intros Heq. by eapply (fresh_ne s1). }
    { cbn [heap]. by rewrite lookup_insert_eq. }
    exists errors', s'. split; [done|]. split.
    { rewrite Hheap. destruct n; [done|]. by rewrite filter_failing_idemp. }
    cbn [world] in Hworld, Herr.
    rewrite attempts_S, call_each_app. cbn [fst snd].
    rewrite <- Hworld1. split; [done|].
    intros f. rewrite Herr, Herr1, failure_texts_app, list_to_set_app_L.
    by rewrite (assoc_L (∪)).
Qed.

(** The whole loop, with the calls it makes: the world it leaves is the
    one the calls leave, the keys are the failing items, and the value of
    a key lists the error strings of the failures on it, each string
    once. *)
Lemma sql_file_loop_trace file_list files max_loop s :
  heap s !! file_list = Some files →
  fails_exactly_on command F files →
  ∃ failed s',
    sql_file_loop command file_list max_loop s = (Ok failed, s')
    ∧ world s'
      = (call_each command
           (attempts F files (Z.to_nat (default 10%Z max_loop))) (world s)).2
    ∧ ∀ f errs, (f, errs) ∈ failed →
        errs ≡ₚ remove_dups
                  (failure_texts f
                     (call_each command
                        (attempts F files (Z.to_nat (default 10%Z max_loop)))
                        (world s)).1).
Proof.
  intros Hfiles Hcmd. unfold sql_file_loop.
  rewrite (bind_Ok _ _ _ _ _ (list_copy_run file_list s)).
  rewrite Hfiles. cbn [default from_option id].
  set (copy_list := fresh (dom (heap s))).
  set (s1 := State (<[copy_list := files]> (heap s)) (world s)).
  rewrite (bind_Ok _ _ _ _ _ (list_copy_run copy_list s1)).
  assert (Hcl1 : heap s1 !! copy_list = Some files).
  { subst s1. cbn [heap]. by rewrite lookup_insert_eq. }
  rewrite Hcl1. cbn [default from_option id].
  set (copy_list_loop := fresh (dom (heap s1))).
  set (s2 := State (<[copy_list_loop := files]> (heap s1)) (world s1)).
  set (n := Z.to_nat (default 10%Z max_loop)).
  destruct (rounds_trace n copy_list copy_list_loop ∅ s2 files)
    as (errors & s3 & Hrun & Hheap & Hworld & Herr); [done| | | |].
  { by apply fresh_ne with files. }
  { subst s2. cbn [heap]. rewrite lookup_insert_ne; [done|].
    intros Heq. by eapply (fresh_ne s1). }
  { subst s2. cbn [heap]. by rewrite lookup_insert_eq. }
  rewrite (bind_Ok _ _ _ _ _ Hrun).
  unfold read at 1. unfold bind at 1. rewrite Hheap.
  cbn [default from_option id].
  set (remaining := match n with O => files | S _ => filter (.∈ F) files end).
  rewrite return_failed.
  eexists _, _. split; [reflexivity|]. split; [exact Hworld|].
  intros f errs Hin.
  destruct (failed_dict_spec errors remaining) as (_ & _ & Hvals).
  rewrite (Hvals _ _ Hin), Herr.
  unfold errors_get at 1. rewrite lookup_empty. cbn [default from_option id].
  rewrite (left_id_L ∅ (∪)).
  apply NoDup_Permutation.
  - apply NoDup_elements.
  - apply NoDup_remove_dups.
  - intros x. by rewrite elem_of_elements, elem_of_list_to_set,
      elem_of_remove_dups.
Qed.

(** Bounds on what is returned for the items that fail. *)
Lemma sql_file_loop_failing_bounds file_list files max_loop s :
  heap s !! file_list = Some files →
  fails_exactly_on command F files →
  (1 ≤ max_loop)%Z →
  ∃ failed s',
    sql_file_loop command file_list (Some max_loop) s = (Ok failed, s')
    ∧ NoDup (dict_keys failed)
    ∧ (∀ f, f ∈ dict_keys failed ↔ f ∈ files ∧ f ∈ F)
    ∧ ∀ f errs, (f, errs) ∈ failed →
        NoDup errs
        ∧ 1 ≤ length errs ≤ Z.to_nat max_loop * occurrences f files
        ∧ (∀ x, x ∈ errs → error_string_of command f x)
        ∧ ((∀ x y, error_string_of command f x →
                   error_string_of command f y → x = y) →
           length errs = 1).
Proof.
  intros Hfiles Hcmd Hmax. unfold sql_file_loop.
  rewrite (bind_Ok _ _ _ _ _ (list_copy_run file_list s)).
  rewrite Hfiles. cbn [default from_option id].
  set (copy_list := fresh (dom (heap s))).
  set (s1 := State (<[copy_list := files]> (heap s)) (world s)).
  rewrite (bind_Ok _ _ _ _ _ (list_copy_run copy_list s1)).
  assert (Hcl1 : heap s1 !! copy_list = Some files).
  { subst s1. cbn [heap]. by rewrite lookup_insert_eq. }
  rewrite Hcl1. cbn [default from_option id].
  set (copy_list_loop := fresh (dom (heap s1))).
  set (s2 := State (<[copy_list_loop := files]> (heap s1)) (world s1)).
  cbn [default from_option id]. destruct (Z.to_nat max_loop) as [|n] eqn:Hn; [lia|].
  destruct (rounds_failing (S n) copy_list copy_list_loop ∅ s2 files)
    as (errors & s3 & Hrun & Hheap & Herr); [done| | | |].
  { by apply fresh_ne with files. }
  { subst s2. cbn [heap]. rewrite lookup_insert_ne; [done|].
    intros Heq. by eapply (fresh_ne s1). }
  { subst s2. cbn [heap]. by rewrite lookup_insert_eq. }
  rewrite (bind_Ok _ _ _ _ _ Hrun).
  unfold read at 1. unfold bind at 1. rewrite Hheap. cbn [default from_option id].
  rewrite return_failed.
  destruct (failed_dict_spec errors (filter (.∈ F) files))
    as (Hnd & Hkeys & Hvals).
  eexists _, _. split; [reflexivity|]. split; [done|]. split.
  { intros f. rewrite Hkeys, list_elem_of_filter. tauto. }
  intros f errs Hin.
  assert (Hf : f ∈ filter (.∈ F) files).
  { apply Hkeys. unfold dict_keys. apply list_elem_of_fmap.
    by exists (f, errs). }
  apply list_elem_of_filter in Hf as [HfF Hf].
  rewrite (Hvals _ _ Hin).
  destruct (Herr f) as (_ & Hsize & Hne & Horig).
  assert (Hlen : 1 ≤ length (elements (errors_get errors f))
                   ≤ S n * occurrences f files).
  { change (length (elements (errors_get errors f)))
      with (size (errors_get errors f)).
    split.
    - destruct (Hne ltac:(lia) Hf HfF) as [x Hx].
      assert (size (errors_get errors f) ≠ 0); [|lia].
      intros Hz%size_empty_iff. apply (not_elem_of_empty (C:=gset string) x).
      by rewrite <- Hz.
    - etrans; [apply Hsize|]. unfold errors_get at 1.
      rewrite lookup_empty. cbn [default from_option id].
      by rewrite size_empty. }
  assert (Hfrom : ∀ x, x ∈ elements (errors_get errors f) →
                       error_string_of command f x).
  { intros x Hx%elem_of_elements.
    destruct (Horig x Hx) as [Hx0|?]; [|done].
    unfold errors_get in Hx0. rewrite lookup_empty in Hx0.
    by apply not_elem_of_empty in Hx0. }
  pose proof (NoDup_elements (errors_get errors f)) as Hnodup.
  split; [done|]. split; [done|]. split; [done|].
  intros Hsame.
  destruct (elements (errors_get errors f)) as [|x [|y errs']];
    cbn [length] in *; [lia|done|].
  apply NoDup_cons in Hnodup as [Hx _]. exfalso. apply Hx.
  rewrite (Hsame x y); [apply list_elem_of_here| |].
  - apply Hfrom, list_elem_of_here.
  - apply Hfrom, list_elem_of_further, list_elem_of_here.
Qed.

(** C1 (as the code has it): on a command that fails on the items in [F]
    every time and returns on the others, with a round bound of at least
    one, [sql_file_loop] makes the calls of [max_loop] rounds, every item
    in the first round and the failing items in each later one, and
    returns a dict whose keys are the listed items that fail, each once.
    The value of a key is the history of the failures on that item, the
    separator followed by the text of the exception for each of the
    [max_loop] failures per occurrence of the item, with one change: the
    errors are kept in a set, so that a text met before adds no entry and
    the list comes in the order of the set, not of the rounds.  It has
    [max_loop] entries per occurrence when the texts all differ, and one
    entry when the command fails on the item with the same text every
    time. *)
Theorem sql_file_loop_failing_items file_list files max_loop s :
  heap s !! file_list = Some files →
  fails_exactly_on command F files →
  (1 ≤ max_loop)%Z →
  let run :=
    call_each command (attempts F files (Z.to_nat max_loop)) (world s) in
  ∃ failed s',
    sql_file_loop command file_list (Some max_loop) s = (Ok failed, s')
    ∧ world s' = run.2
    ∧ NoDup (dict_keys failed)
    ∧ (∀ f, f ∈ dict_keys failed ↔ f ∈ files ∧ f ∈ F)
    ∧ ∀ f errs, (f, errs) ∈ failed →
        errs ≡ₚ remove_dups (failure_texts f run.1)
        ∧ length (failure_texts f run.1)
          = Z.to_nat max_loop * occurrences f files
        ∧ (NoDup (failure_texts f run.1) →
           length errs = Z.to_nat max_loop * occurrences f files)
        ∧ NoDup errs
        ∧ 1 ≤ length errs ≤ Z.to_nat max_loop * occurrences f files
        ∧ (∀ x, x ∈ errs → error_string_of command f x)
        ∧ ((∀ x y, error_string_of command f x →
                   error_string_of command f y → x = y) →
           length errs = 1).
Proof.
  intros Hfiles Hcmd Hmax run.
  destruct (sql_file_loop_failing_bounds file_list files max_loop s
              Hfiles Hcmd Hmax)
    as (failed & s' & Hrun & Hnd & Hkeys & Hvals).
  destruct (sql_file_loop_trace file_list files (Some max_loop) s
              Hfiles Hcmd)
    as (failed' & s'' & Hrun' & Hworld & Hhist).
  rewrite Hrun in Hrun'. injection Hrun' as <- <-.
  cbn [default from_option id] in Hworld, Hhist. fold run in Hworld, Hhist.
  exists failed, s'. split; [done|]. split; [done|]. split; [done|].
  split; [done|]. intros f errs Hin.
  assert (HfF : f ∈ F).
  { apply (Hkeys f). unfold dict_keys. apply list_elem_of_fmap.
    by exists (f, errs). }
  assert (Hlen : length (failure_texts f run.1)
                 = Z.to_nat max_loop * occurrences f files).
  { subst run. by apply failure_texts_attempts. }
  split; [by apply Hhist|]. split; [done|]. split; [|by apply Hvals].
  intros Hdistinct. rewrite <- Hlen.
  apply Permutation_length. etrans; [by apply Hhist|].
  apply NoDup_Permutation; [apply NoDup_remove_dups|done|].
  intros x. apply elem_of_remove_dups.
Qed.

End LoopFailing.

(** ** The retry loop on any command: the rounds it runs *)

Section LoopRetry.
Context {W : Type}.
Variable command : string → M W unit.
Implicit Types (s : state W) (errors : gmap string (gset string))
               (f g x : string) (L T kept : list string).

Lemma failed_items_sublist T w :
  failed_items (call_each command T w).1 `sublist_of` T.
Proof.
  revert w. induction T as [|g T IH]; intros w; [done|].
  cbn [call_each fst]. unfold failed_items. cbn [omap list_omap fst snd].
  fold (failed_items (call_each command T (command g w).2).1).
  destruct (command g w).1; [by apply sublist_cons|by apply sublist_skip].
Qed.

(** One round on a list without repetition: the items on which the
    command fails are those left in [copy_list]. *)
Lemma inner_loop_retry copy_list T : ∀ kept errors s,
  (∀ g w e w', g ∈ T → command g w = (Raise e, w') → is_Exception e = true) →
  NoDup (kept ++ T) →
  heap s !! copy_list = Some (kept ++ T) →
  ∃ errors' s',
    for_each T (loop_body command copy_list) errors s = (Ok errors', s')
    ∧ heap s'
      = <[copy_list := kept ++ failed_items (call_each command T (world s)).1]>
          (heap s)
    ∧ world s' = (call_each command T (world s)).2
    ∧ ∀ f, errors_get errors' f
           = errors_get errors f
             ∪ list_to_set (failure_texts f (call_each command T (world s)).1).
Proof.
  induction T as [|g T IH]; intros kept errors s Hexc Hnd Hcur;
    cbn [for_each].
  - exists errors, s. split; [done|]. split.
    + cbn. rewrite app_nil_r in *. by rewrite insert_id.
    + split; [done|]. intros f. cbn. by rewrite (right_id_L ∅ (∪)).
  - assert (HexcT : ∀ h w e w', h ∈ T → command h w = (Raise e, w') →
                                is_Exception e = true).
    { intros h w e w' Hh. apply Hexc. by apply elem_of_cons; right. }
    cbn [call_each fst snd].
    destruct (command g (world s)) as [[[]|e] w'] eqn:Hc; cbn [fst snd].
    + assert (Hg : g ∉ kept).
      { intros Hin. apply NoDup_app in Hnd as (_ & Hdisj & _).
        apply (Hdisj g Hin), list_elem_of_here. }
      assert (Hrm : remove_first g (kept ++ g :: T) = Some (kept ++ T))
        by (by apply remove_first_middle).
      rewrite (bind_Ok _ _ _ _ _
                 (loop_body_returns command _ _ _ _ _ _ _ Hc Hcur Hrm)).
      destruct (IH kept errors
                  (State (<[copy_list := kept ++ T]> (heap s)) w') HexcT)
        as (errors' & s' & Hrun & Hheap & Hworld & Herr).
      { apply NoDup_app in Hnd as (Hk & Hdisj & HT).
        apply NoDup_cons in HT as [_ HT]. apply NoDup_app.
        split; [done|]. split; [|done].
        intros h Hh HhT. apply (Hdisj h Hh). by apply elem_of_cons; right. }
      { cbn [heap]. by rewrite lookup_insert_eq. }
      exists errors', s'. split; [done|]. cbn [heap world] in *.
      split; [by rewrite Hheap, insert_insert_eq|]. split; [done|].
      intros f. rewrite Herr.
      unfold failure_texts at 2. cbn [omap list_omap fst snd]. done.
    + pose proof (Hexc g (world s) e w' (list_elem_of_here _ _) Hc) as He.
      rewrite (bind_Ok _ _ _ _ _
                 (loop_body_raises command _ _ _ _ _ _ Hc He)).
      set (x0 := separator +:+ exn_str e).
      destruct (IH (kept ++ [g]) (errors_add g x0 errors)
                  (State (heap s) w') HexcT)
        as (errors' & s' & Hrun & Hheap & Hworld & Herr).
      { by rewrite <- app_assoc. }
      { cbn [heap]. by rewrite <- app_assoc. }
      exists errors', s'. split; [done|]. cbn [heap world] in *.
      split.
      { rewrite Hheap. unfold failed_items at 2.
        cbn [omap list_omap fst snd].
        fold (failed_items (call_each command T w').1).
        by rewrite <- app_assoc. }
      split; [done|].
      intros f. rewrite Herr, errors_get_add.
      unfold failure_texts at 2. cbn [omap list_omap fst snd].
      fold (failure_texts f (call_each command T w').1).
      destruct (decide (f = g)) as [->|Hfg].
      * rewrite decide_True by done. fold x0.
        by rewrite list_to_set_cons, (assoc_L (∪)).
      * by rewrite decide_False by done.
Qed.

(** [n] rounds on a list without repetition are the [n] rounds of the
    specification. *)
Lemma rounds_retry n : ∀ copy_list copy_list_loop errors s L,
  (∀ g w e w', g ∈ L → command g w = (Raise e, w') → is_Exception e = true) →
  NoDup L →
  copy_list ≠ copy_list_loop →
  heap s !! copy_list = Some L →
  heap s !! copy_list_loop = Some L →
  ∃ errors' s',
    rounds command n copy_list copy_list_loop errors s = (Ok errors', s')
    ∧ heap s' !! copy_list = Some (retry_rounds command n L (world s)).1.2
    ∧ world s' = (retry_rounds command n L (world s)).2
    ∧ ∀ f, errors_get errors' f
           = errors_get errors f
             ∪ list_to_set
                 (failure_texts f (retry_rounds command n L (world s)).1.1).
Proof.
  induction n as [|n IH];
    intros copy_list copy_list_loop errors s L Hexc Hnd Hne Hcl Hcll;
    cbn [rounds retry_rounds fst snd].
  - exists errors, s. split; [done|]. split; [done|]. split; [done|].
    intros f. cbn. by rewrite (right_id_L ∅ (∪)).
  - unfold read at 1. unfold bind at 1. rewrite Hcll. cbn [default].
    destruct (inner_loop_retry copy_list L [] errors s Hexc Hnd Hcl)
      as (errors1 & s1 & Hrun1 & Hheap1 & Hworld1 & Herr1).
    rewrite (bind_Ok _ _ _ _ _ Hrun1).
    rewrite (bind_Ok _ _ _ _ _ (list_copy_run copy_list s1)).
    cbn [app] in Hheap1.
    set (L1 := failed_items (call_each command L (world s)).1) in *.
    assert (Hsub : L1 `sublist_of` L) by apply failed_items_sublist.
    assert (Hcl1 : heap s1 !! copy_list = Some L1).
    { by rewrite Hheap1, lookup_insert_eq. }
    rewrite Hcl1. cbn [default].
    set (q := fresh (dom (heap s1))).
    destruct (IH copy_list q errors1
                (State (<[q := L1]> (heap s1)) (world s1)) L1)
      as (errors' & s' & Hrun & Hheap & Hworld & Herr).
    { intros g w e w' Hg. apply Hexc. by eapply elem_of_sublist. }
    { by eapply sublist_NoDup. }
    { by apply fresh_ne with L1. }
    { cbn [heap]. rewrite lookup_insert_ne; [done|].
      intros Heq. by eapply (fresh_ne s1). }
    { cbn [heap]. by rewrite lookup_insert_eq. }
    cbn [world] in Hheap, Hworld, Herr. rewrite Hworld1 in Hheap, Hworld, Herr.
    exists errors', s'. split; [done|]. split; [done|]. split; [done|].
    intros f. rewrite Herr, Herr1, failure_texts_app, list_to_set_app_L.
    by rewrite (assoc_L (∪)).
Qed.

(** The whole loop on a list without repetition, for a command that
    raises nothing but [Exception]s: it is the retrying of the
    specification, with the errors of each outstanding item as a set. *)
Lemma sql_file_loop_retry file_list files max_loop s :
  heap s !! file_list = Some files →
  NoDup files →
  (∀ g w e w', g ∈ files → command g w = (Raise e, w') →
               is_Exception e = true) →
  ∃ failed s',
    sql_file_loop command file_list max_loop s = (Ok failed, s')
    ∧ world s'
      = (retry_rounds command (Z.to_nat (default 10%Z max_loop)) files
           (world s)).2
    ∧ NoDup (dict_keys failed)
    ∧ (∀ f, f ∈ dict_keys failed
            ↔ f ∈ (retry_rounds command (Z.to_nat (default 10%Z max_loop))
                     files (world s)).1.2)
    ∧ ∀ f errs, (f, errs) ∈ failed →
        errs ≡ₚ remove_dups
                  (failure_texts f
                     (retry_rounds command (Z.to_nat (default 10%Z max_loop))
                        files (world s)).1.1).
Proof.
  intros Hfiles Hnd Hexc. unfold sql_file_loop.
  rewrite (bind_Ok _ _ _ _ _ (list_copy_run file_list s)).
  rewrite Hfiles. cbn [default from_option id].
  set (copy_list := fresh (dom (heap s))).
  set (s1 := State (<[copy_list := files]> (heap s)) (world s)).
  rewrite (bind_Ok _ _ _ _ _ (list_copy_run copy_list s1)).
  assert (Hcl1 : heap s1 !! copy_list = Some files).
  { subst s1. cbn [heap]. by rewrite lookup_insert_eq. }
  rewrite Hcl1. cbn [default from_option id].
  set (copy_list_loop := fresh (dom (heap s1))).
  set (s2 := State (<[copy_list_loop := files]> (heap s1)) (world s1)).
  set (n := Z.to_nat (default 10%Z max_loop)).
  destruct (rounds_retry n copy_list copy_list_loop ∅ s2 files)
    as (errors & s3 & Hrun & Hheap & Hworld & Herr); [done|done| | | |].
  { by apply fresh_ne with files. }
  { subst s2. cbn [heap]. rewrite lookup_insert_ne; [done|].
    intros Heq. by eapply (fresh_ne s1). }
  { subst s2. cbn [heap]. by rewrite lookup_insert_eq. }
  rewrite (bind_Ok _ _ _ _ _ Hrun).
  unfold read at 1. unfold bind at 1. rewrite Hheap.
  cbn [default from_option id].
  change (world s2) with (world s) in *.
  set (r := retry_rounds command n files (world s)) in *.
  rewrite return_failed.
  destruct (failed_dict_spec command errors r.1.2) as (Hkn & Hkeys & Hvals).
  eexists _, _. split; [reflexivity|]. split; [exact Hworld|].
  split; [done|]. split; [done|].
  intros f errs Hin.
  rewrite (Hvals _ _ Hin), Herr.
  unfold errors_get at 1. rewrite lookup_empty. cbn [default from_option id].
  rewrite (left_id_L ∅ (∪)).
  apply NoDup_Permutation.
  - apply NoDup_elements.
  - apply NoDup_remove_dups.
  - intros x. by rewrite elem_of_elements, elem_of_list_to_set,
      elem_of_remove_dups.
Qed.

End LoopRetry.

(** ** Names of the objects to drop *)

Section DropProperties.
Context {W Engine Ctx : Type}.
Variable B : collaborators W Engine Ctx.
Implicit Types (file object_type : string) (engine : Engine).

Lemma index_first (first : string) rest : index (first :: rest) 0 = Ok first.
Proof. done. Qed.

(** The error for a file name that does not have three segments. *)
Lemma drop_object_name_bad file object_type :
  object_type ≠ "ASSEMBLY" →
  length (PyStr.split "."%char (PyStr.basename file)) ≠ 3 →
  drop_object_name file object_type
  = Raise (Exn RuntimeError
             ("File " +:+ file +:+ " not in <schema.object.sql> format.")).
Proof.
  intros Hty Hlen. unfold drop_object_name.
  rewrite decide_False by done. by rewrite decide_True by done.
Qed.

Lemma drop_object_name_schema file object_type schema object ext :
  object_type ≠ "ASSEMBLY" →
  PyStr.split "."%char (PyStr.basename file) = [schema; object; ext] →
  drop_object_name file object_type = Ok (schema +:+ "." +:+ object).
Proof.
  intros Hty Hparts. unfold drop_object_name.
  rewrite decide_False by done. rewrite Hparts.
  by rewrite decide_False by (intros Hne; by apply Hne).
Qed.

(** C10: for the object type ['ASSEMBLY'] the naming error is never
    raised: whatever the file name, its base name has a first segment and
    that segment is the object name, so [drop_sql_from_file] goes on to
    run [DROP ASSEMBLY] on it, also for a name that is not of the form
    [schema.object.sql]. *)
Theorem assembly_name_never_refused file engine :
  ∃ first rest,
    PyStr.split "."%char (PyStr.basename file) = first :: rest
    ∧ drop_object_name file "ASSEMBLY" = Ok first
    ∧ drop_sql_from_file B file engine "ASSEMBLY"
      = execute_try_catch B engine ("DROP " +:+ "ASSEMBLY" +:+ " " +:+ first)
    ∧ drop_object_name "bad.name.with.too.many.parts.sql" "ASSEMBLY"
      = Ok "bad".
Proof.
  destruct (split_cons "."%char (PyStr.basename file)) as (first & rest & Hp).
  exists first, rest. split; [done|].
  assert (Hname : drop_object_name file "ASSEMBLY" = Ok first).
  { unfold drop_object_name. by rewrite decide_True, Hp by done. }
  split; [done|]. split; [|done].
  unfold drop_sql_from_file. by rewrite Hname.
Qed.

(** C7: the object name comes from the base name of the file, split on
    the dots.  For an object type other than ['ASSEMBLY'], three segments
    give [schema.object] and the statement [DROP type schema.object] is
    run; any other number of segments raises a [RuntimeError] naming the
    file before anything is run, and inside the retry loop that error is
    recorded for this file and the loop goes on with the next files.  For
    ['ASSEMBLY'] the name is the first segment. *)
Theorem drop_naming_convention file engine object_type :
  let parts := PyStr.split "."%char (PyStr.basename file) in
  let command := λ f, drop_sql_from_file B f engine object_type in
  let e := Exn RuntimeError
             ("File " +:+ file +:+ " not in <schema.object.sql> format.") in
  (object_type ≠ "ASSEMBLY" →
   (∀ schema object ext,
      parts = [schema; object; ext] →
      drop_object_name file object_type = Ok (schema +:+ "." +:+ object)
      ∧ drop_sql_from_file B file engine object_type
        = execute_try_catch B engine
            ("DROP " +:+ object_type +:+ " " +:+ schema +:+ "." +:+ object))
   ∧ (length parts ≠ 3 →
      drop_object_name file object_type = Raise e
      ∧ (∀ w, drop_sql_from_file B file engine object_type w = (Raise e, w))
      ∧ ∀ copy_list rest errors (s : state W),
          for_each (file :: rest) (loop_body command copy_list) errors s
          = for_each rest (loop_body command copy_list)
              (errors_add file (separator +:+ exn_str e) errors) s))
  ∧ (∀ first rest,
       parts = first :: rest → drop_object_name file "ASSEMBLY" = Ok first)
  ∧ drop_object_name "store.vwClients.sql" "VIEW" = Ok "store.vwClients"
  ∧ drop_object_name "assembly_name.sql" "ASSEMBLY" = Ok "assembly_name"
  ∧ drop_object_name "bad.name.with.too.many.parts.sql" "VIEW"
    = Raise (Exn RuntimeError
               "File bad.name.with.too.many.parts.sql not in <schema.object.sql> format.").
Proof.
  intros parts command e. split; [|split; [|done]].
  - intros Hty. split.
    + intros schema object ext Hparts.
      pose proof (drop_object_name_schema _ _ _ _ _ Hty Hparts) as Hname.
      split; [done|]. unfold drop_sql_from_file. by rewrite Hname.
    + intros Hlen.
      pose proof (drop_object_name_bad _ _ Hty Hlen) as Hname.
      assert (Hraise : ∀ w, drop_sql_from_file B file engine object_type w
                            = (Raise e, w)).
      { intros w. unfold drop_sql_from_file. by rewrite Hname. }
      split; [done|]. split; [done|].
      intros copy_list rest errors s. cbn [for_each].
      by rewrite (bind_Ok _ _ _ _ _
                    (loop_body_raises command _ _ _ _ _ _ (Hraise (world s))
                       eq_refl)); destruct s.
  - intros first rest Hparts. unfold drop_object_name.
    rewrite decide_True by done. fold parts. by rewrite Hparts.
Qed.

End DropProperties.

(** ** Deploying the files of a directory *)

Section DeployProperties.
Context {W Engine Ctx : Type}.
Variable B : collaborators W Engine Ctx.
Implicit Types (s : state W) (errors : gmap string (gset string))
               (failed : pydict (list string)).

(** The loop lets through only what [except Exception] does not catch. *)
Lemma loop_body_lets_through (command : string → M W unit) copy_list file
    errors s e s' :
  loop_body command copy_list file errors s = (Raise e, s') →
  is_Exception e = false.
Proof.
  unfold loop_body, try_except_Exception.
  destruct (bind _ _ s) as [[a|e0] s1]; [done|].
  destruct (is_Exception e0) eqn:He0; [done|]. by intros [= <- _].
Qed.

Lemma for_each_lets_through (command : string → M W unit) copy_list
    (l : list string) errors s e s' :
  for_each l (loop_body command copy_list) errors s = (Raise e, s') →
  is_Exception e = false.
Proof.
  revert errors s. induction l as [|f l IH]; intros errors s; cbn [for_each].
  - done.
  - intros [Hb|(errors1 & s1 & _ & Hk)]%bind_Raise_inv.
    + by eapply loop_body_lets_through.
    + by eapply IH.
Qed.

Lemma rounds_lets_through (command : string → M W unit) n copy_list
    copy_list_loop errors s e s' :
  rounds command n copy_list copy_list_loop errors s = (Raise e, s') →
  is_Exception e = false.
Proof.
  revert copy_list_loop errors s.
  induction n as [|n IH]; intros copy_list_loop errors s; cbn [rounds].
  - done.
  - intros [Hb|(files & s1 & _ & Hk)]%bind_Raise_inv; [done|].
    apply bind_Raise_inv in Hk as [Hb|(errors1 & s2 & _ & Hk)].
    { by eapply for_each_lets_through. }
    apply bind_Raise_inv in Hk as [Hb|(q & s3 & _ & Hk)]; [done|].
    by eapply IH.
Qed.

Lemma sql_file_loop_lets_through (command : string → M W unit) file_list
    max_loop s e s' :
  sql_file_loop command file_list max_loop s = (Raise e, s') →
  is_Exception e = false.
Proof.
  unfold sql_file_loop.
  intros [Hb|(p & s1 & _ & Hk)]%bind_Raise_inv; [done|].
  apply bind_Raise_inv in Hk as [Hb|(q & s2 & _ & Hk)]; [done|].
  apply bind_Raise_inv in Hk as [Hb|(errors & s3 & _ & Hk)].
  { by eapply rounds_lets_through. }
  apply bind_Raise_inv in Hk as [Hb|(remaining & s4 & _ & Hk)]; [done|].
  by case_decide.
Qed.

(** With no file and no round, nothing has failed. *)
Lemma sql_file_loop_no_files (command : string → M W unit) file_list s :
  heap s !! file_list = Some [] →
  (sql_file_loop command file_list (Some 0%Z) s).1 = Ok [].
Proof.
  intros Hfiles. unfold sql_file_loop.
  rewrite (bind_Ok _ _ _ _ _ (list_copy_run file_list s)), Hfiles.
  cbn [default from_option id].
  erewrite bind_Ok by apply list_copy_run.
  cbn [heap]. rewrite lookup_insert_eq.
  cbn [default from_option id]. change (Z.to_nat 0) with 0%nat.
  cbn [rounds]. rewrite bind_ret. unfold read at 1, bind at 1. cbn [heap].
  rewrite lookup_insert_ne, lookup_insert_eq; [done|].
  intros Heq.
  apply (fresh_ne (State (<[fresh (dom (heap s)) := []]> (heap s)) (world s))
                  (fresh (dom (heap s))) []); [|done].
  cbn [heap]. by rewrite lookup_insert_eq.
Qed.

(** The error message as one string. *)
Lemma error_msg_unfold header failed :
  error_msg header failed
  = (header +:+ PyStr.join PyStr.nl (dict_keys failed))
    +:+ PyStr.concat (PyStr.concat <$> dict_values failed).
Proof.
  unfold error_msg. generalize (header +:+ PyStr.join PyStr.nl (dict_keys failed)).
  induction (dict_values failed) as [|v vs IH]; intros init; cbn.
  - by rewrite str_app_empty_r.
  - rewrite IH. apply str_app_assoc.
Qed.

(** Every failed file and every error string recorded for it is part of
    the message. *)
Lemma error_msg_lists header failed f errs :
  (f, errs) ∈ failed →
  PyStr.occurs_in f (error_msg header failed)
  ∧ ∀ x, x ∈ errs → PyStr.occurs_in x (error_msg header failed).
Proof.
  intros Hin. rewrite error_msg_unfold. split.
  - apply occurs_in_app_l, occurs_in_app_r, occurs_in_join.
    unfold dict_keys. apply list_elem_of_fmap. by exists (f, errs).
  - intros x Hx. apply occurs_in_app_r.
    destruct (occurs_in_concat errs x Hx) as (pre & post & Herrs).
    assert (Hv : PyStr.concat errs ∈ PyStr.concat <$> dict_values failed).
    { apply list_elem_of_fmap. exists errs. split; [done|].
      unfold dict_values. apply list_elem_of_fmap. by exists (f, errs). }
    destruct (occurs_in_concat _ _ Hv) as (pre' & post' & Hall).
    exists (pre' +:+ pre), (post +:+ post').
    rewrite Hall, Herrs. by rewrite !str_app_assoc.
Qed.

(** What [deploy_sqlfiles] does on a directory that exists and can be
    listed: it runs the loop on a new list of the [.sql] files, with as
    many rounds as there are files, then raises or returns [True]. *)
Lemma deploy_sqlfiles_run engine directory message display_output variables
    s names w2 :
  let s1 := State (heap s) (om_enter B message (world s)) in
  let files := sql_files_of directory names in
  let file_list := fresh (dom (heap s)) in
  let s3 := State (<[file_list := files]> (heap s)) w2 in
  let command := λ file,
    deploy_sql_from_file B file engine display_output variables in
  is_dir B directory (world s1) = true →
  listdir B directory (world s1) = (Ok names, w2) →
  deploy_sqlfiles B engine directory message display_output variables s
  = match
      (let* failed :=
         sql_file_loop command file_list (Some (Z.of_nat (length files))) in
       if decide (0 < length failed)
       then raise (Exn RuntimeError
                     (error_msg ("Failed to deploy the following files:"
                                   +:+ PyStr.nl) failed))
       else ret true) s3
    with
    | (r, s4) => (r, State (heap s4) (om_exit B message (world s4)))
    end.
Proof.
  intros s1 files file_list s3 command Hdir Hlist.
  unfold deploy_sqlfiles, with_OperationManager. fold s1.
  rewrite Hdir. cbn [negb].
  erewrite bind_Ok; [|unfold liftW; by rewrite Hlist].
  erewrite bind_Ok by reflexivity.
  erewrite bind_Ok.
  2:{ unfold list_len, read, bind. cbn [heap].
      rewrite lookup_insert_eq. reflexivity. }
  done.
Qed.

(** On a path that is not a directory, a warning and [False]. *)
Lemma deploy_sqlfiles_no_directory engine directory message display_output
    variables s :
  is_dir B directory (om_enter B message (world s)) = false →
  (deploy_sqlfiles B engine directory message display_output variables s).1
  = Ok false.
Proof.
  intros Hdir. unfold deploy_sqlfiles, with_OperationManager.
  cbn [world]. by rewrite Hdir.
Qed.

(** C2: [deploy_sqlfiles] raises a [RuntimeError] exactly when the retry
    loop returns a dict that is not empty, and the message of the error
    then contains every failed file and every error string recorded for
    it: on a path that is not a directory it returns [False] and the loop
    is not run; on a directory that can be listed, the loop is run on its
    [.sql] files, a dict that is not empty gives the error, and the empty
    dict gives [True], so that a directory without [.sql] files gives
    [True]. *)
Theorem deploy_sqlfiles_outcome engine directory message display_output
    variables s names w2 :
  let s1 := State (heap s) (om_enter B message (world s)) in
  let files := sql_files_of directory names in
  let file_list := fresh (dom (heap s)) in
  let s3 := State (<[file_list := files]> (heap s)) w2 in
  let command := λ file,
    deploy_sql_from_file B file engine display_output variables in
  let loop :=
    (sql_file_loop command file_list (Some (Z.of_nat (length files))) s3).1 in
  let result :=
    (deploy_sqlfiles B engine directory message display_output variables s).1 in
  let header := "Failed to deploy the following files:" +:+ PyStr.nl in
  (is_dir B directory (world s1) = false → result = Ok false)
  ∧ (is_dir B directory (world s1) = true →
     listdir B directory (world s1) = (Ok names, w2) →
     ((∃ msg, result = Raise (Exn RuntimeError msg))
      ↔ (∃ failed, loop = Ok failed ∧ failed ≠ []))
     ∧ (∀ failed,
          loop = Ok failed → failed ≠ [] →
          result = Raise (Exn RuntimeError (error_msg header failed))
          ∧ ∀ f errs,
              (f, errs) ∈ failed →
              PyStr.occurs_in f (error_msg header failed)
              ∧ ∀ x, x ∈ errs → PyStr.occurs_in x (error_msg header failed))
     ∧ (loop = Ok [] → result = Ok true)
     ∧ (files = [] → result = Ok true)).
Proof.
  intros s1 files file_list s3 command loop result header.
  split; [apply deploy_sqlfiles_no_directory|]. intros Hdir Hlist.
  assert (Hres : result =
            match loop with
            | Ok [] => Ok true
            | Ok failed => Raise (Exn RuntimeError (error_msg header failed))
            | Raise e => Raise e
            end).
  { subst result loop.
    rewrite (deploy_sqlfiles_run _ _ _ _ _ _ _ _ Hdir Hlist).
    fold files file_list s3 command header. unfold bind.
    destruct (sql_file_loop command file_list _ s3) as [[failed|e] s4];
      [|done].
    by destruct failed. }
  split; [|split; [|split]].
  - split.
    + intros [msg Hmsg]. rewrite Hres in Hmsg.
      destruct loop as [failed|e] eqn:Hloop.
      * exists failed. split; [done|]. by intros ->.
      * subst loop.
        destruct (sql_file_loop command file_list _ s3) as [r s4] eqn:Hrun.
        cbn [fst] in Hloop. subst r.
        apply sql_file_loop_lets_through in Hrun.
        injection Hmsg as ->. done.
    + intros (failed & Hloop & Hne). rewrite Hres, Hloop.
      destruct failed; [done|]. by eexists.
  - intros failed Hloop Hne. split.
    + rewrite Hres, Hloop. by destruct failed.
    + intros f errs Hin. by apply error_msg_lists.
  - intros Hloop. by rewrite Hres, Hloop.
  - intros Hnil. rewrite Hres. subst loop. rewrite Hnil. cbn [length].
    rewrite sql_file_loop_no_files; [done|].
    subst s3. cbn [heap]. by rewrite lookup_insert_eq, Hnil.
Qed.

(** C3 (as the code has it): a call of [sql_file_loop] that leaves the
    round bound out runs with the bound 10, whatever the number of items:
    on a command that fails on the items of a set every time, it makes
    the calls of ten rounds, so that each failing item is tried ten times
    for each of its occurrences.  [deploy_sqlfiles] always passes the
    bound, and passes the number of [.sql] files it found: when the
    scripts of a set fail every time, it makes the calls of as many rounds
    as there are [.sql] files, each failing script being tried that many
    times, and leaves the operation manager.  On a list without
    repetition and a command that raises nothing but [Exception]s, failing
    every time or not, the loop is the retrying of the specification: in
    each round the command is called on the outstanding items and those
    on which it failed stay outstanding; ten rounds without a bound, as
    many rounds as [.sql] files through [deploy_sqlfiles], which returns
    [True] exactly when no script is outstanding after them. *)
Theorem sql_file_loop_default_bound engine directory message display_output
    variables s names w2 :
  let s1 := State (heap s) (om_enter B message (world s)) in
  let files := sql_files_of directory names in
  let file_list := fresh (dom (heap s)) in
  let s3 := State (<[file_list := files]> (heap s)) w2 in
  let command := λ file,
    deploy_sql_from_file B file engine display_output variables in
  is_dir B directory (world s1) = true →
  listdir B directory (world s1) = (Ok names, w2) →
  (∀ (command' : string → M W unit) file_list' s',
     sql_file_loop command' file_list' None s'
     = sql_file_loop command' file_list' (Some 10%Z) s')
  ∧ heap s3 !! file_list = Some files
  ∧ deploy_sqlfiles B engine directory message display_output variables s
    = match
        (let* failed :=
           sql_file_loop command file_list (Some (Z.of_nat (length files))) in
         if decide (0 < length failed)
         then raise (Exn RuntimeError
                       (error_msg ("Failed to deploy the following files:"
                                     +:+ PyStr.nl) failed))
         else ret true) s3
      with
      | (r, s4) => (r, State (heap s4) (om_exit B message (world s4)))
      end
  ∧ (∀ (command' : string → M W unit) (F' : gset string) file_list'
       (files' : list string) (s' : state W),
       heap s' !! file_list' = Some files' →
       fails_exactly_on command' F' files' →
       let run := call_each command' (attempts F' files' 10) (world s') in
       ∃ failed s'',
         sql_file_loop command' file_list' None s' = (Ok failed, s'')
         ∧ world s'' = run.2
         ∧ (∀ f errs, (f, errs) ∈ failed →
                      errs ≡ₚ remove_dups (failure_texts f run.1))
         ∧ ∀ f, f ∈ F' →
                length (failure_texts f run.1) = 10 * occurrences f files')
  ∧ (∀ F : gset string,
       fails_exactly_on command F files →
       let run := call_each command (attempts F files (length files)) w2 in
       ∃ r s',
         deploy_sqlfiles B engine directory message display_output variables s
         = (r, s')
         ∧ world s' = om_exit B message run.2
         ∧ ∀ f, f ∈ F →
                length (failure_texts f run.1)
                = length files * occurrences f files)
  ∧ (∀ (command' : string → M W unit) file_list' (files' : list string)
       (s' : state W),
       heap s' !! file_list' = Some files' →
       NoDup files' →
       (∀ g w e w', g ∈ files' → command' g w = (Raise e, w') →
                    is_Exception e = true) →
       let retry := retry_rounds command' 10 files' (world s') in
       ∃ failed s'',
         sql_file_loop command' file_list' None s' = (Ok failed, s'')
         ∧ world s'' = retry.2
         ∧ NoDup (dict_keys failed)
         ∧ (∀ f, f ∈ dict_keys failed ↔ f ∈ retry.1.2)
         ∧ ∀ f errs, (f, errs) ∈ failed →
                     errs ≡ₚ remove_dups (failure_texts f retry.1.1))
  ∧ (NoDup files →
     (∀ g w e w', g ∈ files → command g w = (Raise e, w') →
                  is_Exception e = true) →
     let retry := retry_rounds command (length files) files w2 in
     ∃ r s',
       deploy_sqlfiles B engine directory message display_output variables s
       = (r, s')
       ∧ world s' = om_exit B message retry.2
       ∧ (r = Ok true ↔ retry.1.2 = [])
       ∧ (retry.1.2 ≠ [] → ∃ msg, r = Raise (Exn RuntimeError msg))).
Proof.
  intros s1 files file_list s3 command Hdir Hlist.
  assert (Hs3 : heap s3 !! file_list = Some files).
  { subst s3. cbn [heap]. by rewrite lookup_insert_eq. }
  split; [done|]. split; [done|].
  split; [by apply deploy_sqlfiles_run|]. split; [|split; [|split]].
  - intros command' F' file_list' files' s' Hfiles Hcmd run.
    destruct (sql_file_loop_trace command' F' file_list' files' None s'
                Hfiles Hcmd)
      as (failed & s'' & Hrun & Hworld & Hhist).
    exists failed, s''. split; [done|]. split; [done|]. split; [done|].
    intros f Hf. by apply failure_texts_attempts.
  - intros F Hcmd run.
    destruct (sql_file_loop_trace command F file_list files
                (Some (Z.of_nat (length files))) s3 Hs3 Hcmd)
      as (failed & s' & Hrun & Hworld & _).
    cbn [default from_option id] in Hworld. rewrite Nat2Z.id in Hworld.
    change (world s3) with w2 in Hworld. fold run in Hworld.
    rewrite (deploy_sqlfiles_run engine directory message display_output
               variables s names w2 Hdir Hlist).
    fold files file_list s3 command.
    rewrite (bind_Ok _ _ _ _ _ Hrun).
    case_decide.
    + eexists _, _. split; [reflexivity|]. cbn [world]. rewrite Hworld.
      split; [done|]. intros f Hf. by apply failure_texts_attempts.
    + eexists _, _. split; [reflexivity|]. cbn [world]. rewrite Hworld.
      split; [done|]. intros f Hf. by apply failure_texts_attempts.
  - intros command' file_list' files' s' Hfiles Hnd Hexc retry.
    exact (sql_file_loop_retry command' file_list' files' None s'
             Hfiles Hnd Hexc).
  - intros Hnd Hexc retry.
    destruct (sql_file_loop_retry command file_list files
                (Some (Z.of_nat (length files))) s3 Hs3 Hnd Hexc)
      as (failed & s' & Hrun & Hworld & _ & Hkeys & _).
    cbn [default from_option id] in Hworld, Hkeys.
    rewrite Nat2Z.id in Hworld, Hkeys.
    change (world s3) with w2 in Hworld, Hkeys. fold retry in Hworld, Hkeys.
    rewrite (deploy_sqlfiles_run engine directory message display_output
               variables s names w2 Hdir Hlist).
    fold files file_list s3 command.
    rewrite (bind_Ok _ _ _ _ _ Hrun).
    assert (Hempty : failed = [] ↔ retry.1.2 = []).
    { split.
      - intros ->. destruct (retry.1.2) as [|f rest] eqn:Hout; [done|].
        assert (Hf : f ∈ dict_keys ([] : pydict (list string))).
        { apply Hkeys. apply list_elem_of_here. }
        by apply elem_of_nil in Hf.
      - intros Hout. destruct failed as [|[f errs] failed]; [done|].
        assert (Hf : f ∈ retry.1.2).
        { apply Hkeys. apply list_elem_of_here. }
        rewrite Hout in Hf. by apply elem_of_nil in Hf. }
    case_decide as Hlen.
    + eexists _, _. split; [reflexivity|]. cbn [world]. rewrite Hworld.
      split; [done|]. split.
      * split; [done|]. intros Hout%Hempty. subst failed. cbn in Hlen. lia.
      * intros _. by eexists.
    + eexists _, _. split; [reflexivity|]. cbn [world]. rewrite Hworld.
      split; [done|].
      assert (failed = []) as Hnil by (destruct failed; [done|cbn in Hlen; lia]).
      split; [split; [intros _; by apply Hempty|done]|].
      intros Hout. by apply Hempty in Hnil.
Qed.

End DeployProperties.

(** ** The properties on the small session *)

Lemma fails_on_b_exactly :
  fails_exactly_on Sample.fails_on_b {["b.sql"]} ["a.sql"; "b.sql"].
Proof.
  intros f Hf w.
  apply elem_of_cons in Hf as [->|Hf];
    [|apply list_elem_of_singleton in Hf as ->].
  - rewrite decide_False by set_solver. by eexists.
  - rewrite decide_True by set_solver. by eexists _, _.
Defined.

(** C1, counterexample: the command fails on [b.sql] in each of two
    rounds with the same text, and one error string is returned for it,
    not two. *)
Lemma full_history_claim_fails : ¬ full_history_claim.
Proof.
  intros Hclaim.
  destruct (Hclaim Sample.world Sample.fails_on_b {["b.sql"]} 1%positive
              ["a.sql"; "b.sql"] 2%Z Sample.two_files eq_refl
              fails_on_b_exactly)
    as (failed & s' & Hrun & _ & Hlen).
  vm_compute in Hrun. injection Hrun as <- _.
  specialize (Hlen "b.sql" _ (list_elem_of_here _ _)).
  vm_compute in Hlen. discriminate.
Qed.

(** C1, on the session: two rounds on [a.sql] and [b.sql]. *)
Lemma sql_file_loop_failing_items_witness :
  let run :=
    call_each Sample.fails_on_b
      (attempts {["b.sql"]} ["a.sql"; "b.sql"] (Z.to_nat 2))
      (world Sample.two_files) in
  Sample.two_files.(heap) !! 1%positive = Some ["a.sql"; "b.sql"]
  ∧ (1 ≤ 2)%Z
  ∧ ∃ failed s',
      sql_file_loop Sample.fails_on_b 1%positive (Some 2%Z) Sample.two_files
      = (Ok failed, s')
      ∧ world s' = run.2
      ∧ NoDup (dict_keys failed)
      ∧ (∀ f, f ∈ dict_keys failed
              ↔ f ∈ ["a.sql"; "b.sql"] ∧ f ∈ ({["b.sql"]} : gset string))
      ∧ ∀ f errs, (f, errs) ∈ failed →
          errs ≡ₚ remove_dups (failure_texts f run.1)
          ∧ length (failure_texts f run.1)
            = Z.to_nat 2 * occurrences f ["a.sql"; "b.sql"]
          ∧ (NoDup (failure_texts f run.1) →
             length errs = Z.to_nat 2 * occurrences f ["a.sql"; "b.sql"])
          ∧ NoDup errs
          ∧ 1 ≤ length errs
              ≤ Z.to_nat 2 * occurrences f ["a.sql"; "b.sql"]
          ∧ (∀ x, x ∈ errs → error_string_of Sample.fails_on_b f x)
          ∧ ((∀ x y, error_string_of Sample.fails_on_b f x →
                     error_string_of Sample.fails_on_b f y → x = y) →
             length errs = 1).
Proof.
  cbv zeta. split; [reflexivity|]. split; [lia|].
  apply (sql_file_loop_failing_items Sample.fails_on_b {["b.sql"]}
           1%positive ["a.sql"; "b.sql"] 2%Z Sample.two_files).
  - reflexivity.
  - exact fails_on_b_exactly.
  - lia.
Defined.

(** C3, counterexample: one item whose command fails the first time
    only.  With the number of items as bound the item is reported; the
    call without a bound goes on to a second round and reports nothing. *)
Lemma default_bound_claim_fails : ¬ default_bound_claim.
Proof.
  intros Hclaim.
  specialize (Hclaim Sample.world Sample.fails_once 1%positive ["a.sql"]
                Sample.one_file eq_refl).
  apply (f_equal fst) in Hclaim. vm_compute in Hclaim. discriminate.
Qed.

(** C9, on the session. *)
Lemma sql_file_loop_keeps_file_list_witness :
  heap (sql_file_loop Sample.fails_on_b 1%positive (Some 2%Z)
          Sample.two_files).2 !! 1%positive
  = Some ["a.sql"; "b.sql"].
Proof.
  apply (sql_file_loop_keeps_file_list Sample.fails_on_b 1%positive
           (Some 2%Z) Sample.two_files ["a.sql"; "b.sql"]).
  reflexivity.
Defined.

(** C2, on the session: deploying the directory [sql], where [b.sql]
    fails. *)
Lemma deploy_sqlfiles_outcome_witness :
  let s := Sample.nothing_yet in
  let names := ["a.sql"; "b.sql"; "notes.txt"] in
  let w2 := ["Deploying"] in
  let s1 := State (heap s) (om_enter Sample.B "Deploying" (world s)) in
  let files := sql_files_of "sql" names in
  let file_list := fresh (dom (heap s)) in
  let s3 := State (<[file_list := files]> (heap s)) w2 in
  let command := λ file, deploy_sql_from_file Sample.B file tt false None in
  let loop :=
    (sql_file_loop command file_list (Some (Z.of_nat (length files))) s3).1 in
  let result := (deploy_sqlfiles Sample.B tt "sql" "Deploying" false None s).1 in
  let header := "Failed to deploy the following files:" +:+ PyStr.nl in
  is_dir Sample.B "sql" (world s1) = true
  ∧ listdir Sample.B "sql" (world s1) = (Ok names, w2)
  ∧ ((∃ msg, result = Raise (Exn RuntimeError msg))
     ↔ (∃ failed, loop = Ok failed ∧ failed ≠ []))
  ∧ (∀ failed,
       loop = Ok failed → failed ≠ [] →
       result = Raise (Exn RuntimeError (error_msg header failed))
       ∧ ∀ f errs,
           (f, errs) ∈ failed →
           PyStr.occurs_in f (error_msg header failed)
           ∧ ∀ x, x ∈ errs → PyStr.occurs_in x (error_msg header failed))
  ∧ (loop = Ok [] → result = Ok true)
  ∧ (files = [] → result = Ok true).
Proof.
  cbv zeta. split; [reflexivity|]. split; [reflexivity|].
  refine (proj2 (deploy_sqlfiles_outcome Sample.B tt "sql" "Deploying" false
                   None Sample.nothing_yet ["a.sql"; "b.sql"; "notes.txt"]
                   ["Deploying"]) eq_refl eq_refl).
Defined.

Lemma deploy_fails_on_b_exactly :
  fails_exactly_on
    (λ file, deploy_sql_from_file Sample.B file tt false None)
    {["sql/b.sql"]}
    (sql_files_of "sql" ["a.sql"; "b.sql"; "notes.txt"]).
Proof.
  assert (Hfiles : sql_files_of "sql" ["a.sql"; "b.sql"; "notes.txt"]
                   = ["sql/a.sql"; "sql/b.sql"]) by (vm_compute; reflexivity).
  rewrite Hfiles. intros f Hf w.
  apply elem_of_cons in Hf as [->|Hf];
    [|apply list_elem_of_singleton in Hf as ->].
  - rewrite decide_False by set_solver. by eexists.
  - rewrite decide_True by set_solver. by eexists _, _.
Defined.

(** C3, on the session: deploying the directory [sql], where [b.sql]
    fails every time. *)
Lemma sql_file_loop_default_bound_witness :
  let s := Sample.nothing_yet in
  let names := ["a.sql"; "b.sql"; "notes.txt"] in
  let w2 := ["Deploying"] in
  let s1 := State (heap s) (om_enter Sample.B "Deploying" (world s)) in
  let files := sql_files_of "sql" names in
  let file_list := fresh (dom (heap s)) in
  let s3 := State (<[file_list := files]> (heap s)) w2 in
  let command := λ file, deploy_sql_from_file Sample.B file tt false None in
  let F : gset string := {["sql/b.sql"]} in
  let deploy_run := call_each command (attempts F files (length files)) w2 in
  is_dir Sample.B "sql" (world s1) = true
  ∧ listdir Sample.B "sql" (world s1) = (Ok names, w2)
  ∧ fails_exactly_on command F files
  ∧ (∀ (command' : string → M Sample.world unit) file_list' s',
       sql_file_loop command' file_list' None s'
       = sql_file_loop command' file_list' (Some 10%Z) s')
  ∧ heap s3 !! file_list = Some files
  ∧ deploy_sqlfiles Sample.B tt "sql" "Deploying" false None s
    = match
        (let* failed :=
           sql_file_loop command file_list (Some (Z.of_nat (length files))) in
         if decide (0 < length failed)
         then raise (Exn RuntimeError
                       (error_msg ("Failed to deploy the following files:"
                                     +:+ PyStr.nl) failed))
         else ret true) s3
      with
      | (r, s4) =>
          (r, State (heap s4) (om_exit Sample.B "Deploying" (world s4)))
      end
  ∧ (∀ (command' : string → M Sample.world unit) (F' : gset string)
       file_list' (files' : list string) (s' : state Sample.world),
       heap s' !! file_list' = Some files' →
       fails_exactly_on command' F' files' →
       let run := call_each command' (attempts F' files' 10) (world s') in
       ∃ failed s'',
         sql_file_loop command' file_list' None s' = (Ok failed, s'')
         ∧ world s'' = run.2
         ∧ (∀ f errs, (f, errs) ∈ failed →
                      errs ≡ₚ remove_dups (failure_texts f run.1))
         ∧ ∀ f, f ∈ F' →
                length (failure_texts f run.1) = 10 * occurrences f files')
  ∧ (∃ r s',
      deploy_sqlfiles Sample.B tt "sql" "Deploying" false None s = (r, s')
      ∧ world s' = om_exit Sample.B "Deploying" deploy_run.2
      ∧ ∀ f, f ∈ F →
             length (failure_texts f deploy_run.1)
             = length files * occurrences f files)
  ∧ (∀ (command' : string → M Sample.world unit) file_list'
       (files' : list string) (s' : state Sample.world),
       heap s' !! file_list' = Some files' →
       NoDup files' →
       (∀ g w e w', g ∈ files' → command' g w = (Raise e, w') →
                    is_Exception e = true) →
       let retry := retry_rounds command' 10 files' (world s') in
       ∃ failed s'',
         sql_file_loop command' file_list' None s' = (Ok failed, s'')
         ∧ world s'' = retry.2
         ∧ NoDup (dict_keys failed)
         ∧ (∀ f, f ∈ dict_keys failed ↔ f ∈ retry.1.2)
         ∧ ∀ f errs, (f, errs) ∈ failed →
                     errs ≡ₚ remove_dups (failure_texts f retry.1.1))
  ∧ NoDup files
  ∧ (∀ g w e w', g ∈ files → command g w = (Raise e, w') →
                 is_Exception e = true)
  ∧ let retry := retry_rounds command (length files) files w2 in
    ∃ r s',
      deploy_sqlfiles Sample.B tt "sql" "Deploying" false None s = (r, s')
      ∧ world s' = om_exit Sample.B "Deploying" retry.2
      ∧ (r = Ok true ↔ retry.1.2 = [])
      ∧ (retry.1.2 ≠ [] → ∃ msg, r = Raise (Exn RuntimeError msg)).
Proof.
  cbv zeta. split; [reflexivity|]. split; [reflexivity|].
  split; [exact deploy_fails_on_b_exactly|].
  destruct (sql_file_loop_default_bound Sample.B tt "sql" "Deploying" false
              None Sample.nothing_yet ["a.sql"; "b.sql"; "notes.txt"]
              ["Deploying"] eq_refl eq_refl)
    as (Hdefault & Hlist & Hdeploy & Hten & Hrounds & Hretry & Hthrough).
  assert (Hfiles : sql_files_of "sql" ["a.sql"; "b.sql"; "notes.txt"]
                   = ["sql/a.sql"; "sql/b.sql"]) by (vm_compute; reflexivity).
  assert (Hnd : NoDup (sql_files_of "sql" ["a.sql"; "b.sql"; "notes.txt"])).
  { rewrite Hfiles. compute_done. }
  assert (Hexc : ∀ g (w : Sample.world) e w',
            g ∈ sql_files_of "sql" ["a.sql"; "b.sql"; "notes.txt"] →
            deploy_sql_from_file Sample.B g tt false None w = (Raise e, w') →
            is_Exception e = true).
  { rewrite Hfiles. intros g w e w' Hg Hc.
    apply elem_of_cons in Hg as [->|Hg];
      [|apply list_elem_of_singleton in Hg as ->].
    - discriminate Hc.
    - injection Hc as <- _. reflexivity. }
  split; [exact Hdefault|]. split; [exact Hlist|]. split; [exact Hdeploy|].
  split; [exact Hten|].
  split; [exact (Hrounds {["sql/b.sql"]} deploy_fails_on_b_exactly)|].
  split; [exact Hretry|]. split; [exact Hnd|]. split; [exact Hexc|].
  exact (Hthrough Hnd Hexc).
Defined.

(** C4, on the session: a multiaction of [init] and [deploy]. *)
Lemma create_multiaction_composite_witness :
  Forall (λ sa, is_Some (Sample.registered !! sa)) ["init"; "deploy"]
  ∧ ∃ func reg' rs self,
      create_multiaction "complete-build" ["init"; "deploy"] "Run all"
        Sample.registered = Ok (func, reg')
      ∧ Forall2 (λ sa r, Sample.registered !! sa = Some r)
          ["init"; "deploy"] rs
      ∧ reg' = <["complete-build" := self]> Sample.registered
      ∧ function self = func ∧ name self = "complete-build"
      ∧ (∀ context args s,
           ∃ res s',
             calls_in_order context args rs s res s'
             ∧ f_call func context args s =
                 (match res with
                  | Ok vs => Ok (VList vs)
                  | Raise e => Raise e
                  end, s'))
      ∧ (affects_database self = true
         ↔ ∃ r, r ∈ rs ∧ affects_database r = true)
      ∧ (∀ x, x ∈ baseactions self ↔ ∃ r, r ∈ rs ∧ x ∈ baseactions r)
      ∧ (∀ x, x ∈ dependencies self
              ↔ (∃ r, r ∈ rs ∧ x ∈ dependencies r) ∧ x ∉ baseactions self).
Proof.
  assert (Hreg : Forall (λ sa, is_Some (Sample.registered !! sa))
                   ["init"; "deploy"]).
  { constructor; [eexists; vm_compute; reflexivity|].
    constructor; [eexists; vm_compute; reflexivity|]. constructor. }
  split; [exact Hreg|].
  exact (create_multiaction_composite "complete-build" ["init"; "deploy"]
           "Run all" Sample.registered Hreg).
Defined.

(** C6, on the session: [deploy] changes the database and the user
    answers no; [init] does not change it and no question is asked. *)
Lemma declined_confirmation_skips_witness :
  let s := Sample.nothing_yet in
  let conn_info : gmap string string :=
    {[ "server" := "localhost"; "database" := "store" ]} in
  let w1 := om_enter Sample.B (starting_message "deploy")
              (logger_info Sample.B "------" (world s)) in
  let w2 := w1 in
  let allowed_actions :=
    default (AllowedList []) (configuration_allowed_actions Sample.B tt) in
  let s3 := (notify_dependencies Sample.B Sample.deploy_action
               (State (heap s) w2)).2 in
  let w4 := world s3 in
  let w5 := w4 ++ [warning_message conn_info] in
  (Sample.registered !! "deploy" = Some Sample.deploy_action
   ∧ affects_database Sample.deploy_action = true
   ∧ Context_init Sample.B "config.jsonc" w1 = (Ok tt, w2)
   ∧ (check_action_validity Sample.B "deploy" allowed_actions
        Sample.registered (State (heap s) w2)).1 = Ok true
   ∧ get_conn_info Sample.B tt (world s3) = (Ok conn_info, w4)
   ∧ are_you_sure Sample.B (warning_message conn_info) w4 = (Ok false, w5)
   ∧ execute_action Sample.B "deploy" "config.jsonc" tt Sample.registered s
     = (Ok VNone,
        State (heap s) (om_exit Sample.B (starting_message "deploy") w5)))
  ∧ (Sample.registered !! "init" = Some Sample.init_action
     ∧ affects_database Sample.init_action = false
     ∧ ∀ ask,
         execute_action (with_are_you_sure ask Sample.B)
           "init" "config.jsonc" tt Sample.registered s
         = execute_action Sample.B "init" "config.jsonc" tt
             Sample.registered s).
Proof.
  cbv zeta. split.
  - split; [reflexivity|]. split; [reflexivity|]. split; [reflexivity|].
    split; [reflexivity|]. split; [reflexivity|]. split; [reflexivity|].
    refine (proj1 (declined_confirmation_skips Sample.B "deploy"
                     "config.jsonc" tt Sample.registered Sample.deploy_action
                     tt {[ "server" := "localhost"; "database" := "store" ]}
                     Sample.nothing_yet _ _ _ eq_refl) _ _ _ _ _);
      reflexivity.
  - split; [reflexivity|]. split; [reflexivity|]. intros ask.
    refine (proj2 (proj2 (proj2 (declined_confirmation_skips Sample.B "init"
                     "config.jsonc" tt Sample.registered Sample.init_action
                     tt ∅ Sample.nothing_yet [] [] [] eq_refl)
                     eq_refl ask tt Sample.nothing_yet))).
Defined.

(** With a bound of zero no round is run, and every item is returned,
    with no error: the items that would fail and the others alike. *)
Lemma zero_rounds_return_every_item :
  (sql_file_loop Sample.fails_on_b 1%positive (Some 0%Z) Sample.two_files).1
  = Ok [("a.sql", []); ("b.sql", [])].
Proof. vm_compute. reflexivity. Qed.

(** * Further properties *)

(** ** The retry loop on any command *)

Section LoopGeneral.
Context {W : Type}.
Variable command : string → M W unit.
Implicit Types (s : state W) (errors : gmap string (gset string))
               (f g x : string) (L T cur : list string).

Lemma bind_Ok_inv {S A A'} (m : M S A) (k : A → M S A') st b st' :
  bind m k st = (Ok b, st') →
  ∃ a st1, m st = (Ok a, st1) ∧ k a st1 = (Ok b, st').
Proof.
  unfold bind. destruct (m st) as [[a|e] st1]; [|done].
  intros Hk. by exists a, st1.
Qed.

(** The ways in which the body of the inner loop ends without raising:
    the command returned and the file left [copy_list], or an error string
    was recorded for the file and [copy_list] is as it was. *)
Lemma loop_body_Ok_inv copy_list g errors s errors1 s1 cur :
  heap s !! copy_list = Some cur →
  loop_body command copy_list g errors s = (Ok errors1, s1) →
  (∃ w' cur',
     command g (world s) = (Ok tt, w') ∧ remove_first g cur = Some cur'
     ∧ errors1 = errors ∧ s1 = State (<[copy_list := cur']> (heap s)) w')
  ∨ (∃ m w',
       errors1 = errors_add g (separator +:+ m) errors
       ∧ s1 = State (heap s) w'
       ∧ ((∃ e, command g (world s) = (Raise e, w')
                ∧ is_Exception e = true ∧ m = exn_str e)
          ∨ (command g (world s) = (Ok tt, w')
             ∧ remove_first g cur = None))).
Proof.
  intros Hcur. unfold loop_body, try_except_Exception, bind, liftW,
    list_remove, read, bind.
  destruct (command g (world s)) as [[[]|e] w'] eqn:Hc; cbn [heap world].
  - rewrite Hcur. cbn [default from_option id].
    destruct (remove_first g cur) as [cur'|] eqn:Hrm; cbn.
    + intros [= <- <-]. left. by exists w', cur'.
    + intros [= <- <-]. right. eexists _, w'. split; [done|].
      split; [done|]. by right.
  - destruct (is_Exception e) eqn:He; [|done].
    intros [= <- <-]. right. exists (exn_str e), w'. split; [done|].
    split; [done|]. left. by exists e.
Qed.

(** What the body of the inner loop raises, the command raised, and
    [except Exception] does not catch it. *)
Lemma loop_body_Raise_inv copy_list g errors s e s1 :
  loop_body command copy_list g errors s = (Raise e, s1) →
  ∃ w', command g (world s) = (Raise e, w') ∧ is_Exception e = false.
Proof.
  unfold loop_body, try_except_Exception, bind, liftW, list_remove, read, bind.
  destruct (command g (world s)) as [[[]|e0] w'] eqn:Hc; cbn [heap world].
  - destruct (remove_first g _); cbn; done.
  - destruct (is_Exception e0) eqn:He; [done|].
    intros [= <- <-]. by exists w'.
Qed.

(** An invariant of the inner loop: [Inv T cur errors] relates the files
    still to visit, the contents of [copy_list] and the recorded errors. *)
Lemma for_each_loop_invariant
    (Inv : list string → list string → gmap string (gset string) → Prop)
    copy_list :
  (∀ g T cur errors s errors1 s1,
     Inv (g :: T) cur errors →
     heap s !! copy_list = Some cur →
     loop_body command copy_list g errors s = (Ok errors1, s1) →
     ∃ cur1, heap s1 !! copy_list = Some cur1 ∧ Inv T cur1 errors1) →
  ∀ T cur errors s errors' s',
    Inv T cur errors →
    heap s !! copy_list = Some cur →
    for_each T (loop_body command copy_list) errors s = (Ok errors', s') →
    ∃ cur', heap s' !! copy_list = Some cur' ∧ Inv [] cur' errors'.
Proof.
  intros Hstep T. induction T as [|g T IH];
    intros cur errors s errors' s' HInv Hcur; cbn [for_each].
  - intros [= <- <-]. by exists cur.
  - intros (errors1 & s1 & Hbody & Hrest)%bind_Ok_inv.
    destruct (Hstep _ _ _ _ _ _ _ HInv Hcur Hbody) as (cur1 & Hcur1 & HInv1).
    by eapply IH.
Qed.

(** An invariant of the rounds: [R0] holds of the contents of
    [copy_list] and of the errors before a round, [R1] after one. *)
Lemma rounds_invariant
    (R0 R1 : list string → gmap string (gset string) → Prop)
    (Inv : list string → list string → gmap string (gset string) → Prop)
    copy_list :
  (∀ L errors, R0 L errors → Inv L L errors) →
  (∀ g T cur errors s errors1 s1,
     Inv (g :: T) cur errors →
     heap s !! copy_list = Some cur →
     loop_body command copy_list g errors s = (Ok errors1, s1) →
     ∃ cur1, heap s1 !! copy_list = Some cur1 ∧ Inv T cur1 errors1) →
  (∀ cur errors, Inv [] cur errors → R1 cur errors) →
  (∀ cur errors, R1 cur errors → R0 cur errors) →
  ∀ n copy_list_loop errors s L errors' s',
    R0 L errors →
    copy_list ≠ copy_list_loop →
    heap s !! copy_list = Some L →
    heap s !! copy_list_loop = Some L →
    rounds command n copy_list copy_list_loop errors s = (Ok errors', s') →
    ∃ L', heap s' !! copy_list = Some L'
          ∧ match n with
            | O => L' = L ∧ errors' = errors
            | S _ => R1 L' errors'
            end.
Proof.
  intros Hstart Hstep Hstop Hagain n.
  induction n as [|n IH];
    intros copy_list_loop errors s L errors' s' HR Hne Hcl Hcll;
    cbn [rounds].
  - intros [= <- <-]. by exists L.
  - intros (files & s0 & Hread & Hrest)%bind_Ok_inv.
    unfold read in Hread. rewrite Hcll in Hread.
    cbn [default from_option id] in Hread. injection Hread as <- <-.
    apply bind_Ok_inv in Hrest as (errors1 & s1 & Hloop & Hrest).
    destruct (for_each_loop_invariant Inv copy_list Hstep L L errors s
                errors1 s1 (Hstart _ _ HR) Hcl Hloop)
      as (cur1 & Hcur1 & HInv1).
    apply Hstop in HInv1.
    rewrite (bind_Ok _ _ _ _ _ (list_copy_run copy_list s1)) in Hrest.
    rewrite Hcur1 in Hrest. cbn [default from_option id] in Hrest.
    set (q := fresh (dom (heap s1))) in *.
    set (s2 := State (<[q := cur1]> (heap s1)) (world s1)) in *.
    assert (Hcl2 : heap s2 !! copy_list = Some cur1).
    { subst s2. cbn [heap]. rewrite lookup_insert_ne; [done|].
      intros Heq. by eapply (fresh_ne s1). }
    assert (Hq2 : heap s2 !! q = Some cur1).
    { subst s2. cbn [heap]. by rewrite lookup_insert_eq. }
    destruct (IH q errors1 s2 cur1 errors' s' (Hagain _ _ HInv1)
                (fresh_ne s1 _ _ Hcur1) Hcl2 Hq2 Hrest)
      as (L' & HL' & Hn).
    exists L'. split; [done|].
    destruct n; [|done]. by destruct Hn as [-> ->].
Qed.

(** The same for the whole of [sql_file_loop]: what it returns is the
    dict of the files left in [copy_list], with the errors recorded. *)
Lemma sql_file_loop_invariant
    (R0 R1 : list string → gmap string (gset string) → Prop)
    (Inv : list string → list string → gmap string (gset string) → Prop)
    file_list max_loop s files failed s' :
  (∀ L errors, R0 L errors → Inv L L errors) →
  (∀ copy_list g T cur errors s errors1 s1,
     Inv (g :: T) cur errors →
     heap s !! copy_list = Some cur →
     loop_body command copy_list g errors s = (Ok errors1, s1) →
     ∃ cur1, heap s1 !! copy_list = Some cur1 ∧ Inv T cur1 errors1) →
  (∀ cur errors, Inv [] cur errors → R1 cur errors) →
  (∀ cur errors, R1 cur errors → R0 cur errors) →
  heap s !! file_list = Some files →
  R0 files ∅ →
  sql_file_loop command file_list max_loop s = (Ok failed, s') →
  ∃ L' errors',
    failed = failed_dict errors' L'
    ∧ match Z.to_nat (default 10%Z max_loop) with
      | O => L' = files ∧ errors' = ∅
      | S _ => R1 L' errors'
      end.
Proof.
  intros Hstart Hstep Hstop Hagain Hfiles HR. unfold sql_file_loop.
  rewrite (bind_Ok _ _ _ _ _ (list_copy_run file_list s)), Hfiles.
  cbn [default from_option id].
  set (copy_list := fresh (dom (heap s))).
  set (s1 := State (<[copy_list := files]> (heap s)) (world s)).
  rewrite (bind_Ok _ _ _ _ _ (list_copy_run copy_list s1)).
  assert (Hcl1 : heap s1 !! copy_list = Some files).
  { subst s1. cbn [heap]. by rewrite lookup_insert_eq. }
  rewrite Hcl1. cbn [default from_option id].
  intros (errors' & s3 & Hrounds & Hrest)%bind_Ok_inv.
  set (q := fresh (dom (heap s1))) in *.
  set (s2 := State (<[q := files]> (heap s1)) (world s1)) in *.
  assert (Hcl2 : heap s2 !! copy_list = Some files).
  { subst s2. cbn [heap]. rewrite lookup_insert_ne; [done|].
    intros Heq. by eapply (fresh_ne s1). }
  assert (Hq2 : heap s2 !! q = Some files).
  { subst s2. cbn [heap]. by rewrite lookup_insert_eq. }
  destruct (rounds_invariant R0 R1 Inv copy_list Hstart (Hstep copy_list)
              Hstop Hagain _ q ∅ s2 files errors' s3 HR
              (fresh_ne s1 _ _ Hcl1) Hcl2 Hq2 Hrounds)
    as (L' & HL' & Hn).
  unfold read at 1, bind at 1 in Hrest. rewrite HL' in Hrest.
  cbn [default from_option id] in Hrest.
  rewrite return_failed in Hrest. injection Hrest as <- _.
  by exists L', errors'.
Qed.

Lemma remove_first_occurrences g cur cur' f :
  remove_first g cur = Some cur' →
  occurrences f cur = (if decide (g = f) then 1 else 0) + occurrences f cur'.
Proof.
  revert cur'. induction cur as [|y cur IH]; intros cur';
    cbn [remove_first]; [done|].
  destruct (decide (g = y)) as [->|Hgy].
  - intros [= <-]. by rewrite occurrences_cons.
  - destruct (remove_first g cur) as [cur0|]; [|done].
    intros Heq. cbn in Heq. injection Heq as <-.
    rewrite !occurrences_cons, (IH cur0 eq_refl).
    repeat case_decide; lia.
Qed.

Lemma elem_of_occurrences f L : f ∈ L ↔ 0 < occurrences f L.
Proof.
  induction L as [|y L IH].
  - rewrite elem_of_nil. cbn. lia.
  - rewrite elem_of_cons, occurrences_cons, IH.
    case_decide; [subst; intuition lia|].
    split; [intros [?|?]; [congruence|lia]|intros ?; right; lia].
Qed.

Lemma remove_first_elem g cur cur' f :
  remove_first g cur = Some cur' → f ∈ cur' → f ∈ cur.
Proof.
  intros Hrm. rewrite !elem_of_occurrences.
  rewrite (remove_first_occurrences _ _ _ f Hrm). lia.
Qed.

Lemma errors_get_add_elem g x errors : x ∈ errors_get (errors_add g x errors) g.
Proof.
  rewrite errors_get_add, decide_True by done.
  apply elem_of_union. right. by apply elem_of_singleton.
Qed.

Lemma errors_get_empty f : errors_get ∅ f = ∅.
Proof. unfold errors_get. by rewrite lookup_empty. Qed.

(** X1: whatever the command does, when [sql_file_loop] returns, every
    key of the dict is one of the files it was given, no key comes twice,
    and every value is a list without repetition of strings that start
    with the separator. *)
Theorem sql_file_loop_reports_listed_files file_list max_loop s files
    failed s' :
  heap s !! file_list = Some files →
  sql_file_loop command file_list max_loop s = (Ok failed, s') →
  NoDup (dict_keys failed)
  ∧ (∀ f, f ∈ dict_keys failed → f ∈ files)
  ∧ ∀ f errs, (f, errs) ∈ failed →
      NoDup errs ∧ ∀ x, x ∈ errs → ∃ m, x = separator +:+ m.
Proof.
  intros Hfiles Hrun.
  set (R := λ (L : list string) errors,
         (∀ f, f ∈ L → f ∈ files)
         ∧ ∀ f x, x ∈ errors_get errors f → ∃ m, x = separator +:+ m).
  assert (Hstep : ∀ (copy_list : loc) g T cur errors s0 errors1 s1,
            R cur errors → heap s0 !! copy_list = Some cur →
            loop_body command copy_list g errors s0 = (Ok errors1, s1) →
            ∃ cur1, heap s1 !! copy_list = Some cur1 ∧ R cur1 errors1).
  { intros copy_list g T cur errors s0 errors1 s1 [Hsub Hsep] Hcur Hbody.
    destruct (loop_body_Ok_inv _ _ _ _ _ _ _ Hcur Hbody)
      as [(w' & cur' & _ & Hrm & -> & ->)|(m & w' & -> & -> & _)].
    - exists cur'. cbn [heap]. rewrite lookup_insert_eq. split; [done|].
      split; [|done]. intros f Hf. by eapply Hsub, remove_first_elem.
    - exists cur. split; [done|]. split; [done|].
      intros f x. rewrite errors_get_add. case_decide; [|apply Hsep].
      intros [Hx|Hx%elem_of_singleton]%elem_of_union; [by eapply Hsep|].
      by exists m. }
  assert (HR0 : R files ∅).
  { split; [done|]. intros f x. rewrite errors_get_empty.
    by intros ?%not_elem_of_empty. }
  destruct (sql_file_loop_invariant R R (λ _, R) file_list max_loop s files
              failed s' (λ _ _ H, H) Hstep (λ _ _ H, H) (λ _ _ H, H)
              Hfiles HR0 Hrun) as (L' & errors' & -> & Hn).
  assert (HR : R L' errors').
  { destruct (Z.to_nat _); [|done]. by destruct Hn as [-> ->]. }
  destruct HR as [Hsub Hsep].
  destruct (failed_dict_spec command errors' L') as (Hnd & Hkeys & Hvals).
  split; [done|]. split; [intros f Hf; by apply Hsub, Hkeys|].
  intros f errs Hin. rewrite (Hvals _ _ Hin).
  split; [apply NoDup_elements|].
  intros x Hx%elem_of_elements. by eapply Hsep.
Qed.

(** X2: whatever the command does, when at least one round is run every
    file that [sql_file_loop] reports comes with at least one error
    string. *)
Theorem sql_file_loop_reported_with_error file_list max_loop s files
    failed s' :
  heap s !! file_list = Some files →
  (1 ≤ default 10 max_loop)%Z →
  sql_file_loop command file_list max_loop s = (Ok failed, s') →
  ∀ f errs, (f, errs) ∈ failed → errs ≠ [].
Proof.
  intros Hfiles Hmax Hrun.
  set (Inv := λ (T cur : list string) errors,
         ∀ f, errors_get errors f = ∅ → occurrences f cur ≤ occurrences f T).
  set (R1 := λ (L : list string) errors,
         ∀ f, f ∈ L → errors_get errors f ≠ ∅).
  assert (Hstart : ∀ L errors, True → Inv L L errors).
  { by intros L errors _ f _. }
  assert (Hstep : ∀ (copy_list : loc) g T cur errors s0 errors1 s1,
            Inv (g :: T) cur errors → heap s0 !! copy_list = Some cur →
            loop_body command copy_list g errors s0 = (Ok errors1, s1) →
            ∃ cur1, heap s1 !! copy_list = Some cur1 ∧ Inv T cur1 errors1).
  { intros copy_list g T cur errors s0 errors1 s1 HInv Hcur Hbody.
    destruct (loop_body_Ok_inv _ _ _ _ _ _ _ Hcur Hbody)
      as [(w' & cur' & _ & Hrm & -> & ->)|(m & w' & -> & -> & _)].
    - exists cur'. cbn [heap]. rewrite lookup_insert_eq. split; [done|].
      intros f Hf. specialize (HInv f Hf).
      rewrite occurrences_cons, (remove_first_occurrences _ _ _ f Hrm) in HInv.
      lia.
    - exists cur. split; [done|]. intros f Hf.
      assert (f ≠ g) as Hfg.
      { intros ->. pose proof (errors_get_add_elem g (separator +:+ m) errors)
          as Hx. rewrite Hf in Hx. by apply not_elem_of_empty in Hx. }
      rewrite errors_get_add, decide_False in Hf by done.
      specialize (HInv f Hf). rewrite occurrences_cons in HInv.
      rewrite decide_False in HInv by done. lia. }
  assert (Hstop : ∀ cur errors, Inv [] cur errors → R1 cur errors).
  { intros cur errors HInv f Hf Hempty. apply elem_of_occurrences in Hf.
    specialize (HInv f Hempty). cbn in HInv. lia. }
  destruct (sql_file_loop_invariant (λ _ _, True) R1 Inv file_list max_loop
              s files failed s' Hstart Hstep Hstop (λ _ _ _, I)
              Hfiles I Hrun) as (L' & errors' & -> & Hn).
  destruct (Z.to_nat (default 10%Z max_loop)) eqn:Hz; [lia|].
  destruct (failed_dict_spec command errors' L') as (_ & Hkeys & Hvals).
  intros f errs Hin. rewrite (Hvals _ _ Hin).
  assert (Hf : f ∈ L').
  { apply Hkeys. unfold dict_keys. apply list_elem_of_fmap.
    by exists (f, errs). }
  intros Hnil%elements_empty_iff. by apply (Hn f Hf), leibniz_equiv.
Qed.

(** X3: a listed file on which the command raises an [Exception] every
    time is reported, whatever the command does on the other files and
    whatever the bound. *)
Theorem sql_file_loop_reports_failing_file file_list max_loop s files
    failed s' f :
  heap s !! file_list = Some files →
  f ∈ files →
  (∀ w, ∃ e w', command f w = (Raise e, w') ∧ is_Exception e = true) →
  sql_file_loop command file_list max_loop s = (Ok failed, s') →
  f ∈ dict_keys failed.
Proof.
  intros Hfiles Hf Hfails Hrun.
  set (R := λ (L : list string) (_ : gmap string (gset string)), f ∈ L).
  assert (Hstep : ∀ (copy_list : loc) g T cur errors s0 errors1 s1,
            R cur errors → heap s0 !! copy_list = Some cur →
            loop_body command copy_list g errors s0 = (Ok errors1, s1) →
            ∃ cur1, heap s1 !! copy_list = Some cur1 ∧ R cur1 errors1).
  { intros copy_list g T cur errors s0 errors1 s1 HR Hcur Hbody.
    destruct (loop_body_Ok_inv _ _ _ _ _ _ _ Hcur Hbody)
      as [(w' & cur' & Hc & Hrm & -> & ->)|(m & w' & -> & -> & _)].
    - exists cur'. cbn [heap]. rewrite lookup_insert_eq. split; [done|].
      assert (g ≠ f) as Hgf.
      { intros ->. destruct (Hfails (world s0)) as (e & w0 & Hraise & _).
        congruence. }
      unfold R in *. apply elem_of_occurrences in HR.
      apply elem_of_occurrences.
      rewrite (remove_first_occurrences _ _ _ f Hrm) in HR.
      by rewrite decide_False in HR by done.
    - by exists cur. }
  destruct (sql_file_loop_invariant R R (λ _, R) file_list max_loop s files
              failed s' (λ _ _ H, H) Hstep (λ _ _ H, H) (λ _ _ H, H)
              Hfiles Hf Hrun) as (L' & errors' & -> & Hn).
  assert (HR : f ∈ L').
  { destruct (Z.to_nat _); [|done]. by destruct Hn as [-> _]. }
  by apply (failed_dict_spec command errors' L').
Qed.

Lemma lookup_insert_fresh s (p : loc) (l l' : list string) :
  heap s !! p = Some l →
  <[fresh (dom (heap s)) := l']> (heap s) !! p = Some l.
Proof.
  intros Hp. rewrite lookup_insert_ne; [done|].
  intros Heq. by apply (fresh_ne s p l Hp).
Qed.

(** A round on files on which the command returns: each is run once, in
    order, and leaves [copy_list]; no error is recorded. *)
Lemma inner_loop_all_return copy_list T : ∀ errors s,
  (∀ f, f ∈ T → ∀ w, ∃ w', command f w = (Ok tt, w')) →
  heap s !! copy_list = Some T →
  ∃ w', for_each T (λ f (_ : unit), command f) tt (world s) = (Ok tt, w')
        ∧ for_each T (loop_body command copy_list) errors s
          = (Ok errors, State (<[copy_list := []]> (heap s)) w').
Proof.
  induction T as [|g T IH]; intros errors s Hok Hcur; cbn [for_each].
  - exists (world s). split; [done|]. rewrite insert_id by done.
    by destruct s.
  - destruct (Hok g (list_elem_of_here _ _) (world s)) as [w1 Hc].
    assert (Hrm : remove_first g (g :: T) = Some T).
    { cbn. by rewrite decide_True. }
    rewrite (bind_Ok _ _ _ _ _ (loop_body_returns command _ _ _ _ _ _ _
                                  Hc Hcur Hrm)).
    rewrite (bind_Ok _ _ _ _ _ Hc).
    destruct (IH errors (State (<[copy_list := T]> (heap s)) w1)) as [w' [Hseq Hrun]].
    { intros f Hf. apply Hok. by apply elem_of_cons; right. }
    { cbn [heap]. by rewrite lookup_insert_eq. }
    exists w'. split; [done|]. rewrite Hrun. cbn [heap].
    by rewrite insert_insert_eq.
Qed.

Lemma read_lookup s (p : loc) (l : list string) :
  heap s !! p = Some l → read p s = (Ok l, s).
Proof. intros Hp. unfold read. by rewrite Hp. Qed.

(** Rounds on an empty [copy_list] do nothing. *)
Lemma rounds_nothing_left n : ∀ copy_list copy_list_loop errors s,
  copy_list ≠ copy_list_loop →
  heap s !! copy_list = Some [] →
  heap s !! copy_list_loop = Some [] →
  ∃ s', rounds command n copy_list copy_list_loop errors s = (Ok errors, s')
        ∧ world s' = world s ∧ heap s' !! copy_list = Some [].
Proof.
  induction n as [|n IH]; intros copy_list copy_list_loop errors s Hne Hcl Hcll;
    cbn [rounds].
  - by exists s.
  - rewrite (bind_Ok _ _ _ _ _ (read_lookup _ _ _ Hcll)). cbn [for_each].
    rewrite bind_ret.
    rewrite (bind_Ok _ _ _ _ _ (list_copy_run copy_list s)), Hcl.
    cbn [default from_option id].
    set (q := fresh (dom (heap s))).
    destruct (IH copy_list q errors (State (<[q := []]> (heap s)) (world s)))
      as (s' & Hrun & Hw & Hh).
    + by apply fresh_ne with [].
    + cbn [heap]. by apply lookup_insert_fresh.
    + cbn [heap]. by rewrite lookup_insert_eq.
    + by exists s'.
Qed.

(** Rounds on files on which the command returns: the first round runs
    each once, the others have nothing left to do. *)
Lemma rounds_all_return n copy_list copy_list_loop errors s L :
  copy_list ≠ copy_list_loop →
  heap s !! copy_list = Some L →
  heap s !! copy_list_loop = Some L →
  (∀ f, f ∈ L → ∀ w, ∃ w', command f w = (Ok tt, w')) →
  ∃ s',
    rounds command (S n) copy_list copy_list_loop errors s = (Ok errors, s')
    ∧ for_each L (λ f (_ : unit), command f) tt (world s) = (Ok tt, world s')
    ∧ heap s' !! copy_list = Some [].
Proof.
  intros Hne Hcl Hcll Hok. cbn [rounds].
  rewrite (bind_Ok _ _ _ _ _ (read_lookup _ _ _ Hcll)).
  destruct (inner_loop_all_return copy_list L errors s Hok Hcl)
    as (w' & Hseq & Hrun).
  rewrite (bind_Ok _ _ _ _ _ Hrun).
  set (s3 := State (<[copy_list := []]> (heap s)) w') in *.
  assert (Hcl3 : heap s3 !! copy_list = Some []).
  { subst s3. cbn [heap]. by rewrite lookup_insert_eq. }
  rewrite (bind_Ok _ _ _ _ _ (list_copy_run copy_list s3)), Hcl3.
  cbn [default from_option id].
  set (q' := fresh (dom (heap s3))).
  destruct (rounds_nothing_left n copy_list q' errors
              (State (<[q' := []]> (heap s3)) (world s3)))
    as (s4 & Hrounds & Hw4 & Hh4).
  { by apply fresh_ne with []. }
  { cbn [heap]. by apply lookup_insert_fresh. }
  { cbn [heap]. by rewrite lookup_insert_eq. }
  exists s4. split; [done|]. split; [|done]. by rewrite Hw4.
Qed.

(** [sql_file_loop] as rounds on two new copies of the list. *)
Lemma sql_file_loop_unfold file_list max_loop s files :
  heap s !! file_list = Some files →
  ∃ copy_list copy_list_loop s2,
    copy_list ≠ copy_list_loop
    ∧ heap s2 !! copy_list = Some files
    ∧ heap s2 !! copy_list_loop = Some files
    ∧ world s2 = world s
    ∧ sql_file_loop command file_list max_loop s
      = (let* errors := rounds command (Z.to_nat (default 10%Z max_loop))
                          copy_list copy_list_loop ∅ in
         let* remaining := read copy_list in
         if decide (0 < length remaining)
         then ret (failed_dict errors remaining)
         else ret []) s2.
Proof.
  intros Hfiles. unfold sql_file_loop.
  rewrite (bind_Ok _ _ _ _ _ (list_copy_run file_list s)), Hfiles.
  cbn [default from_option id].
  set (copy_list := fresh (dom (heap s))).
  set (s1 := State (<[copy_list := files]> (heap s)) (world s)).
  rewrite (bind_Ok _ _ _ _ _ (list_copy_run copy_list s1)).
  assert (Hcl1 : heap s1 !! copy_list = Some files).
  { subst s1. cbn [heap]. by rewrite lookup_insert_eq. }
  rewrite Hcl1. cbn [default from_option id].
  exists copy_list, (fresh (dom (heap s1))),
    (State (<[fresh (dom (heap s1)) := files]> (heap s1)) (world s1)).
  split; [by apply fresh_ne with files|].
  split; [cbn [heap]; by apply lookup_insert_fresh|].
  split; [cbn [heap]; by rewrite lookup_insert_eq|].
  split; [|reflexivity]. done.
Qed.

Lemma sql_file_loop_all_return file_list max_loop s files :
  heap s !! file_list = Some files →
  (∀ f, f ∈ files → ∀ w, ∃ w', command f w = (Ok tt, w')) →
  (1 ≤ default 10 max_loop)%Z →
  ∃ s',
    sql_file_loop command file_list max_loop s = (Ok [], s')
    ∧ for_each files (λ f (_ : unit), command f) tt (world s)
      = (Ok tt, world s').
Proof.
  intros Hfiles Hok Hmax.
  destruct (sql_file_loop_unfold file_list max_loop s files Hfiles)
    as (copy_list & q & s2 & Hne & Hcl & Hq & Hw & ->).
  destruct (Z.to_nat (default 10%Z max_loop)) as [|n] eqn:Hn; [lia|].
  destruct (rounds_all_return n copy_list q ∅ s2 files Hne Hcl Hq Hok)
    as (s4 & Hrounds & Hseq & Hh4).
  rewrite (bind_Ok _ _ _ _ _ Hrounds).
  rewrite (bind_Ok _ _ _ _ _ (read_lookup _ _ _ Hh4)).
  exists s4. split; [done|]. by rewrite <- Hw.
Qed.

(** On the empty list nothing is run, whatever the bound. *)
Lemma sql_file_loop_empty file_list max_loop s :
  heap s !! file_list = Some [] →
  ∃ s', sql_file_loop command file_list max_loop s = (Ok [], s')
        ∧ world s' = world s.
Proof.
  intros Hfiles.
  destruct (sql_file_loop_unfold file_list max_loop s [] Hfiles)
    as (copy_list & q & s2 & Hne & Hcl & Hq & Hw & ->).
  destruct (rounds_nothing_left (Z.to_nat (default 10%Z max_loop))
              copy_list q ∅ s2 Hne Hcl Hq) as (s4 & Hrounds & Hw4 & Hh4).
  rewrite (bind_Ok _ _ _ _ _ Hrounds).
  rewrite (bind_Ok _ _ _ _ _ (read_lookup _ _ _ Hh4)).
  exists s4. split; [done|]. by rewrite Hw4.
Qed.

(** X4: when the command returns on every listed file, and at least one
    round is run or the list is empty, the command is run on each file
    once, in the order of the list, and [sql_file_loop] returns the empty
    dict. *)
Theorem sql_file_loop_all_succeed file_list max_loop s files :
  heap s !! file_list = Some files →
  (∀ f, f ∈ files → ∀ w, ∃ w', command f w = (Ok tt, w')) →
  (1 ≤ default 10 max_loop)%Z ∨ files = [] →
  ∃ s',
    sql_file_loop command file_list max_loop s = (Ok [], s')
    ∧ for_each files (λ f (_ : unit), command f) tt (world s)
      = (Ok tt, world s').
Proof.
  intros Hfiles Hok [Hmax| ->]; [by apply sql_file_loop_all_return|].
  destruct (sql_file_loop_empty file_list max_loop s Hfiles)
    as (s4 & Hrun & Hw4).
  exists s4. split; [done|]. cbn [for_each]. unfold ret. by rewrite Hw4.
Qed.

(** X5: with a bound of zero or less the command is not run at all, and
    [sql_file_loop] returns every listed file, each once, with an empty
    list of errors. *)
Theorem sql_file_loop_no_round file_list max_loop s files :
  heap s !! file_list = Some files →
  (default 10 max_loop ≤ 0)%Z →
  ∃ failed s',
    sql_file_loop command file_list max_loop s = (Ok failed, s')
    ∧ world s' = world s
    ∧ NoDup (dict_keys failed)
    ∧ (∀ f, f ∈ dict_keys failed ↔ f ∈ files)
    ∧ ∀ f errs, (f, errs) ∈ failed → errs = [].
Proof.
  intros Hfiles Hmax. unfold sql_file_loop.
  rewrite (bind_Ok _ _ _ _ _ (list_copy_run file_list s)), Hfiles.
  cbn [default from_option id].
  set (copy_list := fresh (dom (heap s))).
  set (s1 := State (<[copy_list := files]> (heap s)) (world s)).
  rewrite (bind_Ok _ _ _ _ _ (list_copy_run copy_list s1)).
  assert (Hcl1 : heap s1 !! copy_list = Some files).
  { subst s1. cbn [heap]. by rewrite lookup_insert_eq. }
  rewrite Hcl1. cbn [default from_option id].
  replace (Z.to_nat (default 10%Z max_loop)) with 0 by lia.
  cbn [rounds]. rewrite bind_ret.
  erewrite bind_Ok
    by (apply read_lookup; cbn [heap]; by apply lookup_insert_fresh).
  rewrite return_failed.
  destruct (failed_dict_spec command ∅ files) as (Hnd & Hkeys & Hvals).
  eexists _, _. split; [reflexivity|]. split; [done|].
  split; [done|]. split; [done|].
  intros f errs Hin. rewrite (Hvals _ _ Hin), errors_get_empty.
  apply elements_empty.
Qed.

Lemma for_each_Raise_inv copy_list T : ∀ errors s e s',
  for_each T (loop_body command copy_list) errors s = (Raise e, s') →
  is_Exception e = false
  ∧ ∃ g w w', g ∈ T ∧ command g w = (Raise e, w').
Proof.
  induction T as [|g T IH]; intros errors s e s'; cbn [for_each]; [done|].
  intros [Hb|(errors1 & s1 & _ & Hk)]%bind_Raise_inv.
  - apply loop_body_Raise_inv in Hb as (w' & Hc & He). split; [done|].
    exists g, (world s), w'. split; [apply list_elem_of_here|done].
  - destruct (IH _ _ _ _ Hk) as (He & g' & w & w' & Hg' & Hc).
    split; [done|]. exists g', w, w'.
    split; [by apply list_elem_of_further|done].
Qed.

Lemma loop_body_stays_within (files : list string) copy_list g
    (T : list string) cur errors s errors1 s1 :
  (∀ f, f ∈ cur → f ∈ files) →
  heap s !! copy_list = Some cur →
  loop_body command copy_list g errors s = (Ok errors1, s1) →
  ∃ cur1, heap s1 !! copy_list = Some cur1 ∧ ∀ f, f ∈ cur1 → f ∈ files.
Proof.
  intros Hsub Hcur Hbody.
  destruct (loop_body_Ok_inv _ _ _ _ _ _ _ Hcur Hbody)
    as [(w' & cur' & _ & Hrm & -> & ->)|(m & w' & -> & -> & _)].
  - exists cur'. cbn [heap]. rewrite lookup_insert_eq. split; [done|].
    intros f Hf. by eapply Hsub, remove_first_elem.
  - by exists cur.
Qed.

Lemma rounds_Raise_inv (files : list string) n :
  ∀ copy_list copy_list_loop errors s L e s',
  (∀ f, f ∈ L → f ∈ files) →
  copy_list ≠ copy_list_loop →
  heap s !! copy_list = Some L →
  heap s !! copy_list_loop = Some L →
  rounds command n copy_list copy_list_loop errors s = (Raise e, s') →
  is_Exception e = false
  ∧ ∃ g w w', g ∈ files ∧ command g w = (Raise e, w').
Proof.
  induction n as [|n IH];
    intros copy_list copy_list_loop errors s L e s' Hsub Hne Hcl Hcll;
    cbn [rounds]; [done|].
  rewrite (bind_Ok _ _ _ _ _ (read_lookup _ _ _ Hcll)).
  intros [Hb|(errors1 & s1 & Hloop & Hk)]%bind_Raise_inv.
  - apply for_each_Raise_inv in Hb as (He & g & w & w' & Hg & Hc).
    split; [done|]. exists g, w, w'. split; [by apply Hsub|done].
  - destruct (for_each_loop_invariant
                (λ _ cur _, ∀ f, f ∈ cur → f ∈ files) copy_list
                (loop_body_stays_within files copy_list)
                L L errors s errors1 s1 Hsub Hcl Hloop)
      as (cur1 & Hcur1 & Hsub1).
    rewrite (bind_Ok _ _ _ _ _ (list_copy_run copy_list s1)) in Hk.
    rewrite Hcur1 in Hk. cbn [default from_option id] in Hk.
    set (q := fresh (dom (heap s1))) in *.
    eapply (IH copy_list q errors1 _ cur1); [done| | | |exact Hk].
    + by apply fresh_ne with cur1.
    + cbn [heap]. by apply lookup_insert_fresh.
    + cbn [heap]. by rewrite lookup_insert_eq.
Qed.

Lemma sql_file_loop_Raise_inv file_list max_loop s files e s' :
  heap s !! file_list = Some files →
  sql_file_loop command file_list max_loop s = (Raise e, s') →
  is_Exception e = false
  ∧ ∃ g w w', g ∈ files ∧ command g w = (Raise e, w').
Proof.
  intros Hfiles.
  destruct (sql_file_loop_unfold file_list max_loop s files Hfiles)
    as (copy_list & q & s2 & Hne & Hcl & Hq & Hw & ->).
  intros [Hb|(errors & s3 & _ & Hk)]%bind_Raise_inv.
  - by eapply (rounds_Raise_inv files _ copy_list q ∅ s2 files).
  - apply bind_Raise_inv in Hk as [Hb|(remaining & s4 & _ & Hk)]; [done|].
    by case_decide.
Qed.

(** When the command raises nothing but [Exception]s on the listed
    files, the loop returns. *)
Lemma sql_file_loop_returns file_list max_loop s files :
  heap s !! file_list = Some files →
  (∀ g w e w', g ∈ files → command g w = (Raise e, w') →
               is_Exception e = true) →
  ∃ failed s', sql_file_loop command file_list max_loop s = (Ok failed, s').
Proof.
  intros Hfiles Hexc.
  destruct (sql_file_loop command file_list max_loop s) as [[failed|e] s']
    eqn:Hrun; [by eexists _, _|].
  destruct (sql_file_loop_Raise_inv _ _ _ _ _ _ Hfiles Hrun)
    as (He & g & w & w' & Hg & Hc).
  rewrite (Hexc _ _ _ _ Hg Hc) in He. done.
Qed.

(** X6: [sql_file_loop] raises only what the command raised on one of
    the listed files and [except Exception] does not catch; when the
    command raises nothing but [Exception]s on the listed files, the loop
    returns a dict. *)
Theorem sql_file_loop_raises_what_escapes file_list max_loop s files :
  heap s !! file_list = Some files →
  (∀ e s',
     sql_file_loop command file_list max_loop s = (Raise e, s') →
     is_Exception e = false
     ∧ ∃ g w w', g ∈ files ∧ command g w = (Raise e, w'))
  ∧ ((∀ g w e w', g ∈ files → command g w = (Raise e, w') →
                  is_Exception e = true) →
     ∃ failed s',
       sql_file_loop command file_list max_loop s = (Ok failed, s')).
Proof.
  intros Hfiles. split.
  - intros e s'. by apply sql_file_loop_Raise_inv.
  - by apply sql_file_loop_returns.
Qed.

(** A listed file on which the command raises the same [Exception]
    every time is reported, when at least one round is run, with that
    one error string. *)
Lemma sql_file_loop_constant_failure file_list max_loop s files failed s'
    f e :
  heap s !! file_list = Some files →
  f ∈ files →
  is_Exception e = true →
  (∀ w, ∃ w', command f w = (Raise e, w')) →
  (1 ≤ default 10 max_loop)%Z →
  sql_file_loop command file_list max_loop s = (Ok failed, s') →
  (f, [separator +:+ exn_str e]) ∈ failed.
Proof.
  intros Hfiles Hf He Hfails Hmax Hrun.
  set (x0 := separator +:+ exn_str e).
  set (R0 := λ (L : list string) errors,
         f ∈ L ∧ errors_get errors f ⊆ {[x0]}).
  set (Inv := λ (T cur : list string) errors,
         f ∈ cur ∧ errors_get errors f ⊆ {[x0]}
         ∧ (f ∈ T ∨ x0 ∈ errors_get errors f)).
  set (R1 := λ (L : list string) errors,
         f ∈ L ∧ errors_get errors f ⊆ {[x0]} ∧ x0 ∈ errors_get errors f).
  assert (Hstart : ∀ L errors, R0 L errors → Inv L L errors).
  { intros L errors [HL Hsub]. split; [done|]. split; [done|]. by left. }
  assert (Hstep : ∀ (copy_list : loc) g T cur errors s0 errors1 s1,
            Inv (g :: T) cur errors → heap s0 !! copy_list = Some cur →
            loop_body command copy_list g errors s0 = (Ok errors1, s1) →
            ∃ cur1, heap s1 !! copy_list = Some cur1 ∧ Inv T cur1 errors1).
  { intros copy_list g T cur errors s0 errors1 s1 (Hin & Hsub & Hor) Hcur
      Hbody.
    destruct (loop_body_Ok_inv _ _ _ _ _ _ _ Hcur Hbody)
      as [(w' & cur' & Hc & Hrm & -> & ->)|(m & w' & -> & -> & Hwhy)].
    - assert (g ≠ f) as Hgf.
      { intros ->. destruct (Hfails (world s0)) as (w0 & Hraise).
        congruence. }
      exists cur'. cbn [heap]. rewrite lookup_insert_eq. split; [done|].
      split; [|split; [done|]].
      + apply elem_of_occurrences in Hin. apply elem_of_occurrences.
        rewrite (remove_first_occurrences _ _ _ f Hrm) in Hin.
        by rewrite decide_False in Hin by done.
      + destruct Hor as [[?|?]%elem_of_cons|?]; [congruence|by left|by right].
    - exists cur. split; [done|]. split; [done|].
      rewrite errors_get_add. destruct (decide (f = g)) as [<-|Hfg].
      + assert (m = exn_str e) as ->.
        { destruct (Hfails (world s0)) as (w0 & Hraise).
          destruct Hwhy as [(e' & Hc & _ & ->)|[Hc _]]; congruence. }
        split.
        * intros x [Hx|Hx]%elem_of_union; [by apply Hsub|done].
        * right. apply elem_of_union. right. by apply elem_of_singleton.
      + split; [done|].
        destruct Hor as [[?|?]%elem_of_cons|?]; [done|by left|by right]. }
  assert (Hstop : ∀ cur errors, Inv [] cur errors → R1 cur errors).
  { intros cur errors (Hin & Hsub & [?%elem_of_nil|Hx]); [done|].
    by split. }
  assert (Hagain : ∀ cur errors, R1 cur errors → R0 cur errors).
  { intros cur errors (Hin & Hsub & _). by split. }
  assert (HR0 : R0 files ∅).
  { split; [done|]. rewrite errors_get_empty. apply empty_subseteq. }
  destruct (sql_file_loop_invariant R0 R1 Inv file_list max_loop s files
              failed s' Hstart Hstep Hstop Hagain Hfiles HR0 Hrun)
    as (L' & errors' & -> & Hn).
  destruct (Z.to_nat (default 10%Z max_loop)) eqn:Hz; [lia|].
  destruct Hn as (Hin & Hsub & Hx).
  destruct (failed_dict_spec command errors' L') as (_ & Hkeys & Hvals).
  apply Hkeys in Hin. unfold dict_keys in Hin.
  apply list_elem_of_fmap in Hin as ([f' errs] & Hff' & Hin).
  cbn in Hff'. subst f'. rewrite (Hvals _ _ Hin) in Hin.
  replace (errors_get errors' f) with ({[x0]} : gset string) in Hin.
  - by rewrite elements_singleton in Hin.
  - apply leibniz_equiv. apply set_equiv_subseteq. split; [|done].
    by apply singleton_subseteq_l.
Qed.

End LoopGeneral.

(** ** Dropping and deploying a directory *)

Section DirectoryProperties.
Context {W Engine Ctx : Type}.
Variable B : collaborators W Engine Ctx.
Implicit Types (s : state W) (failed : pydict (list string)).

(** What [drop_sqlfile_objects] does on a directory that exists and can
    be listed. *)
Lemma drop_sqlfile_objects_run engine object_type directory message s
    names w2 :
  let s1 := State (heap s) (om_enter B message (world s)) in
  let files := sql_files_of directory names in
  let file_list := fresh (dom (heap s)) in
  let s3 := State (<[file_list := files]> (heap s)) w2 in
  let command := λ file, drop_sql_from_file B file engine object_type in
  is_dir B directory (world s1) = true →
  listdir B directory (world s1) = (Ok names, w2) →
  drop_sqlfile_objects B engine object_type directory message s
  = match
      (let* failed :=
         sql_file_loop command file_list (Some (Z.of_nat (length files))) in
       if decide (0 < length failed)
       then raise (Exn RuntimeError
                     (error_msg ("Failed to drop the following files:"
                                   +:+ PyStr.nl) failed))
       else ret tt) s3
    with
    | (r, s4) => (r, State (heap s4) (om_exit B message (world s4)))
    end.
Proof.
  intros s1 files file_list s3 command Hdir Hlist.
  unfold drop_sqlfile_objects, with_OperationManager. fold s1.
  rewrite Hdir. cbn [negb].
  erewrite bind_Ok; [|unfold liftW; by rewrite Hlist].
  erewrite bind_Ok by reflexivity.
  erewrite bind_Ok.
  2:{ unfold list_len, read, bind. cbn [heap].
      rewrite lookup_insert_eq. reflexivity. }
  done.
Qed.

(** X7: [drop_sqlfile_objects] on a path that is not a directory logs a
    warning between entering and leaving the operation manager, runs
    nothing else and returns; on a directory that can be listed it raises
    a [RuntimeError] exactly when the retry loop returns a dict that is
    not empty, with a message that contains every failed file and every
    error string recorded for it, and returns when the dict is empty. *)
Theorem drop_sqlfile_objects_outcome engine object_type directory message s
    names w2 :
  let s1 := State (heap s) (om_enter B message (world s)) in
  let files := sql_files_of directory names in
  let file_list := fresh (dom (heap s)) in
  let s3 := State (<[file_list := files]> (heap s)) w2 in
  let command := λ file, drop_sql_from_file B file engine object_type in
  let loop :=
    (sql_file_loop command file_list (Some (Z.of_nat (length files))) s3).1 in
  let result :=
    (drop_sqlfile_objects B engine object_type directory message s).1 in
  let header := "Failed to drop the following files:" +:+ PyStr.nl in
  (is_dir B directory (world s1) = false →
   drop_sqlfile_objects B engine object_type directory message s
   = (Ok tt,
      State (heap s)
        (om_exit B message
           (logger_warning B ("Directory not found: " +:+ directory)
              (world s1)))))
  ∧ (is_dir B directory (world s1) = true →
     listdir B directory (world s1) = (Ok names, w2) →
     ((∃ msg, result = Raise (Exn RuntimeError msg))
      ↔ (∃ failed, loop = Ok failed ∧ failed ≠ []))
     ∧ (∀ failed,
          loop = Ok failed → failed ≠ [] →
          result = Raise (Exn RuntimeError (error_msg header failed))
          ∧ ∀ f errs,
              (f, errs) ∈ failed →
              PyStr.occurs_in f (error_msg header failed)
              ∧ ∀ x, x ∈ errs → PyStr.occurs_in x (error_msg header failed))
     ∧ (loop = Ok [] → result = Ok tt)).
Proof.
  intros s1 files file_list s3 command loop result header. split.
  { intros Hdir. unfold drop_sqlfile_objects, with_OperationManager.
    fold s1. by rewrite Hdir. }
  intros Hdir Hlist.
  assert (Hres : result =
            match loop with
            | Ok [] => Ok tt
            | Ok failed => Raise (Exn RuntimeError (error_msg header failed))
            | Raise e => Raise e
            end).
  { subst result loop.
    rewrite (drop_sqlfile_objects_run _ _ _ _ _ _ _ Hdir Hlist).
    fold files file_list s3 command header. unfold bind.
    destruct (sql_file_loop command file_list _ s3) as [[failed|e] s4];
      [|done].
    by destruct failed. }
  split; [|split].
  - split.
    + intros [msg Hmsg]. rewrite Hres in Hmsg.
      destruct loop as [failed|e] eqn:Hloop.
      * exists failed. split; [done|]. by intros ->.
      * subst loop.
        destruct (sql_file_loop command file_list _ s3) as [r s4] eqn:Hrun.
        cbn [fst] in Hloop. subst r.
        apply sql_file_loop_lets_through in Hrun.
        injection Hmsg as ->. done.
    + intros (failed & Hloop & Hne). rewrite Hres, Hloop.
      destruct failed; [done|]. by eexists.
  - intros failed Hloop Hne. split.
    + rewrite Hres, Hloop. by destruct failed.
    + intros f errs Hin. by apply error_msg_lists.
  - intros Hloop. by rewrite Hres, Hloop.
Qed.

(** The object name is refused by a [RuntimeError] or an [IndexError],
    both of them [Exception]s. *)
Lemma drop_object_name_Exception file object_type e :
  drop_object_name file object_type = Raise e → is_Exception e = true.
Proof.
  unfold drop_object_name, index.
  repeat case_decide; repeat (destruct (_ !! _)); by intros [= <-].
Qed.

(** X8: for an object type other than ['ASSEMBLY'], a [.sql] file of the
    directory whose base name does not have three segments makes
    [drop_sqlfile_objects] fail, provided the statements that are run
    raise nothing but [Exception]s: the file is reported with the naming
    error as its one error string, and the [RuntimeError] raised names
    the file and carries that string. *)
Theorem drop_sqlfile_objects_bad_name engine object_type directory message s
    names w2 bad :
  let s1 := State (heap s) (om_enter B message (world s)) in
  let files := sql_files_of directory names in
  let s3 := State (<[fresh (dom (heap s)) := files]> (heap s)) w2 in
  let command := λ file, drop_sql_from_file B file engine object_type in
  let x := separator
           +:+ ("File " +:+ bad +:+ " not in <schema.object.sql> format.") in
  let header := "Failed to drop the following files:" +:+ PyStr.nl in
  object_type ≠ "ASSEMBLY" →
  is_dir B directory (world s1) = true →
  listdir B directory (world s1) = (Ok names, w2) →
  bad ∈ files →
  length (PyStr.split "."%char (PyStr.basename bad)) ≠ 3 →
  (∀ query w e w',
     execute_try_catch B engine query w = (Raise e, w') →
     is_Exception e = true) →
  ∃ failed,
    (sql_file_loop command (fresh (dom (heap s)))
       (Some (Z.of_nat (length files))) s3).1 = Ok failed
    ∧ (bad, [x]) ∈ failed
    ∧ (drop_sqlfile_objects B engine object_type directory message s).1
      = Raise (Exn RuntimeError (error_msg header failed))
    ∧ PyStr.occurs_in bad (error_msg header failed)
    ∧ PyStr.occurs_in x (error_msg header failed).
Proof.
  intros s1 files s3 command x header Hty Hdir Hlist Hbad Hlen Hexc.
  assert (Hs3 : heap s3 !! fresh (dom (heap s)) = Some files).
  { subst s3. cbn [heap]. by rewrite lookup_insert_eq. }
  destruct (sql_file_loop_returns command (fresh (dom (heap s)))
              (Some (Z.of_nat (length files))) s3 files Hs3)
    as (failed & s4 & Hrun).
  { intros g w e w' _. subst command. cbn beta. unfold drop_sql_from_file.
    destruct (drop_object_name g object_type) as [object_name|e0] eqn:Hname.
    - apply Hexc.
    - intros [= <- _]. by eapply drop_object_name_Exception. }
  exists failed. rewrite Hrun. split; [done|].
  assert (Hin : (bad, [x]) ∈ failed).
  { eapply (sql_file_loop_constant_failure command _ _ _ files failed s4 bad
              (Exn RuntimeError
                 ("File " +:+ bad +:+ " not in <schema.object.sql> format."))
              Hs3 Hbad eq_refl); [| |exact Hrun].
    - intros w. exists w. subst command. cbn beta.
      unfold drop_sql_from_file.
      by rewrite (drop_object_name_bad _ _ Hty Hlen).
    - cbn [default from_option id].
      apply list_elem_of_lookup in Hbad as [i Hi].
      apply lookup_lt_Some in Hi. lia. }
  split; [done|].
  rewrite (drop_sqlfile_objects_run _ _ _ _ _ _ _ Hdir Hlist).
  fold files s3 command header. unfold bind. rewrite Hrun.
  destruct (error_msg_lists header failed bad [x] Hin) as [Hocc Hall].
  split; [|split; [done|]].
  - destruct failed; [by apply elem_of_nil in Hin|done].
  - apply Hall, list_elem_of_here.
Qed.

Lemma deploy_sql_from_file_returns file engine display_output variables w :
  (∀ w, ∃ out w',
     execute_from_file B engine file variables w = (Ok out, w')) →
  ∃ w', deploy_sql_from_file B file engine display_output variables w
        = (Ok tt, w').
Proof.
  intros Hexec. destruct (Hexec w) as (out & w1 & Hw1).
  unfold deploy_sql_from_file. rewrite (bind_Ok _ _ _ _ _ Hw1).
  erewrite bind_Ok by reflexivity. destruct display_output; by eexists.
Qed.

(** X9: when the directory exists and can be listed and every script
    runs without error, [deploy_sqlfiles] returns [True] after running
    each [.sql] file of the listing once, in the order of the listing,
    and nothing else of the listing; the operation manager is left last. *)
Theorem deploy_sqlfiles_all_succeed engine directory message display_output
    variables s names w2 :
  let s1 := State (heap s) (om_enter B message (world s)) in
  let files := sql_files_of directory names in
  let command := λ file,
    deploy_sql_from_file B file engine display_output variables in
  is_dir B directory (world s1) = true →
  listdir B directory (world s1) = (Ok names, w2) →
  (∀ file w, ∃ out w',
     execute_from_file B engine file variables w = (Ok out, w')) →
  ∃ w3 s',
    for_each files (λ f (_ : unit), command f) tt w2 = (Ok tt, w3)
    ∧ deploy_sqlfiles B engine directory message display_output variables s
      = (Ok true, s')
    ∧ world s' = om_exit B message w3.
Proof.
  intros s1 files command Hdir Hlist Hexec.
  rewrite (deploy_sqlfiles_run _ _ _ _ _ _ _ _ _ Hdir Hlist).
  fold files command.
  set (s3 := State (<[fresh (dom (heap s)) := files]> (heap s)) w2).
  assert (Hs3 : heap s3 !! fresh (dom (heap s)) = Some files).
  { subst s3. cbn [heap]. by rewrite lookup_insert_eq. }
  assert (Hall : ∃ s4,
            sql_file_loop command (fresh (dom (heap s)))
              (Some (Z.of_nat (length files))) s3 = (Ok [], s4)
            ∧ for_each files (λ f (_ : unit), command f) tt w2
              = (Ok tt, world s4)).
  { destruct (decide (files = [])) as [Hnil|Hcons].
    - rewrite Hnil in Hs3 |- *.
      destruct (sql_file_loop_empty command (fresh (dom (heap s)))
                  (Some (Z.of_nat (length (@nil string)))) s3 Hs3)
        as (s4 & Hrun & Hw4).
      exists s4. split; [done|]. cbn [for_each]. unfold ret.
      by rewrite Hw4.
    - apply (sql_file_loop_all_return command _ _ s3 files Hs3).
      + intros f _ w. by apply deploy_sql_from_file_returns.
      + cbn [default from_option id].
        destruct files; [done|]. cbn [length]. lia. }
  destruct Hall as (s4 & Hrun & Hseq).
  exists (world s4). eexists. split; [done|].
  rewrite (bind_Ok _ _ _ _ _ Hrun). cbn. done.
Qed.

End DirectoryProperties.

(** ** The registry, further *)

Section RegistryMore.
Context {W Engine Ctx Args : Type}.
Variable B : collaborators W Engine Ctx.
Implicit Types (reg : registry W Ctx Args) (func : pyfunc W Ctx Args)
               (r self : ActionRegisteration W Ctx Args)
               (rs : list (ActionRegisteration W Ctx Args)).

Lemma keyed_by_name_register self reg :
  keyed_by_name reg → keyed_by_name (register self reg).
Proof.
  intros Hreg k r. unfold register.
  destruct (decide (k = name self)) as [->|Hk].
  - rewrite lookup_insert_eq. by intros [= <-].
  - rewrite lookup_insert_ne by done. apply Hreg.
Qed.

Lemma create_multiaction_Ok_inv action_name subactions description reg
    func reg' :
  create_multiaction action_name subactions description reg = Ok (func, reg') →
  ∃ rs self,
    lookup_all reg subactions = Ok rs
    ∧ name self = action_name
    ∧ function self = func
    ∧ affects_database self = existsb affects_database rs
    ∧ baseactions self = ⋃ (baseactions <$> rs)
    ∧ dependencies self = ⋃ (dependencies <$> rs) ∖ ⋃ (baseactions <$> rs)
    ∧ reg' = register self reg.
Proof.
  unfold create_multiaction.
  destruct (lookup_all reg subactions) as [rs|e]; [|done].
  cbv zeta. cbn [ActionRegisteration_init snd]. intros [= <- <-].
  exists rs.
  by exists {| function :=
                 {| f_name := "func";
                    f_doc := Some description;
                    f_call := λ context args,
                      let* returns := call_all rs context args in
                      ret (VList returns) |};
               name := action_name;
               affects_database := existsb affects_database rs;
               dependencies :=
                 ⋃ (dependencies <$> rs) ∖ ⋃ (baseactions <$> rs);
               baseactions := ⋃ (baseactions <$> rs) |}.
Qed.

(** X13: the registry keeps every action under the action's own name:
    this holds of the empty registry and is kept by [register], by the
    constructor, by the [action] decorator and by [create_multiaction]. *)
Theorem registry_keyed_by_name reg :
  keyed_by_name (∅ : registry W Ctx Args)
  ∧ (keyed_by_name reg →
     (∀ self, keyed_by_name (register self reg))
     ∧ (∀ func n a d b,
          keyed_by_name (ActionRegisteration_init func n a d b reg).2)
     ∧ (∀ n a d func, keyed_by_name (action n a d func reg).2)
     ∧ (∀ action_name subactions description func reg',
          create_multiaction action_name subactions description reg
            = Ok (func, reg') →
          keyed_by_name reg')).
Proof.
  split; [by intros k r ?%lookup_empty_Some|].
  intros Hreg. split; [|split; [|split]].
  - intros self. by apply keyed_by_name_register.
  - intros func n a d b. by apply keyed_by_name_register.
  - intros n a d func. by apply keyed_by_name_register.
  - intros action_name subactions description func reg'
      (rs & self & _ & _ & _ & _ & _ & _ & ->)%create_multiaction_Ok_inv.
    by apply keyed_by_name_register.
Qed.

Lemma lookup_all_Ok_inv reg subactions rs :
  lookup_all reg subactions = Ok rs →
  Forall2 (λ sa r, reg !! sa = Some r) subactions rs.
Proof.
  revert rs. induction subactions as [|sa subactions IH]; intros rs; cbn.
  - intros [= <-]. constructor.
  - destruct (reg !! sa) as [r|] eqn:Hr; [|done].
    destruct (lookup_all reg subactions) as [rs'|]; [|done].
    intros [= <-]. constructor; [done|by apply IH].
Qed.

Lemma lookup_all_unregistered reg pre sa post :
  Forall (λ x, is_Some (reg !! x)) pre →
  reg !! sa = None →
  lookup_all reg (pre ++ sa :: post) = Raise (Exn KeyError ("'" +:+ sa +:+ "'")).
Proof.
  intros Hpre Hsa. induction Hpre as [|x pre [r Hr] _ IH]; cbn.
  - by rewrite Hsa.
  - by rewrite Hr, IH.
Qed.

(** X12: [create_multiaction] succeeds exactly when every subaction is
    registered; otherwise it raises a [KeyError] for the first subaction
    of the list that is not. *)
Theorem create_multiaction_unregistered action_name subactions description
    reg :
  ((∃ func reg',
      create_multiaction action_name subactions description reg
        = Ok (func, reg'))
   ↔ Forall (λ sa, is_Some (reg !! sa)) subactions)
  ∧ ∀ pre sa post,
      subactions = pre ++ sa :: post →
      Forall (λ x, is_Some (reg !! x)) pre →
      reg !! sa = None →
      create_multiaction action_name subactions description reg
      = Raise (Exn KeyError ("'" +:+ sa +:+ "'")).
Proof.
  split.
  - split.
    + intros (func & reg' & Hok).
      apply create_multiaction_Ok_inv in Hok as (rs & _ & Hrs & _).
      apply lookup_all_Ok_inv in Hrs.
      induction Hrs as [|sa r subactions' rs' Hr _ IH]; constructor; [|done].
      by exists r.
    + intros Hall.
      destruct (lookup_all_registered reg subactions Hall) as (rs & Hrs & _).
      unfold create_multiaction. rewrite Hrs. cbn. by eexists _, _.
  - intros pre sa post -> Hpre Hsa. unfold create_multiaction.
    by rewrite (lookup_all_unregistered _ _ _ _ Hpre Hsa).
Qed.

Lemma union_list_singletons (names : list string) :
  ⋃ ((λ n, {[n]}) <$> names) = (list_to_set names : gset string).
Proof.
  induction names as [|n names IH]; [done|]. cbn. by rewrite IH.
Qed.

(** X14: a multiaction of registered primitive actions (each with its
    own name as its only part) has the set of the subaction names as its
    parts, and as dependencies those of the subactions that are not among
    the subactions; it depends on none of its parts. *)
Theorem create_multiaction_of_primitives action_name subactions description
    reg :
  keyed_by_name reg →
  Forall (λ sa, ∃ r, reg !! sa = Some r ∧ baseactions r = {[name r]})
         subactions →
  ∃ func reg' rs self,
    create_multiaction action_name subactions description reg
      = Ok (func, reg')
    ∧ Forall2 (λ sa r, reg !! sa = Some r) subactions rs
    ∧ reg' !! action_name = Some self
    ∧ baseactions self = list_to_set subactions
    ∧ dependencies self
      = ⋃ (dependencies <$> rs) ∖ list_to_set subactions
    ∧ dependencies self ## baseactions self.
Proof.
  intros Hkeyed Hprim.
  assert (Hall : Forall (λ sa, is_Some (reg !! sa)) subactions).
  { eapply Forall_impl; [exact Hprim|]. intros sa (r & Hr & _). by exists r. }
  destruct (lookup_all_registered reg subactions Hall) as (rs & Hrs & Hrs2).
  assert (Hbase : ⋃ (baseactions <$> rs) = (list_to_set subactions : gset string)).
  { rewrite <- union_list_singletons. f_equal.
    clear Hrs Hall. induction Hrs2 as [|sa r subactions' rs' Hr _ IH];
      [done|].
    apply Forall_cons in Hprim as [(r' & Hr' & Hb) Hprim].
    cbn. rewrite IH by done. f_equal.
    assert (r' = r) as -> by congruence.
    by rewrite Hb, (Hkeyed _ _ Hr). }
  unfold create_multiaction. rewrite Hrs. cbn.
  eexists _, _, rs, _. split; [reflexivity|]. split; [done|].
  split; [unfold register; cbn; by rewrite lookup_insert_eq|]. cbn.
  rewrite Hbase. split; [done|]. split; [done|].
  apply disjoint_difference_l1. done.
Qed.

Lemma replace_no_underscore (s : string) :
  "_" ∉ PyStr.chars (PyStr.replace "_"%char "-"%char s).
Proof.
  induction s as [|c s IH]; cbn; [apply not_elem_of_nil|].
  apply not_elem_of_cons. split; [|done].
  case_decide as Hc; [done|]. intros [= Heq]. by apply Hc.
Qed.

(** X15: the [action] decorator returns the function it is given and
    registers it as a primitive action: under the given name, or under
    the function's name with every underscore turned into a dash; with
    the given flag, the dependencies as a set and the name as only part.
    The other names of the registry are as before, and the registered
    name passes [check_action_validity] whenever it is allowed. *)
Theorem action_registers (n : option string) (a : bool) (d : list string)
    func reg (l : list string) (s : state W) :
  let action_name :=
    match n with
    | Some n' => n'
    | None => PyStr.replace "_"%char "-"%char (f_name func)
    end in
  let reg' := (action n a d func reg).2 in
  (action n a d func reg).1 = func
  ∧ (∃ r, reg' !! action_name = Some r
          ∧ function r = func ∧ name r = action_name
          ∧ affects_database r = a
          ∧ dependencies r = list_to_set d
          ∧ baseactions r = {[action_name]})
  ∧ (∀ m, m ≠ action_name → reg' !! m = reg !! m)
  ∧ (n = None → "_" ∉ PyStr.chars action_name)
  ∧ (action_name ∈ l ∨ "ALL" ∈ l →
     (check_action_validity B action_name (AllowedList l) reg' s).1 = Ok true).
Proof.
  intros action_name reg'. split; [done|].
  assert (Hlk : reg' !! action_name
                = Some {| function := func; name := action_name;
                          affects_database := a;
                          dependencies := list_to_set d;
                          baseactions := {[action_name]} |}).
  { subst reg'. unfold action, ActionRegisteration_init, register. cbn.
    by rewrite lookup_insert_eq. }
  split; [by eexists|]. split; [|split].
  - intros m Hm. subst reg'. unfold action, ActionRegisteration_init,
      register. cbn. by rewrite lookup_insert_ne.
  - intros ->. apply replace_no_underscore.
  - intros Hallowed. rewrite check_action_validity_result. cbn [py_in].
    f_equal. apply andb_true_iff. split; [apply andb_true_iff; split|].
    + apply orb_true_iff. destruct Hallowed as [?|?];
        [left|right]; by apply bool_decide_eq_true.
    + apply bool_decide_eq_true. intros Hsz%map_size_empty_iff.
      by rewrite Hsz, lookup_empty in Hlk.
    + apply bool_decide_eq_true. by rewrite Hlk.
Qed.

End RegistryMore.

(** ** Listing the actions *)

Section ListingProperties.
Context {W Engine Ctx Args : Type}.
Variable B : collaborators W Engine Ctx.
Implicit Types (reg : registry W Ctx Args) (s : state W).

#[local] Instance key_le_total :
  Total (key_le (W:=W) (Ctx:=Ctx) (Args:=Args)).
Proof. intros x y. unfold key_le. apply (total String.le). Qed.

#[local] Instance key_le_trans :
  Transitive (key_le (W:=W) (Ctx:=Ctx) (Args:=Args)).
Proof. intros x y z. unfold key_le. apply transitivity. Qed.

Lemma for_each_log {A} (line : A → string) (l : list A) s :
  for_each l (λ x (_ : unit), log (logger_info B) (line x)) tt s
  = (Ok tt,
     State (heap s)
       (foldl (λ w msg, logger_info B msg w) (world s) (line <$> l))).
Proof.
  revert s. induction l as [|x l IH]; intros s; cbn [for_each].
  - by destruct s.
  - erewrite bind_Ok by reflexivity. by rewrite IH.
Qed.

(** X16: [list_actions] logs three heading lines and then one line for
    each registered action, each action once, in ascending order of the
    names; it touches nothing but the log. *)
Theorem list_actions_sorted reg s :
  list_actions B reg s
  = (Ok tt,
     State (heap s)
       (foldl (λ w msg, logger_info B msg w) (world s)
          (["-------------------------------"; "List of available actions";
            "-------------------------------"]
           ++ (listing_line <$> sorted_items reg))))
  ∧ (∀ k r, (k, r) ∈ sorted_items reg ↔ reg !! k = Some r)
  ∧ NoDup (sorted_items reg).*1
  ∧ StronglySorted String.le (sorted_items reg).*1
  ∧ length (sorted_items reg) = size reg.
Proof.
  assert (Hperm : sorted_items reg ≡ₚ map_to_list reg)
    by apply merge_sort_Permutation.
  split; [|split; [|split; [|split]]].
  - unfold list_actions.
    do 3 (erewrite bind_Ok by reflexivity).
    rewrite for_each_log. cbn [heap world]. by rewrite foldl_app.
  - intros k r. rewrite Hperm. apply elem_of_map_to_list.
  - rewrite Hperm. apply NoDup_fst_map_to_list.
  - apply (StronglySorted_fmap fst key_le); [done|].
    apply StronglySorted_merge_sort; apply _.
  - rewrite Hperm. apply length_map_to_list.
Qed.

End ListingProperties.

(** ** Strings, further *)

Section StringMore.
Implicit Types (s a b x : string) (c sep : ascii).

Lemma prefix_spec a s :
  String.prefix a s = true ↔ ∃ post, s = a +:+ post.
Proof.
  revert s. induction a as [|c a IH]; intros s; cbn.
  - split; [by exists s|by destruct s].
  - destruct s as [|c' s]; [split; [done|by intros [? ?]]|].
    change (String.prefix (String c a) (String c' s))
      with (if Ascii.ascii_dec c c' then String.prefix a s else false).
    destruct (Ascii.ascii_dec c c') as [->|Hc].
    + rewrite IH. split; intros [post Hp]; exists post.
      * by rewrite Hp, str_app_String.
      * rewrite str_app_String in Hp. by injection Hp.
    + split; [done|]. intros [post Hp].
      rewrite str_app_String in Hp. congruence.
Qed.

(** [x in s] holds exactly when [x] is a piece of [s]. *)
Lemma contains_spec s x :
  PyStr.contains s x = true ↔ PyStr.occurs_in x s.
Proof.
  induction s as [|c s IH]; cbn [PyStr.contains].
  - rewrite orb_false_r, prefix_spec. split.
    + intros [post ->]. exists EmptyString, post. done.
    + intros (pre & post & Heq).
      destruct pre; [exists post; exact Heq|].
      by rewrite str_app_String in Heq.
  - rewrite orb_true_iff, prefix_spec, IH. split.
    + intros [[post ->]|(pre & post & ->)].
      * by exists EmptyString, post.
      * by exists (String c pre), post.
    + intros (pre & post & Heq). destruct pre as [|c' pre].
      * left. exists post. exact Heq.
      * right. rewrite str_app_String in Heq. injection Heq as -> ->.
        by exists pre, post.
Qed.

Lemma join_cons sep_str p q (ps : list string) :
  PyStr.join sep_str (p :: q :: ps) = p +:+ sep_str +:+ PyStr.join sep_str (q :: ps).
Proof. done. Qed.

(** Joining the segments of a split gives the string back. *)
Lemma join_split sep s :
  PyStr.join (String sep EmptyString) (PyStr.split sep s) = s.
Proof.
  induction s as [|c s IH]; [done|]. cbn [PyStr.split].
  destruct (split_cons sep s) as (p & ps & Hs). rewrite Hs in IH |- *.
  case_decide as Hc.
  - subst c. rewrite join_cons, IH. done.
  - destruct ps as [|q ps].
    + cbn in IH |- *. by rewrite IH.
    + rewrite join_cons in IH. rewrite join_cons.
      by rewrite str_app_String, IH.
Qed.

(** No segment of a split holds the separator. *)
Lemma split_no_sep sep s p :
  p ∈ PyStr.split sep s → String sep EmptyString ∉ PyStr.chars p.
Proof.
  revert p. induction s as [|c s IH]; intros p; cbn [PyStr.split].
  - intros ->%list_elem_of_singleton. apply not_elem_of_nil.
  - destruct (split_cons sep s) as (q & qs & Hs). rewrite Hs in IH |- *.
    case_decide as Hc.
    + intros [->|Hp]%elem_of_cons; [apply not_elem_of_nil|by apply IH].
    + intros [->|Hp]%elem_of_cons.
      * cbn. apply not_elem_of_cons. split.
        -- intros [= Heq]. by apply Hc.
        -- apply IH, list_elem_of_here.
      * by apply IH, list_elem_of_further.
Qed.

End StringMore.

(** ** Executing an action, further *)

Section ExecuteMore.
Context {W Engine Ctx Args : Type}.
Variable B : collaborators W Engine Ctx.
Implicit Types (reg : registry W Ctx Args)
               (action : ActionRegisteration W Ctx Args) (s : state W).

(** The check returns, and writes to the log only. *)
Lemma check_action_validity_run action_name allowed_actions reg s :
  ∃ b w, check_action_validity B action_name allowed_actions reg s
         = (Ok b, State (heap s) w).
Proof.
  unfold check_action_validity.
  destruct (negb _ && negb _); [by eexists _, _|].
  case_decide; [by eexists _, _|].
  destruct (reg !! action_name); [|by eexists _, _].
  destruct s. by eexists _, _.
Qed.

Lemma execute_action_unfold action_name config_filename (args : Args) reg s
    context w2 :
  Context_init B config_filename
    (om_enter B (starting_message action_name)
       (logger_info B "------" (world s))) = (Ok context, w2) →
  execute_action B action_name config_filename args reg s
  = (let* block :=
       (λ s0,
          match
            (let* valid :=
               check_action_validity B action_name
                 (default (AllowedList [])
                    (configuration_allowed_actions B context)) reg in
             if negb valid then ret (Return VNone)
             else
               match reg !! action_name with
               | None =>
                   raise (Exn AttributeError
                     "'NoneType' object has no attribute 'pre_exec_check'")
               | Some action =>
                   let* go := pre_exec_check B action context in
                   if negb go then ret (Return VNone)
                   else ret (Next (context, action))
               end) s0
          with
          | (r, s2) =>
              (r, State (heap s2)
                    (om_exit B (starting_message action_name) (world s2)))
          end) in
     match block with
     | Return v => ret v
     | Next (context, action) => f_call (function action) context args
     end) (State (heap s) w2).
Proof.
  intros Hctx. unfold execute_action.
  rewrite (bind_Ok _ _ _ _ _ (log_run _ _ _)).
  unfold bind at 1. unfold with_OperationManager. cbn [heap world].
  unfold bind at 1. unfold liftW at 1. cbn [heap world].
  rewrite Hctx. done.
Qed.

(** X10: a name that the configuration does not allow, or that is not
    registered, is not executed: once the context is built,
    [execute_action] returns [None] without raising, and what it has done
    is what the validity check logs, closed by the operation manager; no
    question is asked and no action function is called. *)
Theorem execute_action_refuses action_name config_filename (args : Args) reg
    context s w2 :
  let w1 := om_enter B (starting_message action_name)
              (logger_info B "------" (world s)) in
  let allowed_actions :=
    default (AllowedList []) (configuration_allowed_actions B context) in
  Context_init B config_filename w1 = (Ok context, w2) →
  (py_in action_name allowed_actions || py_in "ALL" allowed_actions) = false
  ∨ reg !! action_name = None →
  execute_action B action_name config_filename args reg s
  = (Ok VNone,
     State (heap s)
       (om_exit B (starting_message action_name)
          (world (check_action_validity B action_name allowed_actions reg
                    (State (heap s) w2)).2))).
Proof.
  intros w1 allowed_actions Hctx Hno.
  rewrite (execute_action_unfold _ _ _ _ _ _ _ Hctx). fold allowed_actions.
  pose proof (check_action_validity_result B action_name allowed_actions reg
                (State (heap s) w2)) as Hres.
  destruct (check_action_validity_run action_name allowed_actions reg
              (State (heap s) w2)) as (b & w & Hrun).
  rewrite Hrun in Hres |- *. cbn [fst snd world heap] in Hres |- *.
  assert (b = false) as ->.
  { injection Hres as ->. destruct Hno as [-> | ->]; [done|].
    rewrite (bool_decide_eq_false_2 (is_Some None)) by (by intros [? ?]).
    by rewrite andb_false_r. }
  unfold bind at 1. unfold bind at 1. rewrite Hrun. done.
Qed.

(** X11: a name that is allowed and registered, whose [pre_exec_check]
    passes, is executed: the result of [execute_action], value or
    exception, is that of the action's function, called with the context
    and the arguments once the operation manager has been left. *)
Theorem execute_action_runs_function action_name config_filename (args : Args)
    reg action context s w2 s4 :
  let w1 := om_enter B (starting_message action_name)
              (logger_info B "------" (world s)) in
  let allowed_actions :=
    default (AllowedList []) (configuration_allowed_actions B context) in
  Context_init B config_filename w1 = (Ok context, w2) →
  (py_in action_name allowed_actions || py_in "ALL" allowed_actions) = true →
  reg !! action_name = Some action →
  pre_exec_check B action context (State (heap s) w2) = (Ok true, s4) →
  execute_action B action_name config_filename args reg s
  = f_call (function action) context args
      (State (heap s4) (om_exit B (starting_message action_name) (world s4))).
Proof.
  intros w1 allowed_actions Hctx Hallowed Hreg Hgo.
  rewrite (execute_action_unfold _ _ _ _ _ _ _ Hctx). fold allowed_actions.
  assert (Hvalid : (check_action_validity B action_name allowed_actions reg
                      (State (heap s) w2)).1 = Ok true).
  { rewrite check_action_validity_result, Hallowed, Hreg.
    rewrite bool_decide_eq_true_2
      by (intros Hz; apply size_registry_zero in Hz; by rewrite Hz in Hreg).
    by rewrite bool_decide_eq_true_2 by (by eexists). }
  apply check_action_validity_true in Hvalid.
  unfold bind at 1. unfold bind at 1. rewrite Hvalid. cbn [negb].
  rewrite Hreg. unfold bind at 1. rewrite Hgo. done.
Qed.

(** X17: when the configuration gives [allowed_actions] as one string, the
    membership test is a substring test: the check passes exactly when the
    name, or [ALL], is a piece of that string and the name is registered. *)
Theorem check_action_validity_string action_name (a : string) reg s :
  (check_action_validity B action_name (AllowedStr a) reg s).1 = Ok true
  ↔ (PyStr.occurs_in action_name a ∨ PyStr.occurs_in "ALL" a)
    ∧ is_Some (reg !! action_name).
Proof.
  rewrite check_action_validity_result. cbn [py_in].
  rewrite <- !contains_spec. split.
  - intros [= Hb]. apply andb_prop in Hb as [Hb Hsome].
    apply andb_prop in Hb as [Hin _].
    apply orb_prop in Hin. by apply bool_decide_eq_true in Hsome.
  - intros [Hin Hsome]. f_equal.
    rewrite (bool_decide_eq_true_2 (is_Some _)) by done.
    rewrite bool_decide_eq_true_2.
    + rewrite !andb_true_r. by apply orb_true_iff.
    + intros Hz. apply size_registry_zero in Hz. rewrite Hz in Hsome.
      by destruct Hsome.
Qed.

End ExecuteMore.

(** ** File names: segments, suffixes and paths *)

Section PathProperties.
Implicit Types (s a b n r : string) (c sep : ascii).

(** A piece without the separator, followed by the separator, is the
    first segment. *)
Lemma split_app_sep sep a r :
  (String sep EmptyString ∉ PyStr.chars a) →
  PyStr.split sep (a +:+ String sep r) = a :: PyStr.split sep r.
Proof.
  induction a as [|c a IH]; intros Hfree.
  - rewrite str_app_empty_l. cbn [PyStr.split]. by rewrite decide_True.
  - cbn [PyStr.chars] in Hfree. apply not_elem_of_cons in Hfree as [Hc Hfree].
    rewrite str_app_String. cbn [PyStr.split].
    rewrite decide_False by (by intros ->). by rewrite IH.
Qed.

Lemma split_free sep a :
  (String sep EmptyString ∉ PyStr.chars a) → PyStr.split sep a = [a].
Proof.
  induction a as [|c a IH]; intros Hfree; [done|].
  cbn [PyStr.chars] in Hfree. apply not_elem_of_cons in Hfree as [Hc Hfree].
  cbn [PyStr.split]. rewrite decide_False by (by intros ->). by rewrite IH.
Qed.

(** The first segment of a split. *)
Lemma split_first sep s a (rest : list string) :
  PyStr.split sep s = a :: rest →
  (String sep EmptyString ∉ PyStr.chars a)
  ∧ (s = a ∨ ∃ r, s = a +:+ String sep r).
Proof.
  intros Hs. split.
  - apply (split_no_sep sep s). rewrite Hs. apply list_elem_of_here.
  - pose proof (join_split sep s) as Hj. rewrite Hs in Hj.
    destruct rest as [|b rest]; [by left|].
    right. exists (PyStr.join (String sep EmptyString) (b :: rest)).
    by rewrite <- Hj.
Qed.

(** Three segments, as a shape of the string. *)
Lemma split_three sep s a b e :
  PyStr.split sep s = [a; b; e]
  ↔ s = a +:+ String sep (b +:+ String sep e)
    ∧ (String sep EmptyString ∉ PyStr.chars a)
    ∧ (String sep EmptyString ∉ PyStr.chars b)
    ∧ (String sep EmptyString ∉ PyStr.chars e).
Proof.
  split.
  - intros Hs. split; [|split; [|split]].
    + pose proof (join_split sep s) as Hj. by rewrite Hs in Hj.
    + apply (split_no_sep sep s). rewrite Hs. set_solver.
    + apply (split_no_sep sep s). rewrite Hs. set_solver.
    + apply (split_no_sep sep s). rewrite Hs. set_solver.
  - intros (-> & Ha & Hb & He).
    by rewrite !split_app_sep, split_free.
Qed.

(** X18: for an object type other than ['ASSEMBLY'], a name is found
    exactly when the base name of the file is made of three pieces without
    a dot, joined by two dots, and the name is then the first two pieces
    with their dot: the third piece, the extension, is not looked at. *)
Theorem drop_object_name_shape (file object_type name : string) :
  object_type ≠ "ASSEMBLY" →
  drop_object_name file object_type = Ok name
  ↔ ∃ schema object ext,
      PyStr.basename file = schema +:+ "." +:+ object +:+ "." +:+ ext
      ∧ ("." ∉ PyStr.chars schema)
      ∧ ("." ∉ PyStr.chars object)
      ∧ ("." ∉ PyStr.chars ext)
      ∧ name = schema +:+ "." +:+ object.
Proof.
  intros Hty. split.
  - unfold drop_object_name. rewrite decide_False by done.
    case_decide as Hlen; [done|].
    destruct (PyStr.split "."%char (PyStr.basename file))
      as [|schema [|object [|ext [|]]]] eqn:Hparts;
      try done.
    cbn. intros [= <-]. exists schema, object, ext.
    apply split_three in Hparts as (Hb & ? & ? & ?). done.
  - intros (schema & object & ext & Hb & Hs & Ho & He & ->).
    apply (drop_object_name_schema _ _ schema object ext); [done|].
    apply split_three. done.
Qed.

(** X19: for the object type ['ASSEMBLY'] the name is what comes before
    the first dot of the base name, or the whole base name when it has no
    dot. *)
Theorem drop_object_name_assembly (file name : string) :
  drop_object_name file "ASSEMBLY" = Ok name
  ↔ ("." ∉ PyStr.chars name)
    ∧ (PyStr.basename file = name
       ∨ ∃ rest, PyStr.basename file = name +:+ "." +:+ rest).
Proof.
  unfold drop_object_name. rewrite decide_True by done.
  destruct (split_cons "."%char (PyStr.basename file)) as (first & rest & Hp).
  rewrite Hp. cbn. split.
  - intros [= <-]. by apply split_first in Hp.
  - intros [Hfree [Hb|[r Hb]]]; rewrite Hb in Hp.
    + rewrite split_free in Hp by done. by injection Hp as <- _.
    + change (name +:+ "." +:+ r) with (name +:+ String "."%char r) in Hp.
      rewrite split_app_sep in Hp by done. by injection Hp as <- _.
Qed.

Lemma rev_app_spec a b : String.rev_app a b = String.rev a +:+ b.
Proof.
  revert b. induction a as [|c a IH]; intros b; [done|].
  unfold String.rev. cbn [String.rev_app].
  by rewrite (IH (String c b)), (IH (String c EmptyString)), str_app_assoc.
Qed.

Lemma rev_String c a : String.rev (String c a) = String.rev a +:+ String c EmptyString.
Proof. unfold String.rev at 1. cbn [String.rev_app]. apply rev_app_spec. Qed.

Lemma rev_str_app a b : String.rev (a +:+ b) = String.rev b +:+ String.rev a.
Proof.
  induction a as [|c a IH].
  - by rewrite str_app_empty_l, str_app_empty_r.
  - by rewrite str_app_String, !rev_String, IH, str_app_assoc.
Qed.

Lemma rev_rev a : String.rev (String.rev a) = a.
Proof.
  induction a as [|c a IH]; [done|].
  by rewrite rev_String, rev_str_app, IH.
Qed.

(** [s.endswith(suf)] holds exactly when [s] ends with [suf]. *)
Lemma endswith_spec s a :
  PyStr.endswith s a = true ↔ ∃ pre, s = pre +:+ a.
Proof.
  unfold PyStr.endswith. rewrite prefix_spec. split.
  - intros [post Hp]. exists (String.rev post).
    by rewrite <- (rev_rev s), Hp, rev_str_app, rev_rev.
  - intros [pre ->]. exists (String.rev pre). apply rev_str_app.
Qed.

Lemma last_app_ne {A} (init l : list A) (d : A) :
  l ≠ [] → List.last (init ++ l) d = List.last l d.
Proof.
  intros Hl. induction init as [|x init IH]; [done|].
  cbn [app List.last]. rewrite <- IH.
  destruct (init ++ l) eqn:Heq; [|done].
  apply app_eq_nil in Heq as [_ ?]. done.
Qed.

Lemma split_after_sep sep a n :
  ∃ p init,
    PyStr.split sep (a +:+ String sep n) = (p :: init) ++ PyStr.split sep n.
Proof.
  induction a as [|c a (p & init & IH)].
  - exists EmptyString, []. rewrite str_app_empty_l. cbn [PyStr.split].
    by rewrite decide_True.
  - rewrite str_app_String. cbn [PyStr.split]. rewrite IH.
    case_decide; [by exists EmptyString, (p :: init)|].
    by exists (String c p), init.
Qed.

(** The base name of a path is that of what follows a slash. *)
Lemma basename_after_slash a n :
  PyStr.basename (a +:+ String "/"%char n) = PyStr.basename n.
Proof.
  unfold PyStr.basename.
  destruct (split_after_sep "/"%char a n) as (p & init & ->).
  apply last_app_ne.
  destruct (split_cons "/"%char n) as (q & qs & ->). done.
Qed.

Lemma basename_free n :
  ("/" ∉ PyStr.chars n) → PyStr.basename n = n.
Proof. intros Hfree. unfold PyStr.basename. by rewrite split_free. Qed.

Lemma startswith_spec s a :
  PyStr.startswith s a = true ↔ ∃ post, s = a +:+ post.
Proof. apply prefix_spec. Qed.

(** X21: joining a directory and a file name as the listing of a
    directory gives it, without a slash, and taking the base name gives
    the file name back: the name that [deploy_sql_from_file] logs and the
    name that [drop_sql_from_file] splits is the listed one, whatever the
    directory. *)
Theorem basename_path_join (directory n : string) :
  ("/" ∉ PyStr.chars n) →
  PyStr.basename (PyStr.path_join directory n) = n.
Proof.
  intros Hfree. unfold PyStr.path_join.
  destruct (PyStr.startswith n "/"); [by apply basename_free|].
  case_decide as Hd.
  - subst directory. rewrite str_app_empty_l. by apply basename_free.
  - destruct (PyStr.endswith directory "/") eqn:Hend.
    + apply endswith_spec in Hend as [pre ->].
      rewrite str_app_assoc.
      change ("/" +:+ n) with (String "/"%char n).
      rewrite basename_after_slash. by apply basename_free.
    + change (directory +:+ "/" +:+ n)
        with (directory +:+ String "/"%char n).
      rewrite basename_after_slash. by apply basename_free.
Qed.

(** X20: the files that [deploy_sqlfiles] and [drop_sqlfile_objects] work
    on are the names of the listing that end in [.sql], each joined to the
    directory, and no other; they come in the order of the listing. *)
Theorem sql_files_of_spec (directory : string) (names : list string) :
  (∀ file,
     file ∈ sql_files_of directory names
     ↔ ∃ stem, stem +:+ ".sql" ∈ names
               ∧ file = PyStr.path_join directory (stem +:+ ".sql"))
  ∧ (∀ names', sql_files_of directory (names ++ names')
               = sql_files_of directory names
                 ++ sql_files_of directory names')
  ∧ (∀ n, sql_files_of directory [n]
          = if PyStr.endswith n ".sql"
            then [PyStr.path_join directory n] else []).
Proof.
  unfold sql_files_of. split; [|split].
  - intros file. rewrite list_elem_of_fmap. split.
    + intros (n & -> & Hn). apply list_elem_of_filter in Hn as [Hend Hn].
      apply endswith_spec in Hend as [stem ->]. by exists stem.
    + intros (stem & Hn & ->). exists (stem +:+ ".sql"). split; [done|].
      apply list_elem_of_filter. split; [|done].
      apply endswith_spec. by exists stem.
  - intros names'. by rewrite filter_app, fmap_app.
  - intros n. rewrite filter_cons, filter_nil.
    destruct (PyStr.endswith n ".sql") eqn:Hend.
    + by rewrite decide_True.
    + by rewrite decide_False.
Qed.

End PathProperties.

(** ** Before an action is executed *)

Section CheckProperties.
Context {W Engine Ctx Args : Type}.
Variable B : collaborators W Engine Ctx.
Implicit Types (action : ActionRegisteration W Ctx Args) (s : state W).

(** X22: [notify_dependencies] logs one note for each dependency of the
    action, each dependency once, and nothing for the action named
    [complete-build]; it returns, and touches nothing but the log. *)
Theorem notify_dependencies_notes action s :
  let note := λ dep,
    "Note ! this command (" +:+ name action +:+ ") assumes that the " +:+ dep
    +:+ " action has been successfully completed already" in
  let deps :=
    if decide (name action = "complete-build") then []
    else elements (dependencies action) in
  notify_dependencies B action s
  = (Ok tt,
     State (heap s)
       (foldl (λ w msg, logger_info B msg w) (world s) (note <$> deps)))
  ∧ NoDup deps
  ∧ (∀ dep, dep ∈ deps → dep ∈ dependencies action)
  ∧ (name action ≠ "complete-build" →
     ∀ dep, dep ∈ dependencies action → dep ∈ deps).
Proof.
  intros note deps. subst deps. unfold notify_dependencies.
  case_decide as Hname.
  - split; [by destruct s|]. split; [constructor|].
    split; [by intros dep ?%elem_of_nil|done].
  - split; [apply (for_each_log B note)|].
    split; [apply NoDup_elements|].
    split; intros; by apply elem_of_elements.
Qed.

(** X23: for an action that changes the database, the outcome of
    [pre_exec_check] is that of the one question asked: the answer of the
    user, or the exception that interrupts the question.  The question
    names the server and the database of the connection. *)
Theorem pre_exec_check_asks action context conn_info s w4 w5
    (answer : result bool) :
  affects_database action = true →
  get_conn_info B context (world (notify_dependencies B action s).2)
    = (Ok conn_info, w4) →
  are_you_sure B
    ("Warning! You are about to commit changes to server "
     +:+ default "None" (conn_info !! "server")
     +:+ " database " +:+ default "None" (conn_info !! "database")) w4
    = (answer, w5) →
  pre_exec_check B action context s = (answer, State (heap s) w5).
Proof.
  intros Haff Hconn Hask. unfold pre_exec_check.
  destruct (notify_dependencies_run B action s) as [w3 Hw3].
  rewrite Hw3 in Hconn. cbn [snd world] in Hconn.
  rewrite (bind_Ok _ _ _ _ _ Hw3), Haff.
  erewrite bind_Ok; [|unfold liftW; cbn [heap world]; by rewrite Hconn].
  unfold bind, liftW. cbn [heap world].
  change (warning_message conn_info) with
    ("Warning! You are about to commit changes to server "
     +:+ default "None" (conn_info !! "server")
     +:+ " database " +:+ default "None" (conn_info !! "database")).
  rewrite Hask. by destruct answer as [[]|].
Qed.

End CheckProperties.

(** ** The further properties on the small session *)

(** X1, on the session: two rounds on [a.sql] and [b.sql]. *)
Lemma sql_file_loop_reports_listed_files_witness :
  ∃ failed s',
    heap Sample.two_files !! 1%positive = Some ["a.sql"; "b.sql"]
    ∧ sql_file_loop Sample.fails_on_b 1%positive (Some 2%Z) Sample.two_files
      = (Ok failed, s')
    ∧ NoDup (dict_keys failed)
    ∧ (∀ f, f ∈ dict_keys failed → f ∈ ["a.sql"; "b.sql"])
    ∧ ∀ f errs, (f, errs) ∈ failed →
        NoDup errs ∧ ∀ x, x ∈ errs → ∃ m, x = separator +:+ m.
Proof.
  eexists _, _. split; [reflexivity|]. split; [vm_compute; reflexivity|].
  refine (sql_file_loop_reports_listed_files Sample.fails_on_b 1%positive
            (Some 2%Z) Sample.two_files ["a.sql"; "b.sql"] _ _ _ _);
    [reflexivity | vm_compute; reflexivity].
Defined.

(** X2, on the session. *)
Lemma sql_file_loop_reported_with_error_witness :
  ∃ failed s',
    heap Sample.two_files !! 1%positive = Some ["a.sql"; "b.sql"]
    ∧ (1 ≤ 2)%Z
    ∧ sql_file_loop Sample.fails_on_b 1%positive (Some 2%Z) Sample.two_files
      = (Ok failed, s')
    ∧ ∀ f errs, (f, errs) ∈ failed → errs ≠ [].
Proof.
  eexists _, _. split; [reflexivity|]. split; [lia|].
  split; [vm_compute; reflexivity|].
  refine (sql_file_loop_reported_with_error Sample.fails_on_b 1%positive
            (Some 2%Z) Sample.two_files ["a.sql"; "b.sql"] _ _ _ _ _);
    [reflexivity | cbn; lia | vm_compute; reflexivity].
Defined.

(** X3, on the session: [b.sql] fails every time. *)
Lemma sql_file_loop_reports_failing_file_witness :
  ∃ failed s',
    heap Sample.two_files !! 1%positive = Some ["a.sql"; "b.sql"]
    ∧ "b.sql" ∈ ["a.sql"; "b.sql"]
    ∧ (∀ w, ∃ e w', Sample.fails_on_b "b.sql" w = (Raise e, w')
                    ∧ is_Exception e = true)
    ∧ sql_file_loop Sample.fails_on_b 1%positive (Some 2%Z) Sample.two_files
      = (Ok failed, s')
    ∧ "b.sql" ∈ dict_keys failed.
Proof.
  assert (Hb : ∀ w : Sample.world,
            ∃ e w', Sample.fails_on_b "b.sql" w = (Raise e, w')
                    ∧ is_Exception e = true).
  { intros w. eexists _, _. split; reflexivity. }
  eexists _, _. split; [reflexivity|]. split; [compute_done|].
  split; [exact Hb|]. split; [vm_compute; reflexivity|].
  refine (sql_file_loop_reports_failing_file Sample.fails_on_b 1%positive
            (Some 2%Z) Sample.two_files ["a.sql"; "b.sql"] _ _ "b.sql"
            _ _ Hb _);
    [reflexivity | compute_done | vm_compute; reflexivity].
Defined.

(** X4, on the session: a command that returns on every file. *)
Lemma sql_file_loop_all_succeed_witness :
  heap Sample.two_files !! 1%positive = Some ["a.sql"; "b.sql"]
  ∧ (∀ f, f ∈ ["a.sql"; "b.sql"] → ∀ w, ∃ w', Sample.say f w = (Ok tt, w'))
  ∧ ∃ s',
      sql_file_loop Sample.say 1%positive (Some 1%Z) Sample.two_files
      = (Ok [], s')
      ∧ for_each ["a.sql"; "b.sql"] (λ f (_ : unit), Sample.say f) tt
          (world Sample.two_files)
        = (Ok tt, world s').
Proof.
  assert (Hsay : ∀ f : string, f ∈ ["a.sql"; "b.sql"] →
            ∀ w, ∃ w', Sample.say f w = (Ok tt, w')).
  { intros f _ w. by eexists. }
  split; [reflexivity|]. split; [exact Hsay|].
  refine (sql_file_loop_all_succeed Sample.say 1%positive (Some 1%Z)
            Sample.two_files ["a.sql"; "b.sql"] _ Hsay _);
    [reflexivity | left; cbn; lia].
Defined.

(** X5, on the session: no round. *)
Lemma sql_file_loop_no_round_witness :
  heap Sample.two_files !! 1%positive = Some ["a.sql"; "b.sql"]
  ∧ (0 ≤ 0)%Z
  ∧ ∃ failed s',
      sql_file_loop Sample.fails_on_b 1%positive (Some 0%Z) Sample.two_files
      = (Ok failed, s')
      ∧ world s' = world Sample.two_files
      ∧ NoDup (dict_keys failed)
      ∧ (∀ f, f ∈ dict_keys failed ↔ f ∈ ["a.sql"; "b.sql"])
      ∧ ∀ f errs, (f, errs) ∈ failed → errs = [].
Proof.
  split; [reflexivity|]. split; [lia|].
  refine (sql_file_loop_no_round Sample.fails_on_b 1%positive (Some 0%Z)
            Sample.two_files ["a.sql"; "b.sql"] _ _);
    [reflexivity | cbn; lia].
Defined.

(** X6, on the session. *)
Lemma sql_file_loop_raises_what_escapes_witness :
  heap Sample.two_files !! 1%positive = Some ["a.sql"; "b.sql"]
  ∧ (∀ e s',
       sql_file_loop Sample.fails_on_b 1%positive (Some 2%Z) Sample.two_files
       = (Raise e, s') →
       is_Exception e = false
       ∧ ∃ g w w', g ∈ ["a.sql"; "b.sql"]
                   ∧ Sample.fails_on_b g w = (Raise e, w'))
  ∧ ((∀ g w e w', g ∈ ["a.sql"; "b.sql"] →
                  Sample.fails_on_b g w = (Raise e, w') →
                  is_Exception e = true) →
     ∃ failed s',
       sql_file_loop Sample.fails_on_b 1%positive (Some 2%Z) Sample.two_files
       = (Ok failed, s')).
Proof.
  split; [reflexivity|].
  exact (sql_file_loop_raises_what_escapes Sample.fails_on_b 1%positive
           (Some 2%Z) Sample.two_files ["a.sql"; "b.sql"] eq_refl).
Defined.

(** X8, on the session: dropping the views of [sql], where the scripts
    are not named after a schema. *)
Lemma drop_sqlfile_objects_bad_name_witness :
  let s := Sample.nothing_yet in
  let names := ["a.sql"; "b.sql"; "notes.txt"] in
  let w2 := ["Dropping"] in
  let s1 := State (heap s) (om_enter Sample.B "Dropping" (world s)) in
  let files := sql_files_of "sql" names in
  let s3 := State (<[fresh (dom (heap s)) := files]> (heap s)) w2 in
  let command := λ file, drop_sql_from_file Sample.B file tt "VIEW" in
  let x := separator
           +:+ ("File " +:+ "sql/a.sql" +:+ " not in <schema.object.sql> format.") in
  let header := "Failed to drop the following files:" +:+ PyStr.nl in
  "VIEW" ≠ "ASSEMBLY"
  ∧ is_dir Sample.B "sql" (world s1) = true
  ∧ listdir Sample.B "sql" (world s1) = (Ok names, w2)
  ∧ "sql/a.sql" ∈ files
  ∧ length (PyStr.split "."%char (PyStr.basename "sql/a.sql")) ≠ 3
  ∧ ∃ failed,
      (sql_file_loop command (fresh (dom (heap s)))
         (Some (Z.of_nat (length files))) s3).1 = Ok failed
      ∧ ("sql/a.sql", [x]) ∈ failed
      ∧ (drop_sqlfile_objects Sample.B tt "VIEW" "sql" "Dropping" s).1
        = Raise (Exn RuntimeError (error_msg header failed))
      ∧ PyStr.occurs_in "sql/a.sql" (error_msg header failed)
      ∧ PyStr.occurs_in x (error_msg header failed).
Proof.
  cbv zeta.
  assert (Hty : "VIEW" ≠ "ASSEMBLY") by discriminate.
  assert (Hin : "sql/a.sql" ∈ sql_files_of "sql" ["a.sql"; "b.sql"; "notes.txt"])
    by (vm_compute; apply list_elem_of_here).
  assert (Hlen : length (PyStr.split "."%char (PyStr.basename "sql/a.sql")) ≠ 3)
    by (vm_compute; discriminate).
  split; [exact Hty|]. split; [reflexivity|]. split; [reflexivity|].
  split; [exact Hin|]. split; [exact Hlen|].
  refine (drop_sqlfile_objects_bad_name Sample.B tt "VIEW" "sql" "Dropping"
            Sample.nothing_yet ["a.sql"; "b.sql"; "notes.txt"] ["Dropping"]
            "sql/a.sql" Hty eq_refl eq_refl Hin Hlen _).
  intros query w e w' Hrun. discriminate Hrun.
Defined.

(** X9, on the session where every script runs. *)
Lemma deploy_sqlfiles_all_succeed_witness :
  let s := Sample.nothing_yet in
  let names := ["a.sql"; "b.sql"; "notes.txt"] in
  let w2 := ["Deploying"] in
  let s1 := State (heap s) (om_enter every_script_runs "Deploying" (world s)) in
  let files := sql_files_of "sql" names in
  let command := λ file,
    deploy_sql_from_file every_script_runs file tt false None in
  is_dir every_script_runs "sql" (world s1) = true
  ∧ listdir every_script_runs "sql" (world s1) = (Ok names, w2)
  ∧ ∃ w3 s',
      for_each files (λ f (_ : unit), command f) tt w2 = (Ok tt, w3)
      ∧ deploy_sqlfiles every_script_runs tt "sql" "Deploying" false None s
        = (Ok true, s')
      ∧ world s' = om_exit every_script_runs "Deploying" w3.
Proof.
  cbv zeta. split; [reflexivity|]. split; [reflexivity|].
  refine (deploy_sqlfiles_all_succeed every_script_runs tt "sql" "Deploying"
            false None Sample.nothing_yet ["a.sql"; "b.sql"; "notes.txt"]
            ["Deploying"] eq_refl eq_refl _).
  intros file w. by eexists _, _.
Defined.

(** X10, on the session: a name that is not registered. *)
Lemma execute_action_refuses_witness :
  let s := Sample.nothing_yet in
  let w1 := om_enter Sample.B (starting_message "undefined")
              (logger_info Sample.B "------" (world s)) in
  let allowed_actions :=
    default (AllowedList []) (configuration_allowed_actions Sample.B tt) in
  Context_init Sample.B "config.jsonc" w1 = (Ok tt, w1)
  ∧ Sample.registered !! "undefined" = None
  ∧ execute_action Sample.B "undefined" "config.jsonc" tt Sample.registered s
    = (Ok VNone,
       State (heap s)
         (om_exit Sample.B (starting_message "undefined")
            (world (check_action_validity Sample.B "undefined"
                      allowed_actions Sample.registered
                      (State (heap s) w1)).2))).
Proof.
  cbv zeta. split; [reflexivity|]. split; [reflexivity|].
  refine (execute_action_refuses Sample.B "undefined" "config.jsonc" tt
            Sample.registered tt Sample.nothing_yet _ eq_refl _).
  right. reflexivity.
Defined.

(** X11, on the session: [init] is allowed, registered and asks nothing. *)
Lemma execute_action_runs_function_witness :
  let s := Sample.nothing_yet in
  let w1 := om_enter Sample.B (starting_message "init")
              (logger_info Sample.B "------" (world s)) in
  let allowed_actions :=
    default (AllowedList []) (configuration_allowed_actions Sample.B tt) in
  Context_init Sample.B "config.jsonc" w1 = (Ok tt, w1)
  ∧ (py_in "init" allowed_actions || py_in "ALL" allowed_actions) = true
  ∧ Sample.registered !! "init" = Some Sample.init_action
  ∧ pre_exec_check Sample.B Sample.init_action tt (State (heap s) w1)
    = (Ok true, State (heap s) w1)
  ∧ execute_action Sample.B "init" "config.jsonc" tt Sample.registered s
    = f_call Sample.init tt tt
        (State (heap s) (om_exit Sample.B (starting_message "init") w1)).
Proof.
  cbv zeta. split; [reflexivity|]. split; [reflexivity|].
  split; [reflexivity|]. split; [reflexivity|].
  refine (execute_action_runs_function Sample.B "init" "config.jsonc" tt
            Sample.registered Sample.init_action tt Sample.nothing_yet _ _
            eq_refl eq_refl eq_refl eq_refl).
Defined.

(** X14, on the session: a multiaction of [init] and [deploy]. *)
Lemma create_multiaction_of_primitives_witness :
  keyed_by_name Sample.registered
  ∧ Forall (λ sa, ∃ r, Sample.registered !! sa = Some r
                       ∧ baseactions r = {[name r]}) ["init"; "deploy"]
  ∧ ∃ func reg' rs self,
      create_multiaction "complete-build" ["init"; "deploy"] "Run all"
        Sample.registered = Ok (func, reg')
      ∧ Forall2 (λ sa r, Sample.registered !! sa = Some r)
          ["init"; "deploy"] rs
      ∧ reg' !! "complete-build" = Some self
      ∧ baseactions self = list_to_set ["init"; "deploy"]
      ∧ dependencies self
        = ⋃ (dependencies <$> rs) ∖ list_to_set ["init"; "deploy"]
      ∧ dependencies self ## baseactions self.
Proof.
  assert (Hkeyed : keyed_by_name Sample.registered).
  { unfold Sample.registered, ActionRegisteration_init. cbn [snd].
    do 2 apply keyed_by_name_register. intros k r Hk.
    by rewrite lookup_empty in Hk. }
  assert (Hprim : Forall (λ sa, ∃ r, Sample.registered !! sa = Some r
                                     ∧ baseactions r = {[name r]})
                    ["init"; "deploy"]).
  { constructor; [exists Sample.init_action; split; reflexivity|].
    constructor; [exists Sample.deploy_action; split; reflexivity|].
    constructor. }
  split; [exact Hkeyed|]. split; [exact Hprim|].
  exact (create_multiaction_of_primitives "complete-build" ["init"; "deploy"]
           "Run all" Sample.registered Hkeyed Hprim).
Defined.

(** X18, on a view of the schema [store]. *)
Lemma drop_object_name_shape_witness :
  "VIEW" ≠ "ASSEMBLY"
  ∧ (drop_object_name "sql/store.vwClients.sql" "VIEW" = Ok "store.vwClients"
     ↔ ∃ schema object ext,
         PyStr.basename "sql/store.vwClients.sql"
         = schema +:+ "." +:+ object +:+ "." +:+ ext
         ∧ ("." ∉ PyStr.chars schema)
         ∧ ("." ∉ PyStr.chars object)
         ∧ ("." ∉ PyStr.chars ext)
         ∧ "store.vwClients" = schema +:+ "." +:+ object).
Proof.
  assert (Hty : "VIEW" ≠ "ASSEMBLY") by discriminate.
  split; [exact Hty|].
  exact (drop_object_name_shape "sql/store.vwClients.sql" "VIEW"
           "store.vwClients" Hty).
Defined.

(** X21, on a script of the session. *)
Lemma basename_path_join_witness :
  ("/" ∉ PyStr.chars "a.sql")
  ∧ PyStr.basename (PyStr.path_join "sql" "a.sql") = "a.sql".
Proof.
  assert (Hfree : "/" ∉ PyStr.chars "a.sql") by compute_done.
  split; [exact Hfree|].
  exact (basename_path_join "sql" "a.sql" Hfree).
Defined.

(** X23, on the session: [deploy] changes the database and the user
    answers no. *)
Lemma pre_exec_check_asks_witness :
  let s := Sample.nothing_yet in
  let conn_info : gmap string string :=
    {[ "server" := "localhost"; "database" := "store" ]} in
  let w4 := world (notify_dependencies Sample.B Sample.deploy_action s).2 in
  let question :=
    "Warning! You are about to commit changes to server localhost database store" in
  affects_database Sample.deploy_action = true
  ∧ get_conn_info Sample.B tt w4 = (Ok conn_info, w4)
  ∧ are_you_sure Sample.B question w4 = (Ok false, w4 ++ [question])
  ∧ pre_exec_check Sample.B Sample.deploy_action tt s
    = (Ok false, State (heap s) (w4 ++ [question])).
Proof.
  cbv zeta. split; [reflexivity|]. split; [reflexivity|].
  split; [reflexivity|].
  refine (pre_exec_check_asks Sample.B Sample.deploy_action tt
            {[ "server" := "localhost"; "database" := "store" ]}
            Sample.nothing_yet _ _ (Ok false) eq_refl eq_refl _).
  reflexivity.
Defined.

(** ** Looking a key up in a file *)

Section LookupProperties.
Implicit Types (key line k x v : string) (lines : list string).

Lemma split_once_free sep line :
  (String sep EmptyString ∉ PyStr.chars line) → split_once sep line = [line].
Proof.
  induction line as [|c line IH]; intros Hfree; [done|].
  cbn [PyStr.chars] in Hfree. apply not_elem_of_cons in Hfree as [Hc Hfree].
  cbn [split_once]. rewrite decide_False by (by intros ->). by rewrite IH.
Qed.

Lemma split_once_app sep k x :
  (String sep EmptyString ∉ PyStr.chars k) →
  split_once sep (k +:+ String sep x) = [k; x].
Proof.
  induction k as [|c k IH]; intros Hfree.
  - rewrite str_app_empty_l. cbn [split_once]. by rewrite decide_True.
  - cbn [PyStr.chars] in Hfree. apply not_elem_of_cons in Hfree as [Hc Hfree].
    rewrite str_app_String. cbn [split_once].
    rewrite decide_False by (by intros ->). by rewrite IH.
Qed.

Lemma split_once_spec sep line :
  ((String sep EmptyString ∉ PyStr.chars line) ∧ split_once sep line = [line])
  ∨ ∃ k x, line = k +:+ String sep x
           ∧ (String sep EmptyString ∉ PyStr.chars k)
           ∧ split_once sep line = [k; x].
Proof.
  induction line as [|c line IH].
  - left. split; [apply not_elem_of_nil|done].
  - destruct (decide (c = sep)) as [->|Hc].
    + right. exists EmptyString, line. split; [done|].
      split; [apply not_elem_of_nil|]. cbn [split_once]. by rewrite decide_True.
    + cbn [split_once]. rewrite decide_False by done.
      destruct IH as [[Hfree ->]|(k & x & -> & Hfree & ->)].
      * left. split; [|done]. cbn [PyStr.chars]. apply not_elem_of_cons.
        split; [by intros [= ->]|done].
      * right. exists (String c k), x. split; [done|]. split; [|done].
        cbn [PyStr.chars]. apply not_elem_of_cons.
        split; [by intros [= ->]|done].
Qed.

Lemma lookup_line_malformed key line :
  ("=" ∉ PyStr.chars line) → lookup_line key line = Return (Some EmptyString).
Proof.
  intros Hfree. unfold lookup_line. by rewrite split_once_free.
Qed.

Lemma lookup_line_pair key k x :
  ("=" ∉ PyStr.chars k) →
  lookup_line key (k +:+ "=" +:+ x)
  = if decide (k = key) then Return (Some x) else Next tt.
Proof.
  intros Hfree. unfold lookup_line.
  change (k +:+ "=" +:+ x) with (k +:+ String "="%char x).
  by rewrite split_once_app.
Qed.

Lemma lookup_line_cases key line :
  (("=" ∉ PyStr.chars line) ∧ lookup_line key line = Return (Some EmptyString))
  ∨ ∃ k x, line = k +:+ "=" +:+ x
           ∧ ("=" ∉ PyStr.chars k)
           ∧ lookup_line key line
             = if decide (k = key) then Return (Some x) else Next tt.
Proof.
  destruct (split_once_spec "="%char line) as [[Hfree _]|(k & x & -> & Hfree & _)].
  - left. split; [done|]. by apply lookup_line_malformed.
  - right. exists k, x. split; [done|]. split; [done|].
    by apply (lookup_line_pair key k x).
Qed.

(** X24: [lookup_from_file] answers with the first line that decides:
    the lines before it all have an equals sign, with another key before
    the first one; the deciding line either has the key before its first
    equals sign, and the answer is all that follows that sign, further
    equals signs and the newline included, or it has no equals sign at
    all, and the answer is the empty string.  The answer is [None] exactly
    when every line has an equals sign and another key. *)
Theorem lookup_lines_spec key lines :
  let other line :=
    ∃ k x, line = k +:+ "=" +:+ x ∧ ("=" ∉ PyStr.chars k) ∧ k ≠ key in
  (∀ v, lookup_lines key lines = Some v
        ↔ ∃ pre line post,
            lines = pre ++ line :: post
            ∧ Forall other pre
            ∧ ((line = key +:+ "=" +:+ v ∧ ("=" ∉ PyStr.chars key))
               ∨ (("=" ∉ PyStr.chars line) ∧ v = EmptyString)))
  ∧ (lookup_lines key lines = None ↔ Forall other lines).
Proof.
  intros other.
  assert (Hother : ∀ line, other line → lookup_line key line = Next tt).
  { intros line (k & x & -> & Hfree & Hk).
    rewrite lookup_line_pair by done. by rewrite decide_False. }
  assert (Hnext : ∀ line, lookup_line key line = Next tt → other line).
  { intros line Hline.
    destruct (lookup_line_cases key line)
      as [[_ Hl]|(k & x & -> & Hfree & Hl)]; rewrite Hl in Hline; [done|].
    case_decide; [done|]. by exists k, x. }
  induction lines as [|line lines [IHsome IHnone]]; cbn [lookup_lines].
  - split; [|done]. intros v. split; [done|].
    intros (pre & line & post & Heq & _). by destruct pre.
  - destruct (lookup_line key line) as [r|[]] eqn:Hline.
    + assert (Hnot : ¬ other line).
      { intros Ho. apply Hother in Ho. congruence. }
      split.
      * intros v. split.
        -- intros ->. exists [], line, lines. split; [done|].
           split; [constructor|].
           destruct (lookup_line_cases key line)
             as [[Hfree Hl]|(k & x & -> & Hfree & Hl)];
             rewrite Hl in Hline.
           ++ right. split; [done|]. congruence.
           ++ left. case_decide as Hk; [|done]. subst k.
              split; [|done]. congruence.
        -- intros (pre & line' & post & Heq & Hpre & Hdec).
           destruct pre as [|p pre].
           ++ injection Heq as <- <-.
              destruct Hdec as [[-> Hfree]|[Hfree ->]].
              ** rewrite lookup_line_pair, decide_True in Hline by done.
                 congruence.
              ** rewrite lookup_line_malformed in Hline by done. congruence.
           ++ injection Heq as <- _. by apply Forall_cons in Hpre as [? _].
      * split.
        -- intros ->.
           destruct (lookup_line_cases key line)
             as [[_ Hl]|(k & x & _ & _ & Hl)]; rewrite Hl in Hline; [done|].
           by case_decide.
        -- by intros [? _]%Forall_cons.
    + pose proof (Hnext _ Hline) as Ho. split.
      * intros v. rewrite IHsome. split.
        -- intros (pre & line' & post & -> & Hpre & Hdec).
           exists (line :: pre), line', post. split; [done|].
           split; [by constructor|done].
        -- intros (pre & line' & post & Heq & Hpre & Hdec).
           destruct pre as [|p pre].
           ++ injection Heq as <- <-.
              destruct Hdec as [[-> Hfree]|[Hfree ->]].
              ** rewrite lookup_line_pair, decide_True in Hline by done.
                 done.
              ** by rewrite lookup_line_malformed in Hline.
           ++ injection Heq as <- ->. apply Forall_cons in Hpre as [_ Hpre].
              by exists pre, line', post.
      * rewrite IHnone. split; [by constructor|by intros [_ ?]%Forall_cons].
Qed.

(** X25: on a file whose lines can be read, a line made as
    [store_to_file] writes it, the key, an equals sign and the value,
    gives the value back when the key holds no equals sign and the lines
    before are lines for other keys; the value may hold equals signs. *)
Theorem lookup_from_file_stored {W} (F : files W) key val filename
    (pre post : list string) (w w' : W) :
  is_file F filename w = true →
  open_lines F filename w = (Ok (pre ++ (key +:+ "=" +:+ val) :: post), w') →
  ("=" ∉ PyStr.chars key) →
  Forall (λ line, ∃ k x, line = k +:+ "=" +:+ x
                         ∧ ("=" ∉ PyStr.chars k) ∧ k ≠ key) pre →
  lookup_from_file F key filename w = (Ok (Some val), w').
Proof.
  intros Hfile Hopen Hfree Hpre. unfold lookup_from_file.
  rewrite Hfile. cbn [negb].
  rewrite (bind_Ok _ _ _ _ _ Hopen). unfold ret. f_equal. f_equal.
  clear Hopen. induction Hpre as [|line pre (k & x & -> & Hk & Hne) _ IH].
  - cbn [app lookup_lines]. by rewrite lookup_line_pair, decide_True.
  - cbn [app lookup_lines].
    by rewrite lookup_line_pair, decide_False.
Qed.

End LookupProperties.

(** X25, on a file with a line for another key, then the line for
    [cred]. *)
Lemma lookup_from_file_stored_witness :
  is_file one_credential "usr.txt" [] = true
  ∧ open_lines one_credential "usr.txt" []
    = (Ok (["other=x" +:+ PyStr.nl] ++ ("cred" +:+ "=" +:+ "amFuZQ==") :: []), [])
  ∧ ("=" ∉ PyStr.chars "cred")
  ∧ lookup_from_file one_credential "cred" "usr.txt" []
    = (Ok (Some "amFuZQ=="), []).
Proof.
  assert (Hfree : "=" ∉ PyStr.chars "cred") by compute_done.
  split; [reflexivity|]. split; [reflexivity|]. split; [exact Hfree|].
  refine (lookup_from_file_stored one_credential "cred" "amFuZQ==" "usr.txt"
            ["other=x" +:+ PyStr.nl] [] [] [] eq_refl eq_refl Hfree _).
  constructor; [|constructor].
  exists "other", ("x" +:+ PyStr.nl). split; [reflexivity|].
  split; [compute_done|discriminate].
Defined.
